(** * Tacent formatted printing (tPrint.cpp): a shallow embedding

    The development follows [tPrint.cpp]: the [Receiver] sink, the
    [FormatSpec] record, the handler table, the integer and floating point
    renderers, the format-string scanner [Process] and the [t*Printf]
    entry points.  The definitions come first, then the properties.

    Conventions.
    - A [char] is its code, a [Z].  A C string argument is the list of the
      bytes found from the pointer on; it ends at the first zero byte (or at
      the end of the list).
    - The format pointer is the list of bytes that its storage holds from the
      pointer on, terminator included: [format++] is the tail, and reading
      where the list has ended is a read outside the storage ([BadRead]).
    - [uint32] and [uint64] arithmetic is written with its wrap-around.  The
      numbers the scanner accumulates from runs of digits are [int]s and are
      written with two's-complement wrap-around ([int32]), and so is the
      difference [spec.Width - itemLength] of the justification helpers,
      whose width is the caller's.  The other [int]s are plain [Z]: the
      counters, lengths and loop indices, which are bounded by the amount of
      text handled, and the width left that the integer helpers and the
      exponential form count down from the width, which is an [int] as long
      as the width is not within that amount of the least [int].
    - The arithmetic of [double] is that of Rocq's primitive binary64
      [float].  A primitive [float] has every value of the format but one NaN
      only, so a [double] operand carries, beside its value, the bits that
      tell the NaNs apart.  A [float] operand is held as the [double] it
      widens to.
    - A [tAssert] that fails, an argument of the wrong shape, a negative count
      that reaches [tMemcpy] are results of their own ([None], [Stopped]),
      never a made-up value.  A call of a handler that does not come back is
      no result either: the loops over a [double] are followed for
      [FloatFuel] turns, and one that has not ended by then gives [None].
    - The texts that the helpers build in arrays on the stack are lists.  A
      list stands for its array as long as the text fits it: 127 characters
      in [buf] of the native integer helper, 1023 in that of the extended one
      (widths and precisions below these sizes), 47 in [result] of
      [Handler_e] and [Handler_g], which [ExpRender] checks. *)

From Stdlib Require Import ZArith List Lia Bool String Ascii Floats Uint63.
Import ListNotations.
Open Scope Z_scope.

(** ** Characters and machine integers *)

Definition ch (a : ascii) : Z := Z.of_nat (nat_of_ascii a).
Arguments ch a%_char.

Fixpoint cstr (s : string) : list Z :=
  match s with
  | EmptyString => []
  | String.String a s' => ch a :: cstr s'
  end.
Arguments cstr s%_string.

Definition int32 (z : Z) : Z := (z + 2 ^ 31) mod 2 ^ 32 - 2 ^ 31.
Definition INT_MAX : Z := 2 ^ 31 - 1.
Definition uint64 (z : Z) : Z := z mod 2 ^ 64.
Definition int64 (z : Z) : Z := (z + 2 ^ 63) mod 2 ^ 64 - 2 ^ 63.

(** Modelled from the spec: [tStd::tIsdigit] and [tStd::tStrlen] are not under
    src/; they are the usual decimal-digit test and C string length. *)
Definition tIsdigit (c : Z) : bool := (ch "0" <=? c) && (c <=? ch "9").

Fixpoint tStrlen (s : list Z) : Z :=
  match s with
  | [] => 0
  | c :: s' => if c =? 0 then 0 else 1 + tStrlen s'
  end.

Module tSystem.

(** ** The sink *)

(** [Buffer] is the [tArray<char>*]: [None] for [nullptr], else the characters
    appended so far.  [String] is the [char*]: [None] for [nullptr], else the
    characters stored through the pointer since construction (the pointer
    itself has moved past them). *)
Record Receiver := mkReceiver {
  Buffer : option (list Z);
  ReceiveLimit : Z;
  String : option (list Z);
  NumReceived : Z
}.

Definition Receiver_count : Receiver := mkReceiver None (-1) None 0.
Definition Receiver_buffer : Receiver := mkReceiver (Some []) (-1) None 0.
Definition Receiver_string : Receiver := mkReceiver None (-1) (Some []) 0.
Definition Receiver_string_limit (receiveLimit : Z) : Receiver :=
  mkReceiver None receiveLimit (Some []) 0.

Definition isSome {A} (o : option A) : bool :=
  match o with Some _ => true | None => false end.

Definition Append (l : list Z) : option (list Z) -> option (list Z) :=
  option_map (fun b => b ++ l).

(** [Receive(char c)]. *)
Definition Receive (r : Receiver) (c : Z) : Receiver :=
  if isSome (String r) && negb (ReceiveLimit r =? -1) && (NumReceived r >=? ReceiveLimit r)
  then r
  else mkReceiver (Append [c] (Buffer r)) (ReceiveLimit r)
                  (Append [c] (String r)) (NumReceived r + 1).

(** The test that opens both run-receiving overloads: with a bound string,
    [None] when it is full (the overload returns), else the count clamped to
    the room that remains. *)
Definition ClampToLimit (r : Receiver) (numChars : Z) : option Z :=
  if isSome (String r) && negb (ReceiveLimit r =? -1)
  then (if NumReceived r >=? ReceiveLimit r then None
        else (let remaining := ReceiveLimit r - NumReceived r in
              Some (if numChars >? remaining then remaining else numChars)))
  else Some numChars.

(** The tail of both: [Buffer->Append(str, n)], [tMemcpy(String, str, n)],
    [String += n], [NumReceived += n].  A negative count that reaches [Append]
    or [tMemcpy] is outside their contract: [None]. *)
Definition StoreRun (r : Receiver) (str : list Z) (numChars : Z) : option Receiver :=
  if (numChars <? 0) && (isSome (Buffer r) || isSome (String r)) then None
  else
    let run := firstn (Z.to_nat numChars) str in
    Some (mkReceiver (Append run (Buffer r)) (ReceiveLimit r)
                     (Append run (String r)) (NumReceived r + numChars)).

(** [Receive(const char* str)]: null-terminated; [None] is [nullptr]. *)
Definition Receive_str (r : Receiver) (str : option (list Z)) : option Receiver :=
  match str with
  | None => Some r
  | Some s =>
      match ClampToLimit r (tStrlen s) with
      | None => Some r
      | Some len => if len =? 0 then Some r else StoreRun r s len
      end
  end.

(** [Receive(const char* str, int numChars)]. *)
Definition Receive_n (r : Receiver) (str : option (list Z)) (numChars : Z) : option Receiver :=
  match str with
  | None => Some r
  | Some s =>
      if numChars =? 0 then Some r
      else match ClampToLimit r numChars with
           | None => Some r
           | Some n => StoreRun r s n
           end
  end.

(** [Receive(const tArray<char>& buf)]. *)
Definition Receive_buf (r : Receiver) (buf : list Z) : option Receiver :=
  Receive_n r (Some buf) (Z.of_nat (List.length buf)).

Definition GetNumReceived (r : Receiver) : Z := NumReceived r.

(** ** Format specification *)

Definition Flag_ForcePosOrNegSign : Z := Z.shiftl 1 0.
Definition Flag_SpaceForPosSign : Z := Z.shiftl 1 1.
Definition Flag_LeadingZeros : Z := Z.shiftl 1 2.
Definition Flag_LeftJustify : Z := Z.shiftl 1 3.
Definition Flag_DecorativeFormatting : Z := Z.shiftl 1 4.
Definition Flag_DecorativeFormattingAlt : Z := Z.shiftl 1 5.
Definition Flag_BasePrefix : Z := Z.shiftl 1 6.

Record FormatSpec := mkFormatSpec {
  Flags : Z;
  Width : Z;
  Precision : Z;
  TypeSizeBytes : Z
}.

Definition FormatSpec_default : FormatSpec := mkFormatSpec 0 0 (-1) 0.

(** [flags & F], read as a condition. *)
Definition has (flags F : Z) : bool := negb (Z.land flags F =? 0).
(** [flags &= ~F]. *)
Definition clear (flags F : Z) : Z := Z.land flags (Z.lnot F).

Definition set_Flags (s : FormatSpec) (f : Z) : FormatSpec :=
  mkFormatSpec f (Width s) (Precision s) (TypeSizeBytes s).
Definition set_Width (s : FormatSpec) (w : Z) : FormatSpec :=
  mkFormatSpec (Flags s) w (Precision s) (TypeSizeBytes s).
Definition set_Precision (s : FormatSpec) (p : Z) : FormatSpec :=
  mkFormatSpec (Flags s) (Width s) p (TypeSizeBytes s).
Definition set_TypeSizeBytes (s : FormatSpec) (n : Z) : FormatSpec :=
  mkFormatSpec (Flags s) (Width s) (Precision s) n.

(** ** Justification *)

(** [for (int s = 0; s < n; s++) receiver.Receive(c);] *)
Fixpoint ReceiveMany (n : nat) (c : Z) (r : Receiver) : Receiver :=
  match n with
  | O => r
  | S n' => ReceiveMany n' c (Receive r c)
  end.

(** [spec.Width - itemLength]: the difference of two [int]s, which wraps
    around when the width lies within [itemLength] of the least [int]. *)
Definition HandlerHelper_JustificationProlog (r : Receiver) (itemLength : Z) (spec : FormatSpec)
  : Receiver :=
  if has (Flags spec) Flag_LeftJustify then r
  else ReceiveMany (Z.to_nat (int32 (Width spec - itemLength)))
                   (if has (Flags spec) Flag_LeadingZeros then ch "0" else ch " ") r.

Definition HandlerHelper_JustificationEpilog (r : Receiver) (itemLength : Z) (spec : FormatSpec)
  : Receiver :=
  if negb (has (Flags spec) Flag_LeftJustify) then r
  else ReceiveMany (Z.to_nat (int32 (Width spec - itemLength))) (ch " ") r.

(** ** Operands *)

(** A [double].  [Value] is what its arithmetic sees, a primitive [float],
    which has every value of binary64 but a single NaN.  [NanSign] and
    [NanFraction] are the sign bit and the 52 bits of the fraction field of
    the [double] (not all zero in a NaN): they tell the NaNs of binary64
    apart and are read for a NaN only. *)
Record double := mkDouble {
  Value : float;
  NanSign : bool;
  NanFraction : Z
}.

(** A primitive [float] as a [double]; its NaN is the positive quiet NaN
    with no payload. *)
Definition Double (value : float) : double := mkDouble value false (2 ^ 51).
Coercion Double : float >-> double.
Bind Scope float_scope with double.

(** What a handler finds behind [void* data]: one of the [Val*] holders that
    [Process] fills from the argument list.  An integer holder is the unsigned
    number its bytes spell; a pointer-sized integer that is the address of a C
    string also carries the string; the components of a vector, a quaternion
    or a matrix are [float]s, held as the [double]s they widen to. *)
Inductive Operand :=
| ValI (bits : Z)
| ValPtr (addr : Z) (pointee : list Z)
| ValF (a : list double)
| ValD (a : double).

Definition operand_bits (data : Operand) : option Z :=
  match data with
  | ValI bits => Some bits
  | ValPtr addr _ => Some addr
  | _ => None
  end.

(** ** Integers *)

(** [while ((precision-- > 0) || rawValue)]: one digit per turn, written at
    [curr], which then moves left.  [curr] is the text between the pointer and
    the terminator at the end of [buf]. *)
Fixpoint DigitLoop (fuel : nat) (precision rawValue base offset : Z) (curr : list Z) : list Z :=
  match fuel with
  | O => curr
  | S fuel' =>
      if (precision >? 0) || negb (rawValue =? 0) then
        let digit := rawValue mod base + ch "0" in
        let rawValue := rawValue / base in
        let digit := if digit >? ch "9" then digit + offset else digit in
        DigitLoop fuel' (precision - 1) rawValue base offset (digit :: curr)
      else curr
  end.

(** [for (int z = 0; z < numZeroes; z++) { curr--; *curr = '0'; }] *)
Definition ZeroPad (numZeroes : Z) (curr : list Z) : list Z :=
  repeat (ch "0") (Z.to_nat numZeroes) ++ curr.

(** The decorative loops: [mod] is pre-incremented on every character, and a
    separator follows the character when [mod % every] is zero, except after
    the last one. *)
Fixpoint GroupLoop (every sep len : Z) (curr : list Z) (i mod_ : Z) (convBuf : list Z)
  : list Z :=
  match curr with
  | [] => convBuf
  | c :: rest =>
      let convBuf := convBuf ++ [c] in
      let mod_ := mod_ + 1 in
      let convBuf :=
        if (Z.rem mod_ every =? 0) && negb (i =? len - 1)
        then convBuf ++ [sep] else convBuf in
      GroupLoop every sep len rest (i + 1) mod_ convBuf
  end.

Definition Decorate (every sep : Z) (curr convBuf : list Z) : list Z :=
  let len := Z.of_nat (List.length curr) in
  let mod_ := every - Z.rem len every in
  GroupLoop every sep len curr 0 mod_ convBuf.

(** The sign block, shared in shape by both helpers: what is appended to
    [convBuf], whether the value is to be negated, and the width left. *)
Definition SignBlock (spec : FormatSpec) (treatAsUnsigned negative : bool) (base remWidth : Z)
  : list Z * bool * Z :=
  if base =? 10 then
    if negb treatAsUnsigned && negative then ([ch "-"], true, remWidth - 1)
    else if has (Flags spec) Flag_ForcePosOrNegSign then ([ch "+"], false, remWidth - 1)
    else if has (Flags spec) Flag_SpaceForPosSign then ([ch " "], false, remWidth - 1)
    else ([], false, remWidth)
  else ([], false, remWidth).

(** The prefix block: [0] for octal, [0x] or [0X] for hexadecimal. *)
Definition PrefixBlock (spec : FormatSpec) (rawValue : Z) (upperCase : bool) (base : Z)
  (forcePrefixLowerCase : bool) (remWidth : Z) : list Z * Z :=
  if (has (Flags spec) Flag_BasePrefix && negb (rawValue =? 0)) || forcePrefixLowerCase then
    if base =? 8 then ([ch "0"], remWidth - 1)
    else if base =? 16 then
      ((if negb upperCase || forcePrefixLowerCase then cstr "0x" else cstr "0X"), remWidth - 2)
    else ([], remWidth)
  else ([], remWidth).

Definition LetterOffset (upperCase : bool) : Z :=
  if upperCase then ch "A" - ch "9" - 1 else ch "a" - ch "9" - 1.

(** The local [flags] and [precision] of the helpers: the default precision of
    integers is 1, and a given precision turns the local leading-zeros flag
    off. *)
Definition LocalFlags (spec : FormatSpec) : Z :=
  if Precision spec =? -1 then Flags spec else clear (Flags spec) Flag_LeadingZeros.
Definition LocalPrecision (spec : FormatSpec) : Z :=
  if Precision spec =? -1 then 1 else Precision spec.

(** [HandlerHelper_IntegerNative], up to the digits: the new [convBuf] and the
    digit text at [curr] once the leading zeros are in. *)
Definition IntegerNative_Convert (convBuf : list Z) (spec : FormatSpec) (data : Z)
  (treatAsUnsigned : bool) (bitSize : Z) (upperCase : bool) (base : Z)
  (forcePrefixLowerCase : bool) : list Z * list Z :=
  let rawValue := if bitSize =? 32 then data mod 2 ^ 32 else data mod 2 ^ 64 in
  let negative := negb (Z.shiftr rawValue (bitSize - 1) =? 0) in
  let remWidth := Width spec in
  let '(sign, negate, remWidth) := SignBlock spec treatAsUnsigned negative base remWidth in
  let rawValue := if negate then uint64 (- int64 rawValue) else rawValue in
  let convBuf := convBuf ++ sign in
  let rawValue := if bitSize =? 32 then Z.land rawValue 0xFFFFFFFF else rawValue in
  let '(prefix, remWidth) :=
    PrefixBlock spec rawValue upperCase base forcePrefixLowerCase remWidth in
  let convBuf := convBuf ++ prefix in
  let flags := LocalFlags spec in
  let precision := LocalPrecision spec in
  let curr :=
    DigitLoop (Z.to_nat (Z.max precision 0) + 64) precision rawValue base
              (LetterOffset upperCase) [] in
  let curr :=
    if has flags Flag_LeadingZeros
    then ZeroPad (remWidth - Z.of_nat (List.length curr)) curr else curr in
  (convBuf, curr).

(** The end of [HandlerHelper_IntegerNative]: the digit text goes to
    [convBuf], decorated when a decorative flag is set. *)
Definition IntegerNative_Emit (flags : Z) (curr convBuf : list Z) : list Z :=
  if has flags Flag_DecorativeFormatting then Decorate 4 (ch "_") curr convBuf
  else if has flags Flag_DecorativeFormattingAlt then Decorate 3 (ch ",") curr convBuf
  else convBuf ++ curr.

(** [None] when [tAssert((bitSize == 32) || (bitSize == 64))] fails. *)
Definition HandlerHelper_IntegerNative (convBuf : list Z) (spec : FormatSpec) (data : Z)
  (treatAsUnsigned : bool) (bitSize : Z) (upperCase : bool) (base : Z)
  (forcePrefixLowerCase : bool) : option (list Z) :=
  if negb ((bitSize =? 32) || (bitSize =? 64)) then None
  else
    let '(convBuf, curr) :=
      IntegerNative_Convert convBuf spec data treatAsUnsigned bitSize upperCase base
                            forcePrefixLowerCase in
    Some (IntegerNative_Emit (LocalFlags spec) curr convBuf).

(** Modelled from the spec: the 512-bit integer type ([tuint512], [tint512])
    is not under src/; the helper needs its modulo, divide, shift, compare,
    mask and negate, taken here as arithmetic modulo [2 ^ 512]. *)
Definition tuint512 (z : Z) : Z := z mod 2 ^ 512.

Definition IntegerTacent_Convert (convBuf : list Z) (spec : FormatSpec) (data : Z)
  (treatAsUnsigned : bool) (bitSize : Z) (upperCase : bool) (base : Z)
  (forcePrefixLowerCase : bool) : list Z * list Z :=
  let rawValue :=
    if bitSize =? 128 then data mod 2 ^ 128
    else if bitSize =? 256 then data mod 2 ^ 256
    else tuint512 data in
  let negative := negb (Z.shiftr rawValue (bitSize - 1) =? 0) in
  let remWidth := Width spec in
  let '(sign, negate, remWidth) := SignBlock spec treatAsUnsigned negative base remWidth in
  let rawValue := if negate then tuint512 (- rawValue) else rawValue in
  let convBuf := convBuf ++ sign in
  let rawValue := if bitSize =? 128 then Z.land rawValue (2 ^ 128 - 1) else rawValue in
  let rawValue := if bitSize =? 256 then Z.land rawValue (2 ^ 256 - 1) else rawValue in
  let '(prefix, remWidth) :=
    PrefixBlock spec rawValue upperCase base forcePrefixLowerCase remWidth in
  let convBuf := convBuf ++ prefix in
  let flags := LocalFlags spec in
  let precision := LocalPrecision spec in
  let curr :=
    DigitLoop (Z.to_nat (Z.max precision 0) + 512) precision rawValue base
              (LetterOffset upperCase) [] in
  let curr :=
    if has flags Flag_LeadingZeros
    then ZeroPad (remWidth - Z.of_nat (List.length curr)) curr else curr in
  (convBuf, curr).

Definition IntegerTacent_Emit (flags : Z) (curr convBuf : list Z) : list Z :=
  if has flags Flag_DecorativeFormatting then Decorate 8 (ch "_") curr convBuf
  else if has flags Flag_DecorativeFormattingAlt then Decorate 3 (ch ",") curr convBuf
  else convBuf ++ curr.

(** [None] when the assertion on [bitSize] (128, 256 or 512) fails. *)
Definition HandlerHelper_IntegerTacent (convBuf : list Z) (spec : FormatSpec) (data : Z)
  (treatAsUnsigned : bool) (bitSize : Z) (upperCase : bool) (base : Z)
  (forcePrefixLowerCase : bool) : option (list Z) :=
  if negb ((bitSize =? 128) || (bitSize =? 256) || (bitSize =? 512)) then None
  else
    let '(convBuf, curr) :=
      IntegerTacent_Convert convBuf spec data treatAsUnsigned bitSize upperCase base
                            forcePrefixLowerCase in
    Some (IntegerTacent_Emit (LocalFlags spec) curr convBuf).

(** The body that [Handler_b], [Handler_o], [Handler_d], [Handler_i],
    [Handler_u], [Handler_x] and [Handler_X] repeat, each with its own
    [treatAsUnsigned], [upperCase] and [base]. *)
Definition IntegerHandler (treatAsUnsigned upperCase : bool) (base : Z)
  (receiver : Receiver) (spec : FormatSpec) (data : Operand) : option Receiver :=
  let bitSize := TypeSizeBytes spec * 8 in
  let nativeInt := (bitSize =? 32) || (bitSize =? 64) in
  let tacentInt := (bitSize =? 128) || (bitSize =? 256) || (bitSize =? 512) in
  if negb (nativeInt || tacentInt) then None
  else
    match operand_bits data with
    | None => None
    | Some bits =>
        match (if nativeInt
               then HandlerHelper_IntegerNative [] spec bits treatAsUnsigned bitSize
                                                upperCase base false
               else HandlerHelper_IntegerTacent [] spec bits treatAsUnsigned bitSize
                                                upperCase base false) with
        | None => None
        | Some convInt =>
            let n := Z.of_nat (List.length convInt) in
            let receiver := HandlerHelper_JustificationProlog receiver n spec in
            match Receive_buf receiver convInt with
            | None => None
            | Some receiver => Some (HandlerHelper_JustificationEpilog receiver n spec)
            end
        end
    end.

Definition Handler_b := IntegerHandler true false 2.
Definition Handler_o := IntegerHandler true false 8.
Definition Handler_d := IntegerHandler false false 10.
Definition Handler_i := IntegerHandler false false 10.
Definition Handler_u := IntegerHandler true false 10.
Definition Handler_x := IntegerHandler true false 16.
Definition Handler_X := IntegerHandler true true 16.

Definition Handler_p (receiver : Receiver) (spec : FormatSpec) (data : Operand)
  : option Receiver :=
  let pspec := set_Flags spec (Z.lor (Flags spec) Flag_LeadingZeros) in
  let pspec := if Width spec =? 0 then set_Width pspec (2 + 2 * TypeSizeBytes spec) else pspec in
  let bitSize := TypeSizeBytes spec * 8 in
  match operand_bits data with
  | None => None
  | Some bits =>
      match HandlerHelper_IntegerNative [] pspec bits true bitSize true 16 true with
      | None => None
      | Some convInt =>
          let n := Z.of_nat (List.length convInt) in
          let receiver := HandlerHelper_JustificationProlog receiver n pspec in
          match Receive_buf receiver convInt with
          | None => None
          | Some receiver => Some (HandlerHelper_JustificationEpilog receiver n pspec)
          end
      end
  end.

(** ** Floating point *)

(** The conversions of C++ between [double] and the integer types, on the
    values they are defined for: truncation toward zero, and the exact value
    of a small integer. *)
Definition double_to_int (f : float) : Z :=
  match Prim2SF f with
  | S754_finite s m e =>
      let mag := if 0 <=? e then Z.pos m * 2 ^ e else Z.shiftr (Z.pos m) (- e) in
      if s then - mag else mag
  | _ => 0
  end.

Definition int_to_double (z : Z) : float :=
  if z <? 0 then PrimFloat.opp (PrimFloat.of_uint63 (Uint63.of_Z (- z)))
  else PrimFloat.of_uint63 (Uint63.of_Z z).

Definition fnonzero (f : float) : bool := negb (PrimFloat.eqb f 0%float).
Definition fge (a b : float) : bool := PrimFloat.leb b a.
Definition fgt (a b : float) : bool := PrimFloat.ltb b a.

(** The turns for which a loop over a [double] is followed.  A loop that is
    still running after that many turns has no result ([None]).  Each loop
    multiplies or divides by ten, from one to the operand or from the operand
    to one, and the finite values of binary64 lie less than 400 powers of
    ten away from one; so what is still running then runs on an infinite
    value, which a multiplication or division by ten leaves as it is.  That
    is where the loop of the code does not end: the [f] directive on the
    largest finite [double], whose power of ten [dec] overflows, is a
    case. *)
Definition FloatFuel : nat := 400.

Inductive tFloatType := NORM | PQNAN | NQNAN | PSNAN | NSNAN | IQNAN | PINF | NINF.

(** Modelled from the spec: [tStd::tGetFloatType] is not under src/; it sorts a
    value into the IEEE categories: the infinities by their sign, and the
    NaNs by their sign bit and their quiet bit, the highest bit of the
    fraction; a NaN with the quiet bit clear is a signalling one, and the
    negative quiet NaN with no other bit of the fraction set is the
    indeterminate one (what [0.0 / 0.0] gives). *)
Definition tGetFloatType (value : double) : tFloatType :=
  match PrimFloat.classify (Value value) with
  | FloatClass.PInf => PINF
  | FloatClass.NInf => NINF
  | FloatClass.NaN =>
      let fraction := NanFraction value mod 2 ^ 52 in
      if fraction <? 2 ^ 51 then (if NanSign value then NSNAN else PSNAN)
      else if negb (NanSign value) then PQNAN
      else if fraction =? 2 ^ 51 then IQNAN
      else NQNAN
  | _ => NORM
  end.

(** Modelled from the spec: [tMath::tPow] is not under src/; for the base ten
    and the whole exponents it is called with, the power by repeated
    multiplication (division for a negative exponent). *)
Fixpoint Times10 (n : nat) (x : float) : float :=
  match n with
  | O => x
  | S n' => Times10 n' (x * 10)%float
  end.
Definition tPow10 (e : Z) : float :=
  if e <? 0 then (1 / Times10 (Z.to_nat (- e)) 1)%float else Times10 (Z.to_nat e) 1%float.

(** [while (value >= 10.0) { value /= 10.0; exponent++; }] *)
Fixpoint DivideDown (fuel : nat) (value : float) (exponent : Z) : option (float * Z) :=
  match fuel with
  | O => None
  | S fuel' =>
      if fge value 10 then DivideDown fuel' (value / 10)%float (exponent + 1)
      else Some (value, exponent)
  end.

(** [while (value && !digit) { value *= 10.0; exponent--; digit = int(value); }] *)
Fixpoint MultiplyUp (fuel : nat) (value : float) (digit exponent : Z) : option Z :=
  match fuel with
  | O => None
  | S fuel' =>
      if fnonzero value && (digit =? 0)
      then (let value := (value * 10)%float in
            MultiplyUp fuel' value (double_to_int value) (exponent - 1))
      else Some exponent
  end.

Definition HandlerHelper_FloatComputeExponent (value : float) : option Z :=
  let exponent := 0 in
  let value := if PrimFloat.ltb value 0 then PrimFloat.opp value else value in
  if fge value 10 then option_map snd (DivideDown FloatFuel value exponent)
  else if PrimFloat.ltb value 1 then MultiplyUp FloatFuel value (double_to_int value) exponent
  else Some exponent.

(** [Some] text when the value is one of the special ones (the Linux
    spellings). *)
Definition HandlerHelper_HandleSpecialFloatTypes (convBuf : list Z) (value : double)
  : list Z * bool :=
  match tGetFloatType value with
  | PQNAN => (convBuf ++ cstr "nan", true)
  | NQNAN => (convBuf ++ cstr "-nan", true)
  | PSNAN => (convBuf ++ cstr "nan", true)
  | NSNAN => (convBuf ++ cstr "-nan", true)
  | IQNAN => (convBuf ++ cstr "-nan", true)
  | PINF => (convBuf ++ cstr "inf", true)
  | NINF => (convBuf ++ cstr "-inf", true)
  | NORM => (convBuf, false)
  end.

Inductive PrologHelperFloat := PHF_None | NeedsPlus | NeedsNeg | NeedsSpace | NoZeros.

(** [while (dec < value) dec *= 10.0;] *)
Fixpoint RaiseDec (fuel : nat) (dec value : float) : option float :=
  match fuel with
  | O => None
  | S fuel' => if PrimFloat.ltb dec value then RaiseDec fuel' (dec * 10)%float value else Some dec
  end.

(** [while (dec >= 1.0)]: the digits before the decimal point. *)
Fixpoint MantissaLoop (fuel : nat) (treatPrecisionAsSigDigits : bool)
  (dec value : float) (precision : Z) (hasMantissa : bool) (buf : list Z)
  : option (float * float * Z * bool * list Z) :=
  match fuel with
  | O => None
  | S fuel' =>
      if fge dec 1 then
        let digit := double_to_int (value / dec)%float in
        let value := (value - int_to_double digit * dec)%float in
        let buf := buf ++ [digit + ch "0"] in
        let precision :=
          if treatPrecisionAsSigDigits && (precision >? 0) then precision - 1 else precision in
        MantissaLoop fuel' treatPrecisionAsSigDigits (dec / 10)%float value precision true buf
      else Some (dec, value, precision, hasMantissa, buf)
  end.

(** [while (precision--)]: the digits after the decimal point. *)
Fixpoint FractionLoop (n : nat) (value dec : float) (buf : list Z) : float * float * list Z :=
  match n with
  | O => (value, dec, buf)
  | S n' =>
      let value := (value * 10)%float in
      let digit := double_to_int value in
      let value := (value - int_to_double digit)%float in
      let dec := (dec + int_to_double digit)%float in
      FractionLoop n' value dec (buf ++ [digit + ch "0"])
  end.

(** The rounding walk, on the buffer read from its last character back to its
    first: nines become zeros, the decimal point is stepped over, and the
    first other character is incremented.  The flag tells that this character
    is [buf[0]], the one reserved for the carry.  (The buffer opens with that
    reserved ['0'], so the walk never leaves it; the empty case stands for a
    walk past the front.) *)
Fixpoint RoundWalk (rbuf : list Z) : list Z * bool :=
  match rbuf with
  | [] => ([], false)
  | c :: rest =>
      if c =? ch "9" then (let '(rest', z) := RoundWalk rest in (ch "0" :: rest', z))
      else if c =? ch "." then (let '(rest', z) := RoundWalk rest in (c :: rest', z))
      else (c + 1 :: rest, match rest with [] => true | _ => false end)
  end.

Definition RoundUp (buf : list Z) : list Z * bool :=
  let '(rbuf, useIdxZeroForResult) := RoundWalk (rev buf) in (rev rbuf, useIdxZeroForResult).

(** The text that [HandlerHelper_FloatNormal] takes from [buf]: the digits are
    rounded up when ten times the remainder reaches five, and the result
    starts at [buf[0]] only when the carry reached it, else at [buf[1]]. *)
Definition FloatNormal_Result (buf : list Z) (value : float) : list Z :=
  let '(buf, useIdxZeroForResult) :=
    if fge (value * 10)%float 5 then RoundUp buf else (buf, false) in
  if useIdxZeroForResult then buf else tl buf.

Section WithDefaultPrecision.

(** [static int DefaultPrecision = 4], set by [tSetDefaultPrecision]. *)
Variable DefaultPrecision : Z.

(** [HandlerHelper_FloatNormal] up to the digits: the buffer, with its
    reserved first character, and what is left of the value. *)
Definition FloatNormal_Digits (spec : FormatSpec) (value : float)
  (treatPrecisionAsSigDigits : bool) : option (list Z * float) :=
  let buf := [ch "0"] in
  let precision := if Precision spec =? -1 then DefaultPrecision else Precision spec in
  let value := if PrimFloat.ltb value 0 then PrimFloat.opp value else value in
  match RaiseDec FloatFuel 1 value with
  | None => None
  | Some dec =>
      let dec := if fgt dec value then (dec / 10)%float else dec in
      match MantissaLoop FloatFuel treatPrecisionAsSigDigits dec value precision false buf with
      | None => None
      | Some (dec, value, precision, hasMantissa, buf) =>
          let buf := if negb hasMantissa then buf ++ [ch "0"] else buf in
          let buf := if precision >? 0 then buf ++ [ch "."] else buf in
          if precision <? 0 then None
          else
            let '(value, dec, buf) := FractionLoop (Z.to_nat precision) value dec buf in
            Some (buf, value)
      end
  end.

Definition HandlerHelper_FloatNormal (convBuf : list Z) (spec : FormatSpec) (value : float)
  (treatPrecisionAsSigDigits : bool) : option (list Z * PrologHelperFloat) :=
  let wasNeg := PrimFloat.ltb value 0 in
  let ret :=
    if wasNeg then NeedsNeg
    else if has (Flags spec) Flag_ForcePosOrNegSign then NeedsPlus
    else if has (Flags spec) Flag_SpaceForPosSign then NeedsSpace
    else PHF_None in
  match FloatNormal_Digits spec value treatPrecisionAsSigDigits with
  | None => None
  | Some (buf, value) =>
      let result := FloatNormal_Result buf value in
      let '(convBuf, ret) :=
        if negb (has (Flags spec) Flag_LeadingZeros) then
          match ret with
          | NeedsNeg => (convBuf ++ [ch "-"], PHF_None)
          | NeedsPlus => (convBuf ++ [ch "+"], PHF_None)
          | _ => (convBuf, ret)
          end
        else (convBuf, ret) in
      Some (convBuf ++ result, ret)
  end.

(** What [Handler_f] and the first branch of [Handler_g] do with the text. *)
Definition FloatEmit (receiver : Receiver) (spec : FormatSpec) (convFloat : list Z)
  (res : PrologHelperFloat) : option Receiver :=
  let effectiveLength := Z.of_nat (List.length convFloat) in
  let '(receiver, effectiveLength, modSpec) :=
    match res with
    | NeedsNeg => (Receive receiver (ch "-"), effectiveLength + 1, spec)
    | NeedsPlus => (Receive receiver (ch "+"), effectiveLength + 1, spec)
    | NeedsSpace => (Receive receiver (ch " "), effectiveLength + 1, spec)
    | NoZeros => (receiver, effectiveLength, set_Flags spec (clear (Flags spec) Flag_LeadingZeros))
    | PHF_None => (receiver, effectiveLength, spec)
    end in
  let receiver := HandlerHelper_JustificationProlog receiver effectiveLength modSpec in
  match Receive_buf receiver convFloat with
  | None => None
  | Some receiver => Some (HandlerHelper_JustificationEpilog receiver effectiveLength modSpec)
  end.

Definition Handler_f_double (receiver : Receiver) (spec : FormatSpec) (value : double)
  : option Receiver :=
  let '(convFloat, special) := HandlerHelper_HandleSpecialFloatTypes [] value in
  if special then FloatEmit receiver spec convFloat NoZeros
  else
    match HandlerHelper_FloatNormal convFloat spec (Value value) false with
    | None => None
    | Some (convFloat, res) => FloatEmit receiver spec convFloat res
    end.

Definition Handler_f (receiver : Receiver) (spec : FormatSpec) (data : Operand)
  : option Receiver :=
  match data with
  | ValD value => Handler_f_double receiver spec value
  | _ => None
  end.

(** *** The exponential form, shared by [Handler_e] and [Handler_g] *)

(** The value brought to one digit before the decimal point, and its
    exponent. *)
Definition ExpNormalize (v : float) : option (float * Z) :=
  match HandlerHelper_FloatComputeExponent v with
  | None => None
  | Some exponent =>
      let absExp := if exponent <? 0 then - exponent else exponent in
      let power10 := Times10 (Z.to_nat absExp) 1 in
      let val :=
        if negb (exponent =? 0)
        then (if exponent <? 0 then (v * power10)%float else (v / power10)%float)
        else v in
      DivideDown FloatFuel val exponent
  end.

(** [val += 0.5 / power10], with [power10] ten to the precision. *)
Definition ExpRoundBias (val : float) (precision : Z) : float :=
  (val + 0.5 / Times10 (Z.to_nat precision) 1)%float.

(** The digit loop of [Handler_e]. *)
Fixpoint ExpDigits_e (fuel : nat) (precision : Z) (val : float) (firstDigit : bool)
  (text : list Z) : option (list Z) :=
  match fuel with
  | O => None
  | S fuel' =>
      if precision =? 0 then Some text
      else
        let digit := double_to_int val in
        let val := ((val - int_to_double digit) * 10)%float in
        let text := text ++ [ch "0" + digit] in
        if firstDigit then ExpDigits_e fuel' precision val false (text ++ [ch "."])
        else ExpDigits_e fuel' (precision - 1) val false text
  end.

(** The digit loop of [Handler_g]: the last digit is bumped when the next one
    is five or more, unless it is a nine. *)
Fixpoint ExpDigits_g (fuel : nat) (precision : Z) (val : float) (firstDigit : bool)
  (text : list Z) : option (list Z) :=
  match fuel with
  | O => None
  | S fuel' =>
      if precision =? 0 then Some text
      else
        let digit := double_to_int val in
        let val := ((val - int_to_double digit) * 10)%float in
        let precision := precision - 1 in
        let digit :=
          if (precision =? 0) && (double_to_int val >=? 5) && (digit <? 9)
          then digit + 1 else digit in
        let text := text ++ [ch "0" + digit] in
        let text := if firstDigit then text ++ [ch "."] else text in
        ExpDigits_g fuel' precision val false text
  end.

(** [e], the sign of the exponent, and its last two digits, a third in front
    when it is not zero. *)
Definition ExpSuffix (exponent : Z) : list Z :=
  let sign := if exponent >=? 0 then ch "+" else ch "-" in
  let exponent := if exponent >=? 0 then exponent else - exponent in
  let e2 := Z.rem exponent 10 in
  let e1 := Z.rem (Z.quot exponent 10) 10 in
  let e0 := Z.rem (Z.quot (Z.quot exponent 10) 10) 10 in
  [ch "e"; sign] ++ (if negb (e0 =? 0) then [ch "0" + e0] else [])
                ++ [ch "0" + e1; ch "0" + e2].

(** [*curr = c]. *)
Definition Overwrite (c : Z) (curr : list Z) : list Z :=
  match curr with
  | [] => [c]
  | _ :: rest => c :: rest
  end.

(** The sign and the leading zeros, put in front of the text in [result]. *)
Definition ExpSignAndZeros (spec : FormatSpec) (negative : bool) (curr : list Z) : list Z :=
  let maxLeadingZeroes := 16 in
  if negb (has (Flags spec) Flag_LeadingZeros) then
    if negative then ch "-" :: curr
    else if has (Flags spec) Flag_ForcePosOrNegSign then ch "+" :: curr
    else if negb negative && has (Flags spec) Flag_SpaceForPosSign then ch " " :: curr
    else curr
  else
    let numZeroes := Width spec - Z.of_nat (List.length curr) in
    let numZeroes := if numZeroes >? maxLeadingZeroes then maxLeadingZeroes else numZeroes in
    let curr := ZeroPad numZeroes curr in
    if negative then Overwrite (ch "-") curr
    else if has (Flags spec) Flag_ForcePosOrNegSign then Overwrite (ch "+") curr
    else curr.

(** The exponential rendering; [None] when a loop does not end or the text
    outgrows the 48 characters that [result] has for it. *)
Definition ExpRender (digits : nat -> Z -> float -> bool -> list Z -> option (list Z))
  (receiver : Receiver) (spec : FormatSpec) (v : float) : option Receiver :=
  let negative := PrimFloat.ltb v 0 in
  let v := if negative then PrimFloat.opp v else v in
  match ExpNormalize v with
  | None => None
  | Some (val, exponent) =>
      let precision := if Precision spec =? -1 then DefaultPrecision else Precision spec in
      let val := ExpRoundBias val precision in
      match digits (Z.to_nat precision + 2)%nat precision val true [] with
      | None => None
      | Some text =>
          let text := text ++ ExpSuffix exponent in
          if Z.of_nat (List.length text) + 1 >? 48 then None
          else
            let curr := ExpSignAndZeros spec negative text in
            Receive_n receiver (Some curr) (Z.of_nat (List.length curr))
      end
  end.

Definition Handler_e (receiver : Receiver) (spec : FormatSpec) (data : Operand)
  : option Receiver :=
  match data with
  | ValD v =>
      let '(convBuf, special) := HandlerHelper_HandleSpecialFloatTypes [] v in
      if special then Receive_buf receiver convBuf
      else ExpRender ExpDigits_e receiver spec (Value v)
  | _ => None
  end.

(** The algorithm [Handler_g] takes: the test is [v < noExpFormatThreshold],
    with the threshold ten to the precision. *)
Inductive gAlgorithm := FixedPoint | Exponential.

Definition Handler_g_choice (spec : FormatSpec) (v : float) : gAlgorithm :=
  let precision := if Precision spec =? -1 then DefaultPrecision else Precision spec in
  let noExpFormatThreshold := tPow10 precision in
  if PrimFloat.ltb v noExpFormatThreshold then FixedPoint else Exponential.

Definition Handler_g (receiver : Receiver) (spec : FormatSpec) (data : Operand)
  : option Receiver :=
  match data with
  | ValD v =>
      match Handler_g_choice spec (Value v) with
      | FixedPoint =>
          let '(convBuf, special) := HandlerHelper_HandleSpecialFloatTypes [] v in
          if special then FloatEmit receiver spec convBuf NoZeros
          else
            match HandlerHelper_FloatNormal convBuf spec (Value v) true with
            | None => None
            | Some (convBuf, res) => FloatEmit receiver spec convBuf res
            end
      | Exponential =>
          let '(convBuf, special) := HandlerHelper_HandleSpecialFloatTypes [] v in
          if special then Receive_buf receiver convBuf
          else ExpRender ExpDigits_g receiver spec (Value v)
      end
  | _ => None
  end.

(** *** Vectors, quaternions, matrices *)

(** The loop of [HandlerHelper_Vector] from component [c] on. *)
Fixpoint VectorLoop (todo : nat) (c : nat) (numComponents : Z)
  (sep : Receiver -> option Receiver)
  (components : list double) (spec : FormatSpec) (receiver : Receiver) : option Receiver :=
  match todo with
  | O => Some receiver
  | S todo' =>
      match nth_error components c with
      | None => None
      | Some comp =>
          match Handler_f_double receiver spec comp with
          | None => None
          | Some receiver =>
              match (if Z.of_nat c <? numComponents - 1 then sep receiver
                     else Some receiver) with
              | None => None
              | Some receiver =>
                  VectorLoop todo' (S c) numComponents sep components spec receiver
              end
          end
      end
  end.

Definition SepSpace (receiver : Receiver) : option Receiver :=
  Some (Receive receiver (ch " ")).
Definition SepComma (receiver : Receiver) : option Receiver :=
  Receive_n receiver (Some (cstr ", ")) 2.

Definition HandlerHelper_Vector (receiver : Receiver) (spec : FormatSpec)
  (components : list double) (numComponents : Z) : option Receiver :=
  if has (Flags spec) Flag_DecorativeFormatting then
    VectorLoop (Z.to_nat numComponents) 0 numComponents SepSpace components spec receiver
  else
    match VectorLoop (Z.to_nat numComponents) 0 numComponents SepComma components spec
                     (Receive receiver (ch "(")) with
    | None => None
    | Some receiver => Some (Receive receiver (ch ")"))
    end.

Definition Handler_v (receiver : Receiver) (spec : FormatSpec) (data : Operand)
  : option Receiver :=
  let numComponents := Z.shiftr (TypeSizeBytes spec) 2 in
  if negb ((numComponents >=? 2) && (numComponents <=? 4)) then None
  else
    match data with
    | ValF components => HandlerHelper_Vector receiver spec components numComponents
    | _ => None
    end.

(** A step of the straight-line handlers: go on with [k] when the receive
    went through. *)
Definition andThen (o : option Receiver) (k : Receiver -> option Receiver) : option Receiver :=
  match o with
  | None => None
  | Some r => k r
  end.

Definition ReceiveLit (receiver : Receiver) (lit : list Z) : option Receiver :=
  Receive_n receiver (Some lit) (Z.of_nat (List.length lit)).

Definition Handler_f_at (components : list double) (i : nat) (spec : FormatSpec)
  (receiver : Receiver) : option Receiver :=
  match nth_error components i with
  | None => None
  | Some comp => Handler_f_double receiver spec comp
  end.

(** A [tQuat] lies in memory as x, y, z, w. *)
Definition Handler_q (receiver : Receiver) (spec : FormatSpec) (data : Operand)
  : option Receiver :=
  match data with
  | ValF quat =>
      if has (Flags spec) Flag_DecorativeFormatting then
        andThen (Handler_f_at quat 3 spec (Receive receiver (ch "("))) (fun r =>
        andThen (ReceiveLit r (cstr ", (")) (fun r =>
        andThen (Handler_f_at quat 0 spec r) (fun r =>
        andThen (ReceiveLit r (cstr ", ")) (fun r =>
        andThen (Handler_f_at quat 1 spec r) (fun r =>
        andThen (ReceiveLit r (cstr ", ")) (fun r =>
        andThen (Handler_f_at quat 2 spec r) (fun r =>
        ReceiveLit r (cstr "))"))))))))
      else
        andThen (VectorLoop 4 0 4 SepComma quat spec (Receive receiver (ch "("))) (fun r =>
        Some (Receive r (ch ")")))
  | _ => None
  end.

(** The components [i], [i + stride], ... of a matrix: a column with stride 1,
    a row with the stride of a column's height. *)
Fixpoint Pick (n : nat) (i stride : nat) (a : list double) : option (list double) :=
  match n with
  | O => Some []
  | S n' =>
      match nth_error a i, Pick n' (i + stride) stride a with
      | Some x, Some rest => Some (x :: rest)
      | _, _ => None
      end
  end.

Definition VectorAt (n : nat) (i stride : nat) (a : list double) (spec : FormatSpec)
  (receiver : Receiver) : option Receiver :=
  match Pick n i stride a with
  | None => None
  | Some v => HandlerHelper_Vector receiver spec v (Z.of_nat n)
  end.

(** A [tMat4] is its columns C1..C4, each x, y, z, w; a [tMat2] its columns
    C1, C2, each x, y. *)
Definition Handler_m (receiver : Receiver) (spec : FormatSpec) (data : Operand)
  : option Receiver :=
  let is4x4 := TypeSizeBytes spec =? 64 in
  let is2x2 := TypeSizeBytes spec =? 16 in
  if negb (is4x4 || is2x2) then None
  else
    let vecSpec := if Width spec =? 0 then set_Width spec 9 else spec in
    let vecSpec := if Precision spec =? -1 then set_Precision vecSpec 4 else vecSpec in
    match data with
    | ValF mat =>
        if is4x4 then
          if has (Flags spec) Flag_DecorativeFormatting then
            andThen (ReceiveLit receiver (cstr "[ ")) (fun r =>
            andThen (VectorAt 4 0 4 mat vecSpec r) (fun r =>
            andThen (ReceiveLit (Receive r 10) (cstr "  ")) (fun r =>
            andThen (VectorAt 4 1 4 mat vecSpec r) (fun r =>
            andThen (ReceiveLit (Receive r 10) (cstr "  ")) (fun r =>
            andThen (VectorAt 4 2 4 mat vecSpec r) (fun r =>
            andThen (ReceiveLit (Receive r 10) (cstr "  ")) (fun r =>
            andThen (VectorAt 4 3 4 mat vecSpec r) (fun r =>
            ReceiveLit r (cstr " ]" ++ [10])))))))))
          else
            andThen (VectorAt 4 0 1 mat spec (Receive receiver (ch "("))) (fun r =>
            andThen (ReceiveLit r (cstr ", ")) (fun r =>
            andThen (VectorAt 4 4 1 mat spec r) (fun r =>
            andThen (ReceiveLit r (cstr ", ")) (fun r =>
            andThen (VectorAt 4 8 1 mat spec r) (fun r =>
            andThen (ReceiveLit r (cstr ", ")) (fun r =>
            andThen (VectorAt 4 12 1 mat spec r) (fun r =>
            Some (Receive r (ch ")")))))))))
        else
          if has (Flags spec) Flag_DecorativeFormatting then
            andThen (ReceiveLit receiver (cstr "[ ")) (fun r =>
            andThen (VectorAt 2 0 2 mat vecSpec r) (fun r =>
            andThen (ReceiveLit (Receive r 10) (cstr "  ")) (fun r =>
            andThen (VectorAt 2 1 2 mat vecSpec r) (fun r =>
            ReceiveLit r (cstr " ]" ++ [10])))))
          else
            andThen (VectorAt 2 0 1 mat spec (Receive receiver (ch "("))) (fun r =>
            andThen (ReceiveLit r (cstr ", ")) (fun r =>
            andThen (VectorAt 2 2 1 mat spec r) (fun r =>
            Some (Receive r (ch ")")))))
    | _ => None
    end.

(** *** Characters, strings, booleans *)

Definition Handler_c (receiver : Receiver) (spec : FormatSpec) (data : Operand)
  : option Receiver :=
  match operand_bits data with
  | None => None
  | Some bits =>
      let chr := bits mod 256 in
      let receiver := HandlerHelper_JustificationProlog receiver 1 spec in
      let receiver := Receive receiver chr in
      Some (HandlerHelper_JustificationEpilog receiver 1 spec)
  end.

Definition Handler_s (receiver : Receiver) (spec : FormatSpec) (data : Operand)
  : option Receiver :=
  match data with
  | ValPtr _ str =>
      let numToAppend := tStrlen str in
      let numToAppend :=
        if negb (Precision spec =? -1) && (numToAppend >? Precision spec)
        then Precision spec else numToAppend in
      let receiver := HandlerHelper_JustificationProlog receiver numToAppend spec in
      match Receive_n receiver (Some str) numToAppend with
      | None => None
      | Some receiver => Some (HandlerHelper_JustificationEpilog receiver numToAppend spec)
      end
  | _ => None
  end.

Definition Handler_B (receiver : Receiver) (spec : FormatSpec) (data : Operand)
  : option Receiver :=
  match operand_bits data with
  | None => None
  | Some bits =>
      let boolean := negb (bits mod 256 =? 0) in
      let '(bstr, numToAppend) :=
        if has (Flags spec) Flag_DecorativeFormatting
        then ((if boolean then cstr "T" else cstr "F"), 1)
        else if has (Flags spec) Flag_DecorativeFormattingAlt
        then ((if boolean then cstr "Y" else cstr "N"), 1)
        else ((if boolean then cstr "true" else cstr "false"), (if boolean then 4 else 5)) in
      let receiver := HandlerHelper_JustificationProlog receiver numToAppend spec in
      match Receive_n receiver (Some bstr) numToAppend with
      | None => None
      | Some receiver => Some (HandlerHelper_JustificationEpilog receiver numToAppend spec)
      end
  end.

(** ** The handler table *)

Inductive BaseType := BT_None | BT_Int | BT_Flt | BT_Dbl.

Definition HandlerFn : Type := Receiver -> FormatSpec -> Operand -> option Receiver.

Record HandlerInfo := mkHandlerInfo {
  SpecChar : Z;
  TypeBase : BaseType;
  DefaultByteSize : Z;
  Handler : HandlerFn
}.

(** The size of a pointer, on the 64-bit targets. *)
Definition PointerSize : Z := 8.

Definition HandlerInfos : list HandlerInfo :=
  [ mkHandlerInfo (ch "b") BT_Int 4 Handler_b;
    mkHandlerInfo (ch "o") BT_Int 4 Handler_o;
    mkHandlerInfo (ch "d") BT_Int 4 Handler_d;
    mkHandlerInfo (ch "i") BT_Int 4 Handler_i;
    mkHandlerInfo (ch "u") BT_Int 4 Handler_u;
    mkHandlerInfo (ch "x") BT_Int 4 Handler_x;
    mkHandlerInfo (ch "X") BT_Int 4 Handler_X;
    mkHandlerInfo (ch "p") BT_Int PointerSize Handler_p;
    mkHandlerInfo (ch "e") BT_Dbl 8 Handler_e;
    mkHandlerInfo (ch "f") BT_Dbl 8 Handler_f;
    mkHandlerInfo (ch "g") BT_Dbl 8 Handler_g;
    mkHandlerInfo (ch "v") BT_Flt 12 Handler_v;
    mkHandlerInfo (ch "q") BT_Flt 16 Handler_q;
    mkHandlerInfo (ch "m") BT_Flt 64 Handler_m;
    mkHandlerInfo (ch "c") BT_Int 4 Handler_c;
    mkHandlerInfo (ch "s") BT_Int PointerSize Handler_s;
    mkHandlerInfo (ch "B") BT_Int 4 Handler_B ].

Definition NumHandlers : Z := Z.of_nat (List.length HandlerInfos).

Definition HandlerJumpTable : list Z :=
  [ -1; -1; -1; -1; -1; -1; -1; -1; -1; -1; -1; -1; -1; -1; -1; -1;
    -1; -1; -1; -1; -1; -1; -1; -1; -1; -1; -1; -1; -1; -1; -1; -1;
    -1; -1; -1; -1; -1; -1; -1; -1; -1; -1; -1; -1; -1; -1; -1; -1;
    -1; -1; -1; -1; -1; -1; -1; -1; -1; -1; -1; -1; -1; -1; -1; -1;
    -1; -1; 16; -1; -1; -1; -1; -1; -1; -1; -1; -1; -1; -1; -1; -1;
    -1; -1; -1; -1; -1; -1; -1; -1;  6; -1; -1; -1; -1; -1; -1; -1;
    -1; -1;  0; 14;  2;  8;  9; 10; -1;  3; -1; -1; -1; 13; -1;  1;
     7; 12; -1; 15; -1;  4; 11; -1;  5; -1; -1; -1; -1; -1; -1; -1;
    -1; -1; -1; -1; -1; -1; -1; -1; -1; -1; -1; -1; -1; -1; -1; -1;
    -1; -1; -1; -1; -1; -1; -1; -1; -1; -1; -1; -1; -1; -1; -1; -1;
    -1; -1; -1; -1; -1; -1; -1; -1; -1; -1; -1; -1; -1; -1; -1; -1;
    -1; -1; -1; -1; -1; -1; -1; -1; -1; -1; -1; -1; -1; -1; -1; -1;
    -1; -1; -1; -1; -1; -1; -1; -1; -1; -1; -1; -1; -1; -1; -1; -1;
    -1; -1; -1; -1; -1; -1; -1; -1; -1; -1; -1; -1; -1; -1; -1; -1;
    -1; -1; -1; -1; -1; -1; -1; -1; -1; -1; -1; -1; -1; -1; -1; -1;
    -1; -1; -1; -1; -1; -1; -1; -1; -1; -1; -1; -1; -1; -1; -1; -1 ].

(** The full search of [FindHandler]. *)
Fixpoint SearchHandler (type : Z) (hs : list HandlerInfo) : option HandlerInfo :=
  match hs with
  | [] => None
  | h :: hs' => if SpecChar h =? type then Some h else SearchHandler type hs'
  end.

Definition FindHandler (type : Z) : option HandlerInfo :=
  if type =? 0 then None
  else
    let index := nth (Z.to_nat type) HandlerJumpTable (-1) in
    let fast :=
      if (index <? NumHandlers) && (index >=? 0)
      then match nth_error HandlerInfos (Z.to_nat index) with
           | Some h => if SpecChar h =? type then Some h else None
           | None => None
           end
      else None in
    match fast with
    | Some h => Some h
    | None => SearchHandler type HandlerInfos
    end.

Definition IsFlagCharacter (c : Z) : bool :=
  (c =? ch "-") || (c =? ch "+") || (c =? ch " ") || (c =? ch "0")
  || (c =? ch "#") || (c =? ch "_") || (c =? ch "'").

Definition IsValidFormatSpecifierCharacter (c : Z) : bool :=
  if IsFlagCharacter c then true
  else if tIsdigit c || (c =? ch ".") || (c =? ch "*") then true
  else if (c =? ch ":") || (c =? ch "!") || (c =? ch "|") then true
  else if isSome (FindHandler c) then true
  else false.

(** ** The argument list *)

(** What the caller passed, in order: an integer of [size] bytes, a pointer to
    a C string, a structure of [float]s, a [double]. *)
Inductive Arg :=
| ArgI (size : Z) (bits : Z)
| ArgPtr (addr : Z) (pointee : list Z)
| ArgF (a : list double)
| ArgD (a : double).

(** [va_arg(argList, int)]; [None] when the next argument is not an [int]. *)
Definition va_arg_int (argList : list Arg) : option (Z * list Arg) :=
  match argList with
  | ArgI 4 bits :: rest => Some (int32 (bits mod 2 ^ 32), rest)
  | _ => None
  end.

(** The [switch] on [spec.TypeSizeBytes] and the base type: which holder is
    read from the argument list.  The outer [None] is a [va_arg] that does not
    find an argument of the holder's shape; the inner one is [pval] left at
    [nullptr]. *)
Definition va_arg_val (TypeSizeBytes : Z) (bt : BaseType) (argList : list Arg)
  : option (option Operand * list Arg) :=
  let sized :=
    (TypeSizeBytes =? 4) || (TypeSizeBytes =? 8) || (TypeSizeBytes =? 12)
    || (TypeSizeBytes =? 16) || (TypeSizeBytes =? 32) || (TypeSizeBytes =? 64) in
  if negb sized then Some (None, argList)
  else
    match bt with
    | BT_Int =>
        match argList with
        | ArgI size bits :: rest =>
            if size =? TypeSizeBytes then Some (Some (ValI (bits mod 2 ^ (8 * size))), rest)
            else None
        | ArgPtr addr s :: rest =>
            if TypeSizeBytes =? PointerSize then Some (Some (ValPtr addr s), rest) else None
        | _ => None
        end
    | BT_Flt =>
        match argList with
        | ArgF a :: rest =>
            if 4 * Z.of_nat (List.length a) =? TypeSizeBytes then Some (Some (ValF a), rest)
            else None
        | _ => None
        end
    | BT_Dbl =>
        if TypeSizeBytes =? 8 then
          match argList with
          | ArgD a :: rest => Some (Some (ValD a), rest)
          | _ => None
          end
        else Some (None, argList)
    | BT_None => Some (None, argList)
    end.

(** ** The scanner *)

Definition FlagOfCharacter (c : Z) : option Z :=
  if c =? ch "-" then Some Flag_LeftJustify
  else if c =? ch "+" then Some Flag_ForcePosOrNegSign
  else if c =? ch " " then Some Flag_SpaceForPosSign
  else if c =? ch "0" then Some Flag_LeadingZeros
  else if c =? ch "_" then Some Flag_DecorativeFormatting
  else if c =? ch "'" then Some Flag_DecorativeFormattingAlt
  else if c =? ch "#" then Some Flag_BasePrefix
  else None.

(** The flags loop.  Here and below [None] is a read of [format[0]] where the
    storage of the format has ended. *)
Fixpoint ParseFlags (format : list Z) (flags : Z) : option (list Z * Z) :=
  match format with
  | [] => None
  | c :: rest =>
      match FlagOfCharacter c with
      | Some F => ParseFlags rest (Z.lor flags F)
      | None => Some (format, flags)
      end
  end.

(** [while (tIsdigit(format[0])) { n = n * 10 + (format[0] - '0'); format++; }] *)
Fixpoint ParseNumber (format : list Z) (n : Z) : option (list Z * Z) :=
  match format with
  | [] => None
  | c :: rest =>
      if tIsdigit c then ParseNumber rest (int32 (n * 10 + (c - ch "0")))
      else Some (format, n)
  end.

Definition ParseWidth (format : list Z) (argList : list Arg) (spec : FormatSpec)
  : option (option (list Z * list Arg * FormatSpec)) :=
  match format with
  | [] => None
  | c :: rest =>
      if negb (c =? ch "*") then
        match ParseNumber format (Width spec) with
        | None => None
        | Some (format, w) => Some (Some (format, argList, set_Width spec w))
        end
      else
        match va_arg_int argList with
        | None => Some None
        | Some (w, argList) => Some (Some (rest, argList, set_Width spec w))
        end
  end.

Definition ParsePrecision (format : list Z) (argList : list Arg) (spec : FormatSpec)
  : option (option (list Z * list Arg * FormatSpec)) :=
  match format with
  | [] => None
  | c :: rest =>
      if c =? ch "." then
        let spec := set_Precision spec 0 in
        match rest with
        | [] => None
        | c' :: rest' =>
            if negb (c' =? ch "*") then
              match ParseNumber rest (Precision spec) with
              | None => None
              | Some (format, p) => Some (Some (format, argList, set_Precision spec p))
              end
            else
              match va_arg_int argList with
              | None => Some None
              | Some (p, argList) => Some (Some (rest', argList, set_Precision spec p))
              end
        end
      else Some (Some (format, argList, spec))
  end.

(** The optional type size: [:N] counts 32-bit words, [!N] bytes, [|N]
    bits. *)
Definition ParseTypeSize (format : list Z) (spec : FormatSpec) : option (list Z * FormatSpec) :=
  match format with
  | [] => None
  | typeUnit :: rest =>
      if (typeUnit =? ch ":") || (typeUnit =? ch "!") || (typeUnit =? ch "|") then
        match ParseNumber rest 0 with
        | None => None
        | Some (format, n) =>
            let n :=
              if typeUnit =? ch ":" then int32 (n * 4)
              else if typeUnit =? ch "|" then Z.quot n 8
              else n in
            Some (format, set_TypeSizeBytes spec n)
        end
      else Some (format, spec)
  end.

(** [if (!spec.TypeSizeBytes) spec.TypeSizeBytes = handler->DefaultByteSize;] *)
Definition DefaultTypeSize (handler : HandlerInfo) (spec : FormatSpec) : FormatSpec :=
  if TypeSizeBytes spec =? 0 then set_TypeSizeBytes spec (DefaultByteSize handler) else spec.

(** Why [Process] does not come back as a call of it should.  The last case
    is a call of a handler that gives no result: the handler leaves its
    contract (a [tAssert] of its own fails, a negative count reaches
    [tMemcpy], a text outgrows its array), or one of its loops over a
    [double] does not end, so that neither the handler nor [Process] comes
    back at all. *)
Inductive Failure :=
| BadRead          (* the format is read where its storage has ended *)
| AssertFailed     (* a tAssert fails: no handler, or no holder for the size *)
| BadArgument      (* va_arg finds no argument of the shape it reads *)
| NoResult.        (* the call of the handler gives no result *)

(** What a scan is followed to: the terminator, where [Process] returns; a
    point from which it is followed no further; or the end of the turns
    allowed to the [while]. *)
Inductive Outcome :=
| Done (receiver : Receiver)
| Stopped (why : Failure)
| OutOfFuel.

(** The text of a directive, from the character after the percent sign up to
    the type size: flags, width and precision. *)
Definition ParseSpecHead (format : list Z) (argList : list Arg)
  : Failure + (list Z * list Arg * FormatSpec) :=
  let spec := FormatSpec_default in
  match ParseFlags format (Flags spec) with
  | None => inl BadRead
  | Some (format, flags) =>
      let flags :=
        if has flags Flag_LeadingZeros && has flags Flag_LeftJustify
        then clear flags Flag_LeadingZeros else flags in
      let spec := set_Flags spec flags in
      match ParseWidth format argList spec with
      | None => inl BadRead
      | Some None => inl BadArgument
      | Some (Some (format, argList, spec)) =>
          match ParsePrecision format argList spec with
          | None => inl BadRead
          | Some None => inl BadArgument
          | Some (Some (format, argList, spec)) => inr (format, argList, spec)
          end
      end
  end.

(** The whole specification, up to the type character: what is parsed, and the
    format and the argument list that are left. *)
Definition ParseSpec (format : list Z) (argList : list Arg)
  : Failure + (list Z * list Arg * FormatSpec) :=
  match ParseSpecHead format argList with
  | inl why => inl why
  | inr (format, argList, spec) =>
      match ParseTypeSize format spec with
      | None => inl BadRead
      | Some (format, spec) => inr (format, argList, spec)
      end
  end.

(** One directive: parse, find the handler, read the operand, call the
    handler, step over the type character. *)
Definition ProcessDirective (receiver : Receiver) (format : list Z) (argList : list Arg)
  : Failure + (Receiver * list Z * list Arg) :=
  match ParseSpec format argList with
  | inl why => inl why
  | inr (format, argList, spec) =>
      match format with
      | [] => inl BadRead
      | type :: rest =>
          match FindHandler type with
          | None => inl AssertFailed
          | Some handler =>
              let spec := DefaultTypeSize handler spec in
              match va_arg_val (TypeSizeBytes spec) (TypeBase handler) argList with
              | None => inl BadArgument
              | Some (None, _) => inl AssertFailed
              | Some (Some pval, argList) =>
                  match Handler handler receiver spec pval with
                  | None => inl NoResult
                  | Some receiver => inr (receiver, rest, argList)
                  end
              end
          end
      end
  end.

(** [Process]: every turn of the [while] takes one unit of fuel. *)
Fixpoint Process (fuel : nat) (receiver : Receiver) (format : list Z) (argList : list Arg)
  : Outcome :=
  match fuel with
  | O => OutOfFuel
  | S fuel' =>
      match format with
      | [] => Stopped BadRead
      | c0 :: rest =>
          if c0 =? 0 then Done (Receive receiver 0)
          else if negb (c0 =? ch "%") then Process fuel' (Receive receiver c0) rest argList
          else
            match rest with
            | [] => Stopped BadRead
            | c1 :: rest' =>
                if negb (IsValidFormatSpecifierCharacter c1)
                then Process fuel' (Receive receiver c1) rest' argList
                else
                  match ProcessDirective receiver rest argList with
                  | inl why => Stopped why
                  | inr (receiver, format, argList) => Process fuel' receiver format argList
                  end
            end
      end
  end.

(** Every turn moves the format forward, so its length bounds the turns of
    the [while]; how long a turn takes is the handler's affair. *)
Definition RunProcess (receiver : Receiver) (format : list Z) (argList : list Arg) : Outcome :=
  Process (S (List.length format)) receiver format argList.

End WithDefaultPrecision.

End tSystem.

Import tSystem.

(** ** The entry points *)

Section Printf.

Variable DefaultPrecision : Z.

(** [dest[i] = c], inside the characters stored so far. *)
Fixpoint StoreAt (stored : list Z) (i : nat) (c : Z) : list Z :=
  match stored, i with
  | [], _ => []
  | _ :: rest, O => c :: rest
  | x :: rest, S i' => x :: StoreAt rest i' c
  end.

(** [tvcPrintf]: the count alone.  A missing [format] is [None]; so is the
    result when [Process] does not come to its end. *)
Definition tvcPrintf (format : option (list Z)) (argList : list Arg) : option Z :=
  match format with
  | None => Some 0
  | Some format =>
      match RunProcess DefaultPrecision Receiver_count format argList with
      | Done receiver => Some (GetNumReceived receiver - 1)
      | _ => None
      end
  end.

(** [tvPrintf]: the count and the text handed to [tPrint]. *)
Definition tvPrintf (format : option (list Z)) (argList : list Arg) : option (Z * list Z) :=
  match format with
  | None => Some (0, [])
  | Some format =>
      match RunProcess DefaultPrecision Receiver_buffer format argList with
      | Done receiver =>
          match Buffer receiver with
          | Some buffer => Some (GetNumReceived receiver - 1, buffer)
          | None => None
          end
      | _ => None
      end
  end.

(** [tvsPrintf(char* dest, const char* format, va_list)]: the count and the
    characters stored from [dest] on; [dest] is [false] for [nullptr]. *)
Definition tvsPrintf (dest : bool) (format : option (list Z)) (argList : list Arg)
  : option (Z * list Z) :=
  match dest, format with
  | true, Some format =>
      match RunProcess DefaultPrecision Receiver_string format argList with
      | Done receiver =>
          match String receiver with
          | Some stored => Some (GetNumReceived receiver - 1, stored)
          | None => None
          end
      | _ => None
      end
  | _, _ => Some (0, [])
  end.

(** [tvsPrintf(char* dest, int destSize, const char* format, va_list)]. *)
Definition tvsPrintf_n (dest : bool) (destSize : Z) (format : option (list Z))
  (argList : list Arg) : option (Z * list Z) :=
  match dest, format with
  | true, Some format =>
      if destSize <=? 0 then Some (0, [])
      else if destSize =? 1 then Some (0, [0])
      else
        match RunProcess DefaultPrecision (Receiver_string_limit destSize) format argList with
        | Done receiver =>
            match String receiver with
            | Some stored =>
                let rec := GetNumReceived receiver in
                let len := rec - 1 in
                let stored :=
                  if destSize =? rec then StoreAt stored (Z.to_nat len) 0 else stored in
                Some (len, stored)
            | None => None
            end
        | _ => None
        end
  | _, _ => Some (0, [])
  end.

End Printf.

(** ** Vocabulary of the statements *)

(** A call of one of the four [Receive] overloads. *)
Inductive ReceiveCall :=
| CallChar (c : Z)
| CallStr (str : option (list Z))
| CallRun (str : option (list Z)) (numChars : Z)
| CallBuf (buf : list Z).

Definition DoCall (r : Receiver) (call : ReceiveCall) : option Receiver :=
  match call with
  | CallChar c => Some (Receive r c)
  | CallStr str => Receive_str r str
  | CallRun str numChars => Receive_n r str numChars
  | CallBuf buf => Receive_buf r buf
  end.

Fixpoint DoCalls (r : Receiver) (calls : list ReceiveCall) : option Receiver :=
  match calls with
  | [] => Some r
  | call :: calls' =>
      match DoCall r call with
      | None => None
      | Some r' => DoCalls r' calls'
      end
  end.

(** A call whose count, where it has one, is not negative. *)
Definition CountNotNegative (call : ReceiveCall) : Prop :=
  match call with
  | CallRun _ numChars => 0 <= numChars
  | _ => True
  end.

(** The number of characters stored through [String]. *)
Definition StoredCount (r : Receiver) : Z :=
  match String r with
  | Some stored => Z.of_nat (List.length stored)
  | None => 0
  end.

(** What a sink with no limit becomes when [text] is delivered to it. *)
Definition Emit (r : Receiver) (text : list Z) : Receiver :=
  mkReceiver (Append text (Buffer r)) (ReceiveLimit r) (Append text (String r))
             (NumReceived r + Z.of_nat (List.length text)).

(** The padding of the justification helpers around an item of [itemLength]
    characters. *)
Definition PadLeft (spec : FormatSpec) (itemLength : Z) : list Z :=
  if has (Flags spec) Flag_LeftJustify then []
  else repeat (if has (Flags spec) Flag_LeadingZeros then ch "0" else ch " ")
              (Z.to_nat (int32 (Width spec - itemLength))).

Definition PadRight (spec : FormatSpec) (itemLength : Z) : list Z :=
  if has (Flags spec) Flag_LeftJustify
  then repeat (ch " ") (Z.to_nat (int32 (Width spec - itemLength))) else [].

(** The number that a run of decimal digits spells. *)
Definition DecimalValue (ds : list Z) : Z :=
  fold_left (fun n c => n * 10 + (c - ch "0")) ds 0.



(** The type characters of the handler table. *)
Definition TypeCharacters : list Z := cstr "bodiuxXpefgvqmcsB".

(** The grouping in the words of the specification: a separator every
    [every] digits counted from the right, that is, after each digit that has
    a positive multiple of [every] digits to its right; none before the first
    digit, none after the last. *)
Fixpoint Spec_GroupFromRight (every sep : Z) (digits : list Z) : list Z :=
  match digits with
  | [] => []
  | d :: rest =>
      let toTheRight := Z.of_nat (List.length rest) in
      d :: (if (toTheRight mod every =? 0) && (0 <? toTheRight) then [sep] else [])
        ++ Spec_GroupFromRight every sep rest
  end.

(** The characters that the rounding walk passes over, and what it leaves
    of them. *)
Definition NineOrDot (c : Z) : Prop := c = ch "9" \/ c = ch ".".
Definition ZeroNines (text : list Z) : list Z :=
  map (fun c => if c =? ch "9" then ch "0" else c) text.

(** A counted run handed to the sink: the characters behind the pointer and
    the count.  What a handler does to its sink is a list of such runs; one
    character is the run of count 1. *)
Definition Run : Type := (list Z * Z)%type.

Definition DoRun (r : Receiver) (run : Run) : option Receiver :=
  Receive_n r (Some (fst run)) (snd run).

Fixpoint DoRuns (r : Receiver) (runs : list Run) : option Receiver :=
  match runs with
  | [] => Some r
  | run :: runs' =>
      match DoRun r run with
      | None => None
      | Some r' => DoRuns r' runs'
      end
  end.

(** The count stays inside the characters behind the pointer. *)
Definition RunFits (run : Run) : Prop := snd run <= Z.of_nat (List.length (fst run)).
Definition RunText (run : Run) : list Z := firstn (Z.to_nat (snd run)) (fst run).
Definition RunsText (runs : list Run) : list Z := flat_map RunText runs.

(** A use of the sink that does not look into it: it fails whatever the sink,
    or it hands over the same runs whatever the sink. *)
Definition Traced (f : Receiver -> option Receiver) : Prop :=
  (forall r, f r = None)
  \/ (exists runs, Forall RunFits runs /\ forall r, f r = DoRuns r runs).

Definition TracedTotal (g : Receiver -> Receiver) : Prop :=
  exists runs, Forall RunFits runs /\ forall r, DoRuns r runs = Some (g r).

Definition DoneOrFailed (o : option Receiver) : Outcome :=
  match o with
  | Some r => Done r
  | None => Stopped NoResult
  end.

Definition NotDone (o : Outcome) : Prop :=
  match o with
  | Done _ => False
  | _ => True
  end.

Definition TracedProcess (P : Receiver -> Outcome) : Prop :=
  (forall r, NotDone (P r))
  \/ (exists runs, Forall RunFits runs /\ forall r, P r = DoneOrFailed (DoRuns r runs)).

(** A format of ten literal characters, with its terminator. *)
Definition TenDigits : list Z := cstr "0123456789" ++ [0].

(** The invariant of a sink bound to a string with limit [L]. *)
Definition BoundTo (L : Z) (r : Receiver) : Prop :=
  ReceiveLimit r = L /\ isSome (String r) = true /\ StoredCount r <= NumReceived r <= L.

(** The count that [Handler_s] passes on: the length of the string, cut to the
    precision when one is given. *)
Definition StringCount (spec : FormatSpec) (str : list Z) : Z :=
  if Precision spec =? -1 then tStrlen str else Z.min (tStrlen str) (Precision spec).

(** One digit more at the end of a decimal number. *)
Definition DigitStep (n c : Z) : Z := n * 10 + (c - ch "0").

(** A digit text: decimal digits and decimal points.  Its value is the number
    that its digits spell, the decimal point left out (read here from the last
    character back); its mask tells where the decimal points stand. *)
Definition DigitOrDot (c : Z) : Prop := ch "0" <= c <= ch "9" \/ c = ch ".".

Fixpoint TextValueRev (rtext : list Z) : Z :=
  match rtext with
  | [] => 0
  | c :: rest =>
      if c =? ch "." then TextValueRev rest else (c - ch "0") + 10 * TextValueRev rest
  end.

Definition TextValue (text : list Z) : Z := TextValueRev (rev text).

Definition DotMask (text : list Z) : list bool := map (fun c => c =? ch ".") text.

(** A string with a limit: the condition that opens the bound branch of every
    [Receive] overload. *)
Definition Bound (r : Receiver) : bool :=
  isSome (String r) && negb (ReceiveLimit r =? -1).

(** What a sink becomes when [text] is delivered to it, in whatever calls: a
    sink that is not bound takes all of it; a bound one that is full takes
    nothing and counts nothing; a bound one with room left takes the
    characters that fit the room and counts as many. *)
Definition Deliver (r : Receiver) (text : list Z) : Receiver :=
  if Bound r then
    if NumReceived r >=? ReceiveLimit r then r
    else Emit r (firstn (Z.to_nat (ReceiveLimit r - NumReceived r)) text)
  else Emit r text.

(** A character of literal text in a format: neither the terminator nor the
    percent sign. *)
Definition Literal (c : Z) : Prop := c <> 0 /\ c <> ch "%".

(** A short format with one directive, and its arguments. *)
Definition CountFormat : list Z := cstr "n=%d" ++ [0].
Definition CountArgs : list Arg := [ArgI 4 42].

(** The position of a type character in the handler table, counted from [i]
    for the first entry; [-1] when the table has no entry for it. *)
Fixpoint TableIndex (type : Z) (hs : list HandlerInfo) (i : Z) : Z :=
  match hs with
  | [] => -1
  | h :: hs' => if SpecChar h =? type then i else TableIndex type hs' (i + 1)
  end.

(** The flags that a run of flag characters sets, one after the other. *)
Definition FlagsRead (fs : list Z) (flags : Z) : Z :=
  fold_left (fun f x => match FlagOfCharacter x with
                        | Some F => Z.lor f F
                        | None => f
                        end) fs flags.

(** An item between the paddings of the two justification helpers. *)
Definition Field (spec : FormatSpec) (text : list Z) : list Z :=
  let n := Z.of_nat (List.length text) in
  PadLeft spec n ++ text ++ PadRight spec n.

(** The words of the [B] directive. *)
Definition BoolWords : list (list Z) :=
  [cstr "true"; cstr "false"; cstr "T"; cstr "F"; cstr "Y"; cstr "N"].

(** The character that the digit loop writes for a digit [d]: a decimal
    digit below ten, a letter from ten on. *)
Definition DigitChar (upperCase : bool) (d : Z) : Z :=
  if d <? 10 then ch "0" + d
  else (if upperCase then ch "A" else ch "a") + (d - 10).

(** The number that digits spell in a base, the most significant first. *)
Definition BaseValue (base : Z) (ds : list Z) : Z :=
  fold_left (fun n d => n * base + d) ds 0.

(** A text of digits of a base, in one letter case, that spells [value]. *)
Definition Spells (upperCase : bool) (base : Z) (text : list Z) (value : Z) : Prop :=
  exists ds, text = map (DigitChar upperCase) ds
             /\ Forall (fun d => 0 <= d < base) ds
             /\ BaseValue base ds = value.

(** The integer that [bitSize] bits hold in two's complement. *)
Definition SignedOf (bitSize raw : Z) : Z :=
  if raw <? 2 ^ (bitSize - 1) then raw else raw - 2 ^ bitSize.

(** Neither of the two decorative flags. *)
Definition Undecorated (spec : FormatSpec) : Prop :=
  has (Flags spec) Flag_DecorativeFormatting = false
  /\ has (Flags spec) Flag_DecorativeFormattingAlt = false.

(** The formats that [tFtostr] and [tDtostr] use for the bit representation,
    and the format of one decimal integer. *)
Definition BitRep32Format : list Z := cstr "#%08X" ++ [0].
Definition BitRep64Format : list Z := cstr "#%016|64X" ++ [0].
Definition DecimalFormat : list Z := cstr "%d" ++ [0].

(** The two separators of the decorative flags, and a text without them. *)
Definition IsSeparator (c : Z) : bool := (c =? ch "_") || (c =? ch ",").
Definition StripSeparators (text : list Z) : list Z :=
  filter (fun c => negb (IsSeparator c)) text.

(** The digit text as the decorative flags of [flags] leave it, in the native
    integer helper. *)
Definition Decorated (flags : Z) (digits : list Z) : list Z :=
  if has flags Flag_DecorativeFormatting then Spec_GroupFromRight 4 (ch "_") digits
  else if has flags Flag_DecorativeFormattingAlt then Spec_GroupFromRight 3 (ch ",") digits
  else digits.

(** The words of the special floating point values. *)
Definition SpecialWords : list (list Z) :=
  [cstr "nan"; cstr "-nan"; cstr "inf"; cstr "-inf"].

(** The word of an operand by its value and its sign: an infinity is inf or
    -inf, a NaN is nan with the sign bit clear and -nan with the sign bit
    set, and any other operand has none. *)
Definition SpecialWord (v : double) : option (list Z) :=
  match PrimFloat.classify (Value v) with
  | FloatClass.PInf => Some (cstr "inf")
  | FloatClass.NInf => Some (cstr "-inf")
  | FloatClass.NaN => Some (if NanSign v then cstr "-nan" else cstr "nan")
  | _ => None
  end.

(** The NaN that the division of zero by zero gives: quiet, the sign bit set,
    no other bit of the fraction. *)
Definition IndeterminateNaN : double := mkDouble nan true (2 ^ 51).

(** The [f] directive renders [comp] as [text]: what it hands to a growing
    buffer. *)
Definition RendersAs (dp : Z) (spec : FormatSpec) (comp : double) (text : list Z) : Prop :=
  Handler_f dp Receiver_buffer spec (ValD comp) = Some (Emit Receiver_buffer text).

(** Texts with a separator between each two of them. *)
Fixpoint Join (sep : list Z) (texts : list (list Z)) : list Z :=
  match texts with
  | [] => []
  | t :: ts =>
      match ts with
      | [] => t
      | _ :: _ => t ++ sep ++ Join sep ts
      end
  end.

(** [tPrint(const char* text, tFileHandle)], where no character is skipped
    (the branch that is not for Windows) and with or without a redirect
    callback: the characters written, and the count returned.  [None] is
    [nullptr]; the text is a C string, read up to its first zero byte. *)
Definition tPrint (text : option (list Z)) : list Z * Z :=
  match text with
  | None => ([], 0)
  | Some t =>
      if hd 0 t =? 0 then ([], 0)
      else let len := tStrlen t in (firstn (Z.to_nat len) t, len)
  end.

(** A format with a character directive between two letters. *)
Definition CharFormat : list Z := cstr "a%cb" ++ [0].

(** What [HandlerHelper_Vector] makes of the texts of its components. *)
Definition Tuple (spec : FormatSpec) (texts : list (list Z)) : list Z :=
  if has (Flags spec) Flag_DecorativeFormatting then Join (cstr " ") texts
  else cstr "(" ++ Join (cstr ", ") texts ++ cstr ")".

(** The texts at [i], [i + stride], ...: [n] of them. *)
Definition Every (n i stride : nat) (texts : list (list Z)) : list (list Z) :=
  map (fun k => nth (i + k * stride) texts []) (seq 0 n).

(** The specification that [Handler_m] renders the components with: under
    the [_] flag a width of 9 and a precision of 4 where none is given. *)
Definition MatrixSpec (spec : FormatSpec) : FormatSpec :=
  if has (Flags spec) Flag_DecorativeFormatting then
    let vecSpec := if Width spec =? 0 then set_Width spec 9 else spec in
    if Precision spec =? -1 then set_Precision vecSpec 4 else vecSpec
  else spec.

(** The sign that the [f] directive gives a value that is not special. *)
Definition FloatSign (spec : FormatSpec) (value : float) : list Z :=
  if PrimFloat.ltb value 0 then [ch "-"]
  else if has (Flags spec) Flag_ForcePosOrNegSign then [ch "+"]
  else if has (Flags spec) Flag_SpaceForPosSign then [ch " "]
  else [].

(** The largest finite [double]. *)
Definition DBL_MAX : float := SF2Prim (S754_finite false 9007199254740991 971).

(** The digit text as the decorative flags of [flags] leave it, in the helper
    of the 128, 256 and 512 bit integers. *)
Definition DecoratedWide (flags : Z) (digits : list Z) : list Z :=
  if has flags Flag_DecorativeFormatting then Spec_GroupFromRight 8 (ch "_") digits
  else if has flags Flag_DecorativeFormattingAlt then Spec_GroupFromRight 3 (ch ",") digits
  else digits.

(** What an integer directive of [base] renders of an operand of [bitSize]
    bits: the magnitude that the digits spell, and the sign and base prefix
    that stand in front of them. *)
Definition IntegerMagnitude (spec : FormatSpec) (treatAsUnsigned : bool) (base bitSize data : Z)
  : Z :=
  let raw := data mod 2 ^ bitSize in
  let '(_, negate, _) :=
    SignBlock spec treatAsUnsigned (negb (raw <? 2 ^ (bitSize - 1))) base (Width spec) in
  if negate then 2 ^ bitSize - raw else raw.

Definition IntegerFront (spec : FormatSpec) (treatAsUnsigned upperCase : bool)
  (base bitSize data : Z) : list Z :=
  let raw := data mod 2 ^ bitSize in
  let '(sign, _, remWidth) :=
    SignBlock spec treatAsUnsigned (negb (raw <? 2 ^ (bitSize - 1))) base (Width spec) in
  sign ++ fst (PrefixBlock spec (IntegerMagnitude spec treatAsUnsigned base bitSize data)
                           upperCase base false remWidth).

(** * Properties *)

(** ** The sink *)

Lemma Append_nil (o : option (list Z)) : Append [] o = o.
Proof. destruct o; simpl; [rewrite app_nil_r|]; reflexivity. Qed.

Lemma Append_app (a b : list Z) (o : option (list Z)) :
  Append b (Append a o) = Append (a ++ b) o.
Proof. destruct o; simpl; [rewrite app_assoc|]; reflexivity. Qed.

Lemma Emit_nil (r : Receiver) : Emit r [] = r.
Proof.
  destruct r; unfold Emit; simpl. rewrite !Append_nil. f_equal. lia.
Qed.

Lemma Emit_app (r : Receiver) (a b : list Z) : Emit (Emit r a) b = Emit r (a ++ b).
Proof.
  unfold Emit; simpl. rewrite !Append_app, length_app. f_equal. lia.
Qed.

Lemma Receive_unlimited (r : Receiver) (c : Z) :
  ReceiveLimit r = -1 -> Receive r c = Emit r [c].
Proof.
  destruct r as [b l s n]; simpl; intros ->.
  unfold Receive, Emit; simpl. rewrite andb_false_r. reflexivity.
Qed.

Lemma ReceiveMany_unlimited (n : nat) (c : Z) (r : Receiver) :
  ReceiveLimit r = -1 -> ReceiveMany n c r = Emit r (repeat c n).
Proof.
  revert r. induction n as [|n IH]; intros r H; simpl.
  - symmetry. apply Emit_nil.
  - rewrite Receive_unlimited by assumption.
    rewrite IH by (simpl; assumption). rewrite Emit_app. reflexivity.
Qed.

Lemma Receive_n_unlimited (r : Receiver) (s : list Z) (n : Z) :
  ReceiveLimit r = -1 -> 0 <= n <= Z.of_nat (List.length s) ->
  Receive_n r (Some s) n = Some (Emit r (firstn (Z.to_nat n) s)).
Proof.
  destruct r as [b l st k]; simpl; intros -> Hn.
  unfold Receive_n, ClampToLimit, StoreRun; simpl.
  rewrite andb_false_r.
  destruct (n =? 0) eqn:E.
  - apply Z.eqb_eq in E. subst n. simpl. rewrite Emit_nil. reflexivity.
  - replace (n <? 0) with false by (symmetry; apply Z.ltb_ge; lia). simpl.
    unfold Emit; simpl. rewrite length_firstn. do 2 f_equal. lia.
Qed.

Lemma Prolog_unlimited (r : Receiver) (n : Z) (spec : FormatSpec) :
  ReceiveLimit r = -1 ->
  HandlerHelper_JustificationProlog r n spec = Emit r (PadLeft spec n).
Proof.
  intros H. unfold HandlerHelper_JustificationProlog, PadLeft.
  destruct (has (Flags spec) Flag_LeftJustify).
  - symmetry. apply Emit_nil.
  - apply ReceiveMany_unlimited. assumption.
Qed.

Lemma Epilog_unlimited (r : Receiver) (n : Z) (spec : FormatSpec) :
  ReceiveLimit r = -1 ->
  HandlerHelper_JustificationEpilog r n spec = Emit r (PadRight spec n).
Proof.
  intros H. unfold HandlerHelper_JustificationEpilog, PadRight.
  destruct (has (Flags spec) Flag_LeftJustify); simpl.
  - apply ReceiveMany_unlimited. assumption.
  - symmetry. apply Emit_nil.
Qed.

Lemma tStrlen_bounds (s : list Z) : 0 <= tStrlen s <= Z.of_nat (List.length s).
Proof.
  induction s as [|c s IH]; [simpl; lia|].
  cbn [tStrlen]. change (List.length (c :: s)) with (S (List.length s)).
  rewrite Nat2Z.inj_succ. destruct (c =? 0); lia.
Qed.

(** *** The bound sink never goes past its limit *)

Lemma BoundTo_Receive (L : Z) (r : Receiver) (c : Z) :
  0 <= L -> BoundTo L r -> BoundTo L (Receive r c).
Proof.
  intros HL (Hlim & Hs & Hn). unfold Receive. rewrite Hs, Hlim.
  destruct (negb (L =? -1)) eqn:E1;
    [|apply negb_false_iff, Z.eqb_eq in E1; lia].
  simpl. destruct (NumReceived r >=? L) eqn:E2.
  - repeat split; assumption || lia.
  - assert (Hlt : NumReceived r < L) by (rewrite Z.geb_leb in E2; apply Z.leb_gt in E2; lia).
    unfold BoundTo, StoredCount in *. simpl.
    destruct (String r) as [st|]; [|discriminate]. simpl.
    rewrite length_app. simpl. repeat split; lia.
Qed.

Lemma BoundTo_run (L : Z) (r r' : Receiver) (s : list Z) (n : Z) :
  0 <= L -> BoundTo L r ->
  match ClampToLimit r n with
  | None => Some r
  | Some k => StoreRun r s k
  end = Some r' ->
  BoundTo L r'.
Proof.
  intros HL (Hlim & Hs & Hn). unfold ClampToLimit, StoreRun. rewrite Hs, Hlim.
  destruct (negb (L =? -1)) eqn:E1;
    [|apply negb_false_iff, Z.eqb_eq in E1; lia].
  simpl. destruct (NumReceived r >=? L) eqn:E2.
  - intros H; inversion H; subst. repeat split; assumption || lia.
  - assert (Hlt : NumReceived r < L) by (rewrite Z.geb_leb in E2; apply Z.leb_gt in E2; lia).
    rewrite orb_true_r, andb_true_r.
    set (k := if n >? L - NumReceived r then L - NumReceived r else n).
    assert (Hk : k <= L - NumReceived r).
    { subst k. destruct (n >? L - NumReceived r) eqn:E3; [lia|].
      rewrite Z.gtb_ltb in E3. apply Z.ltb_ge in E3. lia. }
    destruct (k <? 0) eqn:E4; [discriminate|]. apply Z.ltb_ge in E4.
    intros H; inversion H; subst r'; clear H.
    unfold BoundTo, StoredCount in *. simpl.
    destruct (String r) as [st|]; [|discriminate]. simpl.
    rewrite length_app, length_firstn. repeat split; lia.
Qed.

Lemma BoundTo_DoCall (L : Z) (r r' : Receiver) (call : ReceiveCall) :
  0 <= L -> BoundTo L r -> DoCall r call = Some r' -> BoundTo L r'.
Proof.
  intros HL Hb. destruct call as [c|str|str n|buf]; simpl.
  - intros H; inversion H; subst. apply BoundTo_Receive; assumption.
  - unfold Receive_str. destruct str as [s|]; [|intros H; inversion H; subst; assumption].
    destruct (ClampToLimit r (tStrlen s)) as [len|] eqn:E.
    + destruct (len =? 0); [intros H; inversion H; subst; assumption|].
      intros H. apply (BoundTo_run L r r' s (tStrlen s)); try assumption.
      rewrite E. assumption.
    + intros H; inversion H; subst; assumption.
  - unfold Receive_n. destruct str as [s|]; [|intros H; inversion H; subst; assumption].
    destruct (n =? 0); [intros H; inversion H; subst; assumption|].
    apply BoundTo_run; assumption.
  - unfold Receive_buf, Receive_n.
    destruct (Z.of_nat (List.length buf) =? 0); [intros H; inversion H; subst; assumption|].
    apply BoundTo_run; assumption.
Qed.

Lemma BoundTo_DoCalls (L : Z) (calls : list ReceiveCall) :
  0 <= L -> forall r r', BoundTo L r -> DoCalls r calls = Some r' -> BoundTo L r'.
Proof.
  intros HL. induction calls as [|call calls IH]; intros r r' Hb; simpl.
  - intros H; inversion H; subst; assumption.
  - destruct (DoCall r call) as [r1|] eqn:E; [|discriminate].
    apply IH. eapply BoundTo_DoCall; eassumption.
Qed.

Lemma StoreRun_count_not_negative (r : Receiver) (s : list Z) (k : Z) :
  0 <= k -> StoreRun r s k <> None.
Proof.
  intros Hk. unfold StoreRun.
  replace (k <? 0) with false by (symmetry; apply Z.ltb_ge; assumption).
  discriminate.
Qed.

Lemma ClampToLimit_not_negative (r : Receiver) (n k : Z) :
  0 <= n -> ClampToLimit r n = Some k -> 0 <= k.
Proof.
  intros Hn. unfold ClampToLimit.
  destruct (isSome (String r) && negb (ReceiveLimit r =? -1)).
  - destruct (NumReceived r >=? ReceiveLimit r) eqn:E; [discriminate|].
    rewrite Z.geb_leb in E. apply Z.leb_gt in E.
    destruct (n >? ReceiveLimit r - NumReceived r); intros H; inversion H; lia.
  - intros H; inversion H; lia.
Qed.

Lemma DoCall_count_not_negative (r : Receiver) (call : ReceiveCall) :
  CountNotNegative call -> DoCall r call <> None.
Proof.
  destruct call as [c|str|str n|buf]; cbn [CountNotNegative DoCall]; intros Hc.
  - discriminate.
  - unfold Receive_str. destruct str as [s|]; [|discriminate].
    destruct (ClampToLimit r (tStrlen s)) as [k|] eqn:E; [|discriminate].
    destruct (k =? 0); [discriminate|].
    apply StoreRun_count_not_negative.
    apply (ClampToLimit_not_negative r (tStrlen s) k); [apply tStrlen_bounds|assumption].
  - unfold Receive_n. destruct str as [s|]; [|discriminate].
    destruct (n =? 0); [discriminate|].
    destruct (ClampToLimit r n) as [k|] eqn:E; [|discriminate].
    apply StoreRun_count_not_negative.
    apply (ClampToLimit_not_negative r n k); assumption.
  - unfold Receive_buf, Receive_n.
    destruct (Z.of_nat (List.length buf) =? 0); [discriminate|].
    destruct (ClampToLimit r (Z.of_nat (List.length buf))) as [k|] eqn:E; [|discriminate].
    apply StoreRun_count_not_negative.
    apply (ClampToLimit_not_negative r (Z.of_nat (List.length buf)) k); [lia|assumption].
Qed.

Lemma DoCalls_count_not_negative (calls : list ReceiveCall) :
  Forall CountNotNegative calls -> forall r, DoCalls r calls <> None.
Proof.
  induction 1 as [|call calls Hc _ IH]; intros r; cbn [DoCalls]; [discriminate|].
  destruct (DoCall r call) as [r'|] eqn:E; [apply IH|].
  exfalso. exact (DoCall_count_not_negative r call Hc E).
Qed.

(** C9: a [Receiver] built on an external string with a receive limit
    [L >= 0] serves every sequence of calls of [Receive] (one character, a
    counted run, a null-terminated run, an array) in which no counted run
    has a negative count, and then has stored no more than [L] characters
    into the string and has a [NumReceived] of at most [L].  A counted run
    with a negative count breaks this: the overload tests the count against
    zero and against the room that is left, never against a negative value,
    so on a sink that is not full the count goes as it is to [tMemcpy] and
    to [NumReceived += numChars].  A sink that only counts has its count
    moved back; a sink bound to a string of 3 characters that is handed
    the run of [hello] with the count -5 copies with that count; and the
    format [%.*s] with the precision argument -5 makes [Handler_s] do just
    that call on a sink bound to a string of 10 characters, after the five
    blanks that the prolog puts in front for an item of length -5, so that
    [tvsPrintf] with a size of 10 has no result to return. *)
Theorem Receive_negative_count_is_not_caught :
  (forall (L : Z) (calls : list ReceiveCall),
      0 <= L -> Forall CountNotNegative calls ->
      exists r, DoCalls (Receiver_string_limit L) calls = Some r
                /\ StoredCount r <= L /\ NumReceived r <= L)
  /\ (forall (r : Receiver) (s : list Z) (numChars : Z),
         Bound r = true -> NumReceived r < ReceiveLimit r -> numChars < 0 ->
         ClampToLimit r numChars = Some numChars
         /\ Receive_n r (Some s) numChars = None)
  /\ (forall (s : list Z) (numChars : Z),
         numChars < 0 ->
         Receive_n Receiver_count (Some s) numChars
         = Some (mkReceiver None (-1) None numChars))
  /\ DoCalls (Receiver_string_limit 3) [CallRun (Some (cstr "hello")) (-5)] = None
  /\ Handler_s (Receiver_string_limit 10) (mkFormatSpec 0 0 (-5) 8) (ValPtr 0 (cstr "hello"))
     = None
  /\ (forall dp : Z,
         RunProcess dp (Receiver_string_limit 10) (cstr "%.*s" ++ [0])
                    [ArgI 4 (2 ^ 32 - 5); ArgPtr 0 (cstr "hello")]
         = Stopped NoResult
         /\ tvsPrintf_n dp true 10 (Some (cstr "%.*s" ++ [0]))
                        [ArgI 4 (2 ^ 32 - 5); ArgPtr 0 (cstr "hello")]
            = None).
Proof.
  split; [|split; [|split; [|split; [|split]]]].
  - intros L calls HL Hcalls.
    destruct (DoCalls (Receiver_string_limit L) calls) as [r|] eqn:E;
      [|exfalso; exact (DoCalls_count_not_negative calls Hcalls _ E)].
    exists r. split; [reflexivity|].
    assert (Hb : BoundTo L r).
    { apply (BoundTo_DoCalls L calls HL (Receiver_string_limit L) r); [|assumption].
      unfold BoundTo, StoredCount; simpl. repeat split; lia. }
    destruct Hb as (_ & _ & Hn). lia.
  - intros r s numChars Hbound Hroom Hneg.
    assert (Hclamp : ClampToLimit r numChars = Some numChars).
    { unfold ClampToLimit. unfold Bound in Hbound. rewrite Hbound.
      replace (NumReceived r >=? ReceiveLimit r) with false
        by (symmetry; rewrite Z.geb_leb; apply Z.leb_gt; assumption).
      replace (numChars >? ReceiveLimit r - NumReceived r) with false
        by (symmetry; rewrite Z.gtb_ltb; apply Z.ltb_ge; lia).
      reflexivity. }
    split; [exact Hclamp|].
    unfold Receive_n.
    replace (numChars =? 0) with false by (symmetry; apply Z.eqb_neq; lia).
    rewrite Hclamp. unfold StoreRun.
    replace (numChars <? 0) with true by (symmetry; apply Z.ltb_lt; assumption).
    unfold Bound in Hbound. apply andb_true_iff in Hbound. destruct Hbound as [Hs _].
    rewrite Hs, orb_true_r. reflexivity.
  - intros s numChars Hneg. unfold Receive_n.
    replace (numChars =? 0) with false by (symmetry; apply Z.eqb_neq; lia).
    unfold ClampToLimit, StoreRun, Receiver_count.
    cbn [String Buffer isSome andb orb NumReceived ReceiveLimit].
    rewrite andb_false_r. reflexivity.
  - reflexivity.
  - reflexivity.
  - intros dp. split; reflexivity.
Qed.

(** ** The [s] directive *)

Lemma StringCount_bounds (spec : FormatSpec) (str : list Z) :
  Precision spec = -1 \/ 0 <= Precision spec ->
  0 <= StringCount spec str <= Z.of_nat (List.length str).
Proof.
  intros Hp. pose proof (tStrlen_bounds str) as Hb. unfold StringCount.
  destruct (Precision spec =? -1) eqn:E; [lia|].
  apply Z.eqb_neq in E. lia.
Qed.

(** C10: for the [s] directive on a string of length [n], with the precision
    either unspecified or some [p >= 0], the run handed to the sink has
    exactly [min n p] characters ([n] when the precision is unspecified), the
    justification padding is computed against that count, and a sink without
    limit receives the left padding, these characters of the string, and the
    right padding. *)
Theorem Handler_s_delivers_min :
  forall (r : Receiver) (spec : FormatSpec) (addr : Z) (str : list Z),
    Precision spec = -1 \/ 0 <= Precision spec ->
    let n := tStrlen str in
    let k := if Precision spec =? -1 then n else Z.min n (Precision spec) in
    Handler_s r spec (ValPtr addr str)
      = andThen (Receive_n (HandlerHelper_JustificationProlog r k spec) (Some str) k)
                (fun r' => Some (HandlerHelper_JustificationEpilog r' k spec))
    /\ Z.of_nat (List.length (firstn (Z.to_nat k) str)) = k
    /\ (ReceiveLimit r = -1 ->
        Handler_s r spec (ValPtr addr str)
          = Some (Emit r (PadLeft spec k ++ firstn (Z.to_nat k) str ++ PadRight spec k))).
Proof.
  intros r spec addr str Hp n k.
  assert (Hk : 0 <= k <= Z.of_nat (List.length str)) by (apply StringCount_bounds; assumption).
  assert (Hstep : Handler_s r spec (ValPtr addr str)
      = andThen (Receive_n (HandlerHelper_JustificationProlog r k spec) (Some str) k)
                (fun r' => Some (HandlerHelper_JustificationEpilog r' k spec))).
  { unfold Handler_s, andThen. fold n.
    replace (if negb (Precision spec =? -1) && (n >? Precision spec)
             then Precision spec else n) with k; [reflexivity|].
    subst k. destruct (Precision spec =? -1) eqn:E; simpl; [reflexivity|].
    rewrite Z.gtb_ltb. destruct (Precision spec <? n) eqn:E2.
    - apply Z.ltb_lt in E2. lia.
    - apply Z.ltb_ge in E2. lia. }
  split; [exact Hstep|]. split.
  - rewrite length_firstn. lia.
  - intros Hlim. rewrite Hstep.
    rewrite Prolog_unlimited by assumption.
    rewrite Receive_n_unlimited by (simpl; assumption). simpl.
    rewrite Epilog_unlimited by (simpl; assumption).
    rewrite !Emit_app. reflexivity.
Qed.

Lemma Handler_s_delivers_min_witness :
  (Precision (mkFormatSpec 0 5 1 8) = -1 \/ 0 <= Precision (mkFormatSpec 0 5 1 8))
  /\ Handler_s Receiver_buffer (mkFormatSpec 0 5 1 8) (ValPtr 0 (cstr "ab"))
       = Some (Emit Receiver_buffer (cstr "    a")).
Proof.
  split; [right; simpl; lia|].
  refine (proj2 (proj2 (Handler_s_delivers_min Receiver_buffer (mkFormatSpec 0 5 1 8) 0
                          (cstr "ab") _)) eq_refl).
  right; simpl; lia.
Defined.

(** ** The scanner: literal characters after a percent sign *)

Lemma SearchHandler_isSome (c : Z) (hs : list HandlerInfo) :
  isSome (SearchHandler c hs) = existsb (fun h => SpecChar h =? c) hs.
Proof.
  induction hs as [|h hs IH]; simpl; [reflexivity|].
  destruct (SpecChar h =? c); simpl; [reflexivity|assumption].
Qed.

Lemma FindHandler_isSome (dp c : Z) :
  isSome (FindHandler dp c) = existsb (fun t => t =? c) TypeCharacters.
Proof.
  assert (Hmap : existsb (fun t => t =? c) TypeCharacters
                 = existsb (fun h => SpecChar h =? c) (HandlerInfos dp)) by reflexivity.
  rewrite Hmap. clear Hmap. unfold FindHandler.
  destruct (c =? 0) eqn:E0.
  - apply Z.eqb_eq in E0. subst c. reflexivity.
  - set (index := nth (Z.to_nat c) HandlerJumpTable (-1)).
    destruct ((index <? NumHandlers dp) && (index >=? 0)).
    + destruct (nth_error (HandlerInfos dp) (Z.to_nat index)) as [h|] eqn:En.
      * destruct (SpecChar h =? c) eqn:Eh.
        -- cbn [isSome]. symmetry. apply existsb_exists. exists h. split; [|assumption].
           eapply nth_error_In. eassumption.
        -- apply SearchHandler_isSome.
      * apply SearchHandler_isSome.
    + apply SearchHandler_isSome.
Qed.

Lemma IsValidFormatSpecifierCharacter_spelled (dp c : Z) :
  IsValidFormatSpecifierCharacter dp c
  = IsFlagCharacter c || tIsdigit c
    || (c =? ch ".") || (c =? ch "*") || (c =? ch ":") || (c =? ch "!") || (c =? ch "|")
    || existsb (fun t => t =? c) TypeCharacters.
Proof.
  unfold IsValidFormatSpecifierCharacter. rewrite FindHandler_isSome.
  destruct (IsFlagCharacter c); [reflexivity|].
  destruct (tIsdigit c); [reflexivity|].
  destruct (c =? ch "."); [reflexivity|].
  destruct (c =? ch "*"); [reflexivity|].
  destruct (c =? ch ":"); [reflexivity|].
  destruct (c =? ch "!"); [reflexivity|].
  destruct (c =? ch "|"); [reflexivity|].
  destruct (existsb (fun t => t =? c) TypeCharacters); reflexivity.
Qed.

(** C8: where a percent sign is followed by a character [c] that starts no
    directive (no flag character, no digit, none of [.], [*], [:], [!], [|],
    no type character of the table), [Process] hands exactly [c] to the sink
    and goes on two characters further; the format [%%] renders one percent
    sign (and the terminator that ends every render). *)
Theorem percent_before_other_character :
  forall (dp : Z),
    (forall c : Z,
        IsValidFormatSpecifierCharacter dp c = false <->
        IsFlagCharacter c = false /\ tIsdigit c = false
        /\ c <> ch "." /\ c <> ch "*" /\ c <> ch ":" /\ c <> ch "!" /\ c <> ch "|"
        /\ ~ In c TypeCharacters)
    /\ (forall (fuel : nat) (r : Receiver) (c : Z) (rest : list Z) (argList : list Arg),
           IsValidFormatSpecifierCharacter dp c = false ->
           Process dp (S fuel) r (ch "%" :: c :: rest) argList
           = Process dp fuel (Receive r c) rest argList)
    /\ RunProcess dp Receiver_buffer (cstr "%%" ++ [0]) []
       = Done (Emit Receiver_buffer (cstr "%" ++ [0])).
Proof.
  intros dp. split; [|split].
  - intros c. rewrite IsValidFormatSpecifierCharacter_spelled.
    rewrite !orb_false_iff, !Z.eqb_neq.
    assert (Hin : existsb (fun t => t =? c) TypeCharacters = false <-> ~ In c TypeCharacters).
    { split.
      - intros Hf Hi.
        assert (Ht : existsb (fun t => t =? c) TypeCharacters = true).
        { apply existsb_exists. exists c. split; [assumption|apply Z.eqb_refl]. }
        congruence.
      - intros Hn. destruct (existsb (fun t => t =? c) TypeCharacters) eqn:E; [|reflexivity].
        apply existsb_exists in E. destruct E as (t & Hi & Ht).
        apply Z.eqb_eq in Ht. subst t. contradiction. }
    rewrite Hin. tauto.
  - intros fuel r c rest argList Hc.
    cbn [Process]. change (ch "%" =? 0) with false.
    change (ch "%" =? ch "%") with true. cbn [negb]. rewrite Hc. reflexivity.
  - reflexivity.
Qed.

(** ** The scanner: the type size *)

Lemma int32_small (z : Z) : - 2 ^ 31 <= z <= INT_MAX -> int32 z = z.
Proof.
  unfold int32, INT_MAX. intros H. rewrite Z.mod_small; lia.
Qed.

Lemma tIsdigit_range (c : Z) : tIsdigit c = true -> 0 <= c - ch "0" <= 9.
Proof.
  unfold tIsdigit. rewrite andb_true_iff, !Z.leb_le.
  change (ch "0") with 48. change (ch "9") with 57. lia.
Qed.

Lemma DigitFold_ge (ds : list Z) :
  Forall (fun d => tIsdigit d = true) ds ->
  forall n, 0 <= n -> n <= fold_left DigitStep ds n.
Proof.
  induction 1 as [|d ds Hd _ IH]; intros n Hn; simpl; [lia|].
  apply tIsdigit_range in Hd.
  assert (Hstep : n <= DigitStep n d) by (unfold DigitStep; lia).
  specialize (IH (DigitStep n d) ltac:(lia)). lia.
Qed.

(** A run of digits, closed by a character that is no digit, is read as the
    number it spells, as long as that number is an [int]. *)
Lemma ParseNumber_digits (ds : list Z) (c : Z) (rest : list Z) :
  Forall (fun d => tIsdigit d = true) ds -> tIsdigit c = false ->
  forall n, 0 <= n -> fold_left DigitStep ds n <= INT_MAX ->
  ParseNumber (ds ++ c :: rest) n = Some (c :: rest, fold_left DigitStep ds n).
Proof.
  intros Hds Hc. induction Hds as [|d ds Hd Hds IH]; intros n Hn Hmax; simpl.
  - rewrite Hc. reflexivity.
  - rewrite Hd. pose proof (tIsdigit_range d Hd) as Hr.
    simpl in Hmax. fold (DigitStep n d) in *.
    assert (Hs : 0 <= DigitStep n d) by (unfold DigitStep; lia).
    pose proof (DigitFold_ge ds Hds (DigitStep n d) Hs) as Hge.
    rewrite int32_small by (unfold INT_MAX in *; lia).
    apply IH; assumption.
Qed.








(** ** Integers: decorative grouping *)

Lemma mod_zero_shift (a b m : Z) :
  0 < m -> (a + b) mod m = 0 -> (a mod m = 0 <-> b mod m = 0).
Proof.
  intros Hm Hab. rewrite !Z.mod_divide in * by lia. split; intros H.
  - apply (Z.divide_add_cancel_r m a b); assumption.
  - rewrite Z.add_comm in Hab. apply (Z.divide_add_cancel_r m b a); assumption.
Qed.

Lemma GroupLoop_spec (every sep : Z) :
  0 < every ->
  forall (curr : list Z) (len i mod_ : Z) (convBuf : list Z),
    len = i + Z.of_nat (List.length curr) -> 0 <= mod_ ->
    (mod_ + Z.of_nat (List.length curr)) mod every = 0 ->
    GroupLoop every sep len curr i mod_ convBuf
    = convBuf ++ Spec_GroupFromRight every sep curr.
Proof.
  intros Hevery. induction curr as [|c rest IH]; intros len i mod_ convBuf Hlen Hmod Hdiv.
  - simpl. rewrite app_nil_r. reflexivity.
  - cbn [GroupLoop Spec_GroupFromRight].
    change (List.length (c :: rest)) with (S (List.length rest)) in *.
    rewrite Nat2Z.inj_succ in *.
    set (n := Z.of_nat (List.length rest)) in *.
    assert (Hn : 0 <= n) by (subst n; lia).
    assert (Hsame : (Z.rem (mod_ + 1) every =? 0) && negb (i =? len - 1)
                    = (n mod every =? 0) && (0 <? n)).
    { rewrite Z.rem_mod_nonneg by lia.
      assert (Hiff : (mod_ + 1) mod every = 0 <-> n mod every = 0).
      { apply mod_zero_shift; [assumption|].
        replace (mod_ + 1 + n) with (mod_ + Z.succ n) by lia. assumption. }
      assert (Hlast : negb (i =? len - 1) = (0 <? n)).
      { destruct (i =? len - 1) eqn:E1; destruct (0 <? n) eqn:E2; try reflexivity; simpl.
        - apply Z.eqb_eq in E1. apply Z.ltb_lt in E2. lia.
        - apply Z.eqb_neq in E1. apply Z.ltb_ge in E2. lia. }
      rewrite Hlast. f_equal.
      destruct ((mod_ + 1) mod every =? 0) eqn:E1; destruct (n mod every =? 0) eqn:E2;
        try reflexivity.
      - apply Z.eqb_eq in E1. apply Z.eqb_neq in E2. tauto.
      - apply Z.eqb_neq in E1. apply Z.eqb_eq in E2. tauto. }
    rewrite Hsame.
    rewrite IH.
    + destruct ((n mod every =? 0) && (0 <? n)); simpl;
        repeat rewrite <- app_assoc; reflexivity.
    + lia.
    + lia.
    + replace (mod_ + 1 + n) with (mod_ + Z.succ n) by lia. assumption.
Qed.

Lemma Decorate_spec (every sep : Z) (curr convBuf : list Z) :
  0 < every ->
  Decorate every sep curr convBuf = convBuf ++ Spec_GroupFromRight every sep curr.
Proof.
  intros Hevery. unfold Decorate.
  set (len := Z.of_nat (List.length curr)).
  assert (Hlen : 0 <= len) by (subst len; lia).
  rewrite Z.rem_mod_nonneg by lia.
  pose proof (Z.mod_pos_bound len every Hevery) as Hb.
  apply GroupLoop_spec; try lia.
  fold len.
  replace (every - len mod every + len) with (every * (1 + len / every)).
  - rewrite Z.mul_comm. apply Z.mod_mul. lia.
  - pose proof (Z.div_mod len every ltac:(lia)). lia.
Qed.

Lemma last_app_nonempty (a l : list Z) (x : Z) : l <> [] -> last (a ++ l) x = last l x.
Proof.
  intros Hl. induction a as [|y a IH]; [reflexivity|].
  cbn [app last]. destruct (a ++ l) eqn:E.
  - apply app_eq_nil in E. destruct E; contradiction.
  - assumption.
Qed.

Lemma Spec_GroupFromRight_last (every sep : Z) (digits : list Z) (x : Z) :
  last (Spec_GroupFromRight every sep digits) x = last digits x.
Proof.
  induction digits as [|d rest IH]; [reflexivity|].
  destruct rest as [|d' rest'].
  - cbn. destruct (0 mod every =? 0); reflexivity.
  - cbn [Spec_GroupFromRight] in *.
    match goal with |- last (d :: ?seps ++ ?tail) x = _ =>
      change (d :: seps ++ tail) with ((d :: seps) ++ tail);
      rewrite (last_app_nonempty (d :: seps) tail x) by discriminate
    end.
    rewrite IH. reflexivity.
Qed.

(** ** Integers: precision and the leading-zeros flag *)

Lemma has_clear_same (flags F : Z) : has (clear flags F) F = false.
Proof.
  unfold has, clear. rewrite <- Z.land_assoc.
  rewrite (Z.land_comm (Z.lnot F) F), Z.land_lnot_diag, Z.land_0_r. reflexivity.
Qed.

Lemma LocalFlags_given_precision (spec : FormatSpec) :
  Precision spec <> -1 -> has (LocalFlags spec) Flag_LeadingZeros = false.
Proof.
  intros H. unfold LocalFlags. apply Z.eqb_neq in H. rewrite H. apply has_clear_same.
Qed.

(** C5: without a precision the helpers run the digit loop with precision 1,
    so that zero prints as one [0], and with a precision they clear their own
    copy of the leading-zeros flag and add no zeros themselves; the handler
    then calls the justification prolog with the flags of the specification
    itself, so that [%05.2d] of 7 is rendered [00007]: the width is still
    filled with zeros. *)
Theorem precision_does_not_stop_zero_padding :
  forall dp : Z,
    (forall spec : FormatSpec,
        Precision spec = -1 -> LocalPrecision spec = 1 /\ LocalFlags spec = Flags spec)
    /\ (forall base offset : Z, DigitLoop 65 1 0 base offset [] = cstr "0")
    /\ (forall spec : FormatSpec,
           Precision spec <> -1 -> has (LocalFlags spec) Flag_LeadingZeros = false)
    /\ HandlerHelper_IntegerNative [] (mkFormatSpec Flag_LeadingZeros 5 2 4) 7
                                   false 32 false 10 false
       = Some (cstr "07")
    /\ Handler_d Receiver_buffer (mkFormatSpec Flag_LeadingZeros 5 2 4) (ValI 7)
       = Some (Emit Receiver_buffer (cstr "00007"))
    /\ RunProcess dp Receiver_buffer (cstr "%05.2d" ++ [0]) [ArgI 4 7]
       = Done (Emit Receiver_buffer (cstr "00007" ++ [0])).
Proof.
  intros dp. split; [|split; [|split; [|split; [|split]]]].
  - intros spec H. unfold LocalPrecision, LocalFlags. rewrite H. split; reflexivity.
  - intros base offset. cbn [DigitLoop].
    change (1 >? 0) with true. cbn [orb].
    rewrite Zmod_0_l, Zdiv_0_l. reflexivity.
  - apply LocalFlags_given_precision.
  - reflexivity.
  - reflexivity.
  - reflexivity.
Qed.

(** ** The [g] directive *)

(** C4: [Handler_g] compares the operand itself, sign included, against ten to
    the precision: -10000000000 lies below 10000 and takes the fixed-point
    algorithm, although its magnitude is not below 10000, while 10000000000
    takes the exponential one. *)
Theorem Handler_g_compares_the_signed_value :
  let spec := mkFormatSpec 0 0 (-1) 8 in
  Handler_g_choice 4 spec (-10000000000)%float = FixedPoint
  /\ Handler_g_choice 4 spec 10000000000%float = Exponential
  /\ PrimFloat.ltb (PrimFloat.abs (-10000000000)%float) (tPow10 4) = false
  /\ Handler_g 4 Receiver_buffer spec (ValD (-10000000000)%float)
     = Some (Emit Receiver_buffer (cstr "-10000000000"))
  /\ Handler_g 4 Receiver_buffer spec (ValD 10000000000%float)
     = Some (Emit Receiver_buffer (cstr "1.000e+10")).
Proof.
  cbv zeta. split; [|split; [|split; [|split]]]; vm_compute; reflexivity.
Qed.

(** ** The scanner: a percent sign at the end of the format *)

(** C2: on a format that ends in a percent sign, [Process] takes the
    terminator for the character after the percent sign, hands it to the sink
    and goes on two characters further, past the terminator: the scan goes on
    in whatever lies behind the string, and runs out of the storage when
    nothing does. *)
Theorem Process_percent_at_end_passes_terminator :
  forall dp : Z,
    (forall (fuel : nat) (r : Receiver) (behind : list Z) (argList : list Arg),
        Process dp (S fuel) r (cstr "%" ++ [0] ++ behind) argList
        = Process dp fuel (Receive r 0) behind argList)
    /\ RunProcess dp Receiver_buffer (cstr "%" ++ [0]) [] = Stopped BadRead
    /\ RunProcess dp Receiver_buffer (cstr "%" ++ [0] ++ cstr "xyz" ++ [0]) []
       = Done (Emit Receiver_buffer ([0] ++ cstr "xyz" ++ [0])).
Proof.
  intros dp. split; [|split].
  - intros fuel r behind argList. reflexivity.
  - reflexivity.
  - reflexivity.
Qed.

(** ** Floating point: rounding with carry *)

Lemma RoundWalk_carry (rnines : list Z) (d : Z) (rpre : list Z) :
  Forall NineOrDot rnines -> d <> ch "9" -> d <> ch "." ->
  RoundWalk (rnines ++ d :: rpre)
  = (ZeroNines rnines ++ (d + 1) :: rpre, match rpre with [] => true | _ => false end).
Proof.
  intros Hn Hd9 Hdd. induction Hn as [|c rnines Hc _ IH].
  - cbn [app RoundWalk ZeroNines map].
    apply Z.eqb_neq in Hd9, Hdd. rewrite Hd9, Hdd. reflexivity.
  - cbn [app RoundWalk ZeroNines map]. rewrite IH.
    destruct Hc as [-> | ->]; reflexivity.
Qed.

Lemma Forall_NineOrDot_rev (l : list Z) : Forall NineOrDot l -> Forall NineOrDot (rev l).
Proof.
  intros H. apply Forall_forall. intros x Hx. apply in_rev in Hx.
  rewrite Forall_forall in H. apply H. assumption.
Qed.

Lemma RoundUp_carry (pre : list Z) (d : Z) (nines : list Z) :
  Forall NineOrDot nines -> d <> ch "9" -> d <> ch "." ->
  RoundUp (pre ++ d :: nines)
  = (pre ++ (d + 1) :: ZeroNines nines, match pre with [] => true | _ => false end).
Proof.
  intros Hn Hd9 Hdd. unfold RoundUp.
  rewrite rev_app_distr. cbn [rev]. rewrite <- app_assoc. cbn [app].
  rewrite RoundWalk_carry by (try apply Forall_NineOrDot_rev; assumption).
  rewrite rev_app_distr. cbn [rev]. rewrite <- app_assoc. cbn [app].
  unfold ZeroNines. rewrite <- map_rev, !rev_involutive.
  destruct pre as [|x pre]; [reflexivity|].
  destruct (rev (x :: pre)) eqn:E; [|reflexivity].
  apply (f_equal (@List.length Z)) in E. rewrite length_rev in E. discriminate.
Qed.

(** A digit text is all nines and points, or it has a last digit that is not
    a nine, with only nines and points behind it. *)
Lemma digit_text_split (body : list Z) :
  Forall DigitOrDot body ->
  Forall NineOrDot body
  \/ exists pre d nines,
       body = pre ++ d :: nines /\ ch "0" <= d < ch "9" /\ Forall NineOrDot nines.
Proof.
  induction 1 as [|c body Hc _ IH].
  - left. constructor.
  - destruct IH as [Hall | (pre & d & nines & -> & Hd & Hn)].
    + destruct Hc as [Hc | ->].
      * destruct (Z.eq_dec c (ch "9")) as [-> | Hne].
        -- left. constructor; [left; reflexivity|assumption].
        -- right. exists [], c, body. repeat split; try assumption; lia.
      * left. constructor; [right; reflexivity|assumption].
    + right. exists (c :: pre), d, nines. repeat split; try assumption; lia.
Qed.

Lemma TextValueRev_bump (rnines : list Z) (d : Z) (rpre : list Z) :
  Forall NineOrDot rnines -> ch "0" <= d < ch "9" ->
  TextValueRev (ZeroNines rnines ++ (d + 1) :: rpre)
  = TextValueRev (rnines ++ d :: rpre) + 1.
Proof.
  intros Hn Hd. change (ch "0") with 48 in Hd. change (ch "9") with 57 in Hd.
  induction Hn as [|c rnines Hc _ IH].
  - cbn [ZeroNines map app TextValueRev]. change (ch ".") with 46. change (ch "0") with 48.
    replace (d + 1 =? 46) with false by (symmetry; apply Z.eqb_neq; lia).
    replace (d =? 46) with false by (symmetry; apply Z.eqb_neq; lia).
    lia.
  - cbn [ZeroNines map app TextValueRev]. fold (ZeroNines rnines).
    destruct Hc as [-> | ->].
    + change (ch "9" =? ch "9") with true. cbv iota.
      change (ch "0" =? ch ".") with false. change (ch "9" =? ch ".") with false.
      cbv iota. rewrite IH. change (ch "9") with 57. change (ch "0") with 48. lia.
    + change (ch "." =? ch "9") with false. cbv iota.
      change (ch "." =? ch ".") with true. cbv iota. exact IH.
Qed.

Lemma TextValueRev_leading_zero (rtext : list Z) :
  TextValueRev (rtext ++ [ch "0"]) = TextValueRev rtext.
Proof.
  induction rtext as [|c rtext IH]; [reflexivity|].
  cbn [app TextValueRev]. rewrite IH. reflexivity.
Qed.

Lemma ZeroNines_rev (text : list Z) : ZeroNines (rev text) = rev (ZeroNines text).
Proof. unfold ZeroNines. apply map_rev. Qed.

Lemma DotMask_ZeroNines (text : list Z) : DotMask (ZeroNines text) = DotMask text.
Proof.
  unfold DotMask, ZeroNines. rewrite map_map. apply map_ext. intros c.
  destruct (c =? ch "9") eqn:E; [|reflexivity].
  apply Z.eqb_eq in E. subst c. reflexivity.
Qed.

Lemma TextValue_bump (pre : list Z) (d : Z) (nines : list Z) :
  Forall NineOrDot nines -> ch "0" <= d < ch "9" ->
  TextValue (pre ++ (d + 1) :: ZeroNines nines) = TextValue (pre ++ d :: nines) + 1.
Proof.
  intros Hn Hd. unfold TextValue.
  rewrite !rev_app_distr. cbn [rev]. rewrite <- !app_assoc. cbn [app].
  rewrite <- ZeroNines_rev.
  apply TextValueRev_bump; [apply Forall_NineOrDot_rev|]; assumption.
Qed.

Lemma DotMask_bump (pre : list Z) (d : Z) (nines : list Z) :
  ch "0" <= d < ch "9" ->
  DotMask (pre ++ (d + 1) :: ZeroNines nines) = DotMask (pre ++ d :: nines).
Proof.
  intros Hd. change (ch "0") with 48 in Hd. change (ch "9") with 57 in Hd.
  unfold DotMask. rewrite !map_app. cbn [map]. fold (DotMask (ZeroNines nines)).
  fold (DotMask nines). rewrite DotMask_ZeroNines. change (ch ".") with 46.
  replace (d + 1 =? 46) with false by (symmetry; apply Z.eqb_neq; lia).
  replace (d =? 46) with false by (symmetry; apply Z.eqb_neq; lia).
  reflexivity.
Qed.

(** C3: once the integer part and the fraction digits are in the buffer,
    behind the character reserved at its front, the text is rounded up when
    ten times the remainder reaches five: walking back from the last
    character, nines become zeros and the decimal point is stepped over until
    a character that is neither is incremented; when that character is the
    reserved one, it opens the result (the carry went past the front), else
    the result starts behind it.  On a digit text the result spells the number
    one unit in the last place higher, with the decimal point where it was.
    So 2.5 with precision 0 renders [3], 9.5 renders [10], and 0.96875 with
    precision 1 renders [1.0]. *)
Theorem FloatNormal_rounds_half_up :
  (forall (pre : list Z) (d : Z) (nines : list Z),
      Forall NineOrDot nines -> d <> ch "9" -> d <> ch "." ->
      RoundUp (pre ++ d :: nines)
      = (pre ++ (d + 1) :: ZeroNines nines, match pre with [] => true | _ => false end))
  /\ (forall (body : list Z) (value : float),
         fge (value * 10)%float 5 = false ->
         FloatNormal_Result (ch "0" :: body) value = body)
  /\ (forall (pre : list Z) (d : Z) (nines : list Z) (value : float),
         fge (value * 10)%float 5 = true ->
         Forall NineOrDot nines -> d <> ch "9" -> d <> ch "." ->
         FloatNormal_Result (ch "0" :: pre ++ d :: nines) value
         = pre ++ (d + 1) :: ZeroNines nines)
  /\ (forall (nines : list Z) (value : float),
         fge (value * 10)%float 5 = true ->
         Forall NineOrDot nines ->
         FloatNormal_Result (ch "0" :: nines) value = ch "1" :: ZeroNines nines)
  /\ (forall (body : list Z) (value : float),
         fge (value * 10)%float 5 = true ->
         Forall DigitOrDot body ->
         TextValue (FloatNormal_Result (ch "0" :: body) value) = TextValue body + 1
         /\ (DotMask (FloatNormal_Result (ch "0" :: body) value) = DotMask body
             \/ DotMask (FloatNormal_Result (ch "0" :: body) value) = false :: DotMask body))
  /\ Handler_f 4 Receiver_buffer (mkFormatSpec 0 0 0 8) (ValD 2.5)
     = Some (Emit Receiver_buffer (cstr "3"))
  /\ Handler_f 4 Receiver_buffer (mkFormatSpec 0 0 0 8) (ValD 9.5)
     = Some (Emit Receiver_buffer (cstr "10"))
  /\ Handler_f 4 Receiver_buffer (mkFormatSpec 0 0 1 8) (ValD 0.96875)
     = Some (Emit Receiver_buffer (cstr "1.0"))
  /\ Handler_f 4 Receiver_buffer (mkFormatSpec 0 0 1 8) (ValD 2.25)
     = Some (Emit Receiver_buffer (cstr "2.3")).
Proof.
  assert (Hcarry : forall (pre : list Z) (d : Z) (nines : list Z) (value : float),
             fge (value * 10)%float 5 = true ->
             Forall NineOrDot nines -> d <> ch "9" -> d <> ch "." ->
             FloatNormal_Result (ch "0" :: pre ++ d :: nines) value
             = pre ++ (d + 1) :: ZeroNines nines).
  { intros pre d nines value H Hn Hd9 Hdd. unfold FloatNormal_Result. rewrite H.
    change (ch "0" :: pre ++ d :: nines) with ((ch "0" :: pre) ++ d :: nines).
    rewrite RoundUp_carry by assumption. reflexivity. }
  assert (Hfront : forall (nines : list Z) (value : float),
             fge (value * 10)%float 5 = true ->
             Forall NineOrDot nines ->
             FloatNormal_Result (ch "0" :: nines) value = ch "1" :: ZeroNines nines).
  { intros nines value H Hn. unfold FloatNormal_Result. rewrite H.
    change (ch "0" :: nines) with ([] ++ ch "0" :: nines).
    rewrite RoundUp_carry by (assumption || discriminate). reflexivity. }
  split; [|split; [|split; [|split; [|split; [|split; [|split; [|split]]]]]]].
  - intros pre d nines. apply RoundUp_carry.
  - intros body value H. unfold FloatNormal_Result. rewrite H. reflexivity.
  - exact Hcarry.
  - exact Hfront.
  - intros body value H Hbody.
    destruct (digit_text_split body Hbody) as [Hall | (pre & d & nines & -> & Hd & Hn)].
    + rewrite Hfront by assumption. split.
      * change (ch "1" :: ZeroNines body) with ([] ++ (ch "0" + 1) :: ZeroNines body).
        rewrite TextValue_bump by (assumption || (change (ch "0") with 48;
                                                  change (ch "9") with 57; lia)).
        unfold TextValue. cbn [app rev]. rewrite TextValueRev_leading_zero. reflexivity.
      * right. cbn [DotMask map]. fold (DotMask (ZeroNines body)).
        rewrite DotMask_ZeroNines. reflexivity.
    + assert (Hd9 : d <> ch "9") by lia.
      assert (Hdd : d <> ch ".")
        by (change (ch "0") with 48 in Hd; change (ch ".") with 46; lia).
      rewrite Hcarry by assumption. split.
      * apply TextValue_bump; assumption.
      * left. apply DotMask_bump. assumption.
  - vm_compute. reflexivity.
  - vm_compute. reflexivity.
  - vm_compute. reflexivity.
  - vm_compute. reflexivity.
Qed.

(** ** The sink does not shape the render *)

Lemma Receive_as_run (r : Receiver) (c : Z) : DoRun r ([c], 1) = Some (Receive r c).
Proof.
  unfold DoRun, Receive_n, ClampToLimit, StoreRun, Receive. cbn [fst snd].
  change (1 =? 0) with false. cbv iota.
  destruct (isSome (String r) && negb (ReceiveLimit r =? -1)) eqn:Elim; cbn [andb].
  - destruct (NumReceived r >=? ReceiveLimit r) eqn:Efull; [reflexivity|].
    rewrite Z.geb_leb in Efull. apply Z.leb_gt in Efull.
    replace (1 >? ReceiveLimit r - NumReceived r) with false
      by (symmetry; rewrite Z.gtb_ltb; apply Z.ltb_ge; lia).
    reflexivity.
  - reflexivity.
Qed.

Lemma DoRuns_app (runs1 runs2 : list Run) (r : Receiver) :
  DoRuns r (runs1 ++ runs2)
  = match DoRuns r runs1 with
    | None => None
    | Some r' => DoRuns r' runs2
    end.
Proof.
  revert r. induction runs1 as [|run runs1 IH]; intros r; cbn [app DoRuns]; [reflexivity|].
  destruct (DoRun r run); [apply IH|reflexivity].
Qed.

Lemma TracedTotal_id : TracedTotal (fun r => r).
Proof. exists []. split; [constructor|reflexivity]. Qed.

Lemma TracedTotal_Receive (c : Z) : TracedTotal (fun r => Receive r c).
Proof.
  exists [([c], 1)]. split.
  - repeat constructor. unfold RunFits. simpl. lia.
  - intros r. cbn [DoRuns]. rewrite Receive_as_run. reflexivity.
Qed.

Lemma TracedTotal_comp (f g : Receiver -> Receiver) :
  TracedTotal f -> TracedTotal g -> TracedTotal (fun r => g (f r)).
Proof.
  intros (runs1 & H1 & E1) (runs2 & H2 & E2). exists (runs1 ++ runs2). split.
  - apply Forall_app. split; assumption.
  - intros r. rewrite DoRuns_app, E1. apply E2.
Qed.

Lemma TracedTotal_ReceiveMany (n : nat) (c : Z) : TracedTotal (ReceiveMany n c).
Proof.
  induction n as [|n IH].
  - apply TracedTotal_id.
  - apply (TracedTotal_comp (fun r => Receive r c) (ReceiveMany n c));
      [apply TracedTotal_Receive|assumption].
Qed.

Lemma TracedTotal_Prolog (n : Z) (spec : FormatSpec) :
  TracedTotal (fun r => HandlerHelper_JustificationProlog r n spec).
Proof.
  unfold HandlerHelper_JustificationProlog.
  destruct (has (Flags spec) Flag_LeftJustify);
    [apply TracedTotal_id|apply TracedTotal_ReceiveMany].
Qed.

Lemma TracedTotal_Epilog (n : Z) (spec : FormatSpec) :
  TracedTotal (fun r => HandlerHelper_JustificationEpilog r n spec).
Proof.
  unfold HandlerHelper_JustificationEpilog.
  destruct (negb (has (Flags spec) Flag_LeftJustify));
    [apply TracedTotal_id|apply TracedTotal_ReceiveMany].
Qed.

Lemma Traced_none : Traced (fun _ => None).
Proof. left. reflexivity. Qed.

Lemma Traced_ext (f g : Receiver -> option Receiver) :
  (forall r, f r = g r) -> Traced g -> Traced f.
Proof.
  intros E [H | (runs & Hf & H)].
  - left. intros r. rewrite E. apply H.
  - right. exists runs. split; [assumption|]. intros r. rewrite E. apply H.
Qed.

Lemma Traced_total (g : Receiver -> Receiver) : TracedTotal g -> Traced (fun r => Some (g r)).
Proof.
  intros (runs & Hf & H). right. exists runs. split; [assumption|].
  intros r. symmetry. apply H.
Qed.

Lemma Traced_andThen (f g : Receiver -> option Receiver) :
  Traced f -> Traced g -> Traced (fun r => andThen (f r) g).
Proof.
  intros [Hf | (runs1 & F1 & E1)] Hg.
  - left. intros r. rewrite Hf. reflexivity.
  - destruct Hg as [Hg | (runs2 & F2 & E2)].
    + left. intros r. unfold andThen. destruct (f r); [apply Hg|reflexivity].
    + right. exists (runs1 ++ runs2). split; [apply Forall_app; split; assumption|].
      intros r. rewrite DoRuns_app, <- E1. unfold andThen.
      destruct (f r); [apply E2|reflexivity].
Qed.

Lemma Traced_after (g : Receiver -> Receiver) (f : Receiver -> option Receiver) :
  TracedTotal g -> Traced f -> Traced (fun r => f (g r)).
Proof.
  intros Hg Hf.
  apply (Traced_ext _ (fun r => andThen (Some (g r)) f)); [reflexivity|].
  apply (Traced_andThen (fun r => Some (g r)) f); [apply Traced_total|]; assumption.
Qed.

Lemma Traced_Receive_n (s : list Z) (n : Z) :
  n <= Z.of_nat (List.length s) -> Traced (fun r => Receive_n r (Some s) n).
Proof.
  intros Hn. right. exists [(s, n)]. split.
  - repeat constructor. exact Hn.
  - intros r. cbn [DoRuns]. unfold DoRun. cbn [fst snd].
    destruct (Receive_n r (Some s) n); reflexivity.
Qed.

(** The shape most handlers end in: prolog, the text, epilog. *)
Lemma Traced_justified (n : Z) (spec : FormatSpec) (s : list Z) (k : Z) :
  k <= Z.of_nat (List.length s) ->
  Traced (fun r =>
            match Receive_n (HandlerHelper_JustificationProlog r n spec) (Some s) k with
            | None => None
            | Some r' => Some (HandlerHelper_JustificationEpilog r' n spec)
            end).
Proof.
  intros Hk.
  apply (Traced_after (fun r => HandlerHelper_JustificationProlog r n spec)
           (fun r => andThen (Receive_n r (Some s) k)
                             (fun r' => Some (HandlerHelper_JustificationEpilog r' n spec)))).
  - apply TracedTotal_Prolog.
  - apply (Traced_andThen (fun r => Receive_n r (Some s) k)).
    + apply Traced_Receive_n. assumption.
    + apply Traced_total. apply TracedTotal_Epilog.
Qed.

Lemma Traced_Receive_buf (buf : list Z) : Traced (fun r => Receive_buf r buf).
Proof. unfold Receive_buf. apply Traced_Receive_n. lia. Qed.

Lemma Traced_ReceiveLit (lit : list Z) : Traced (fun r => ReceiveLit r lit).
Proof. unfold ReceiveLit. apply Traced_Receive_n. lia. Qed.

Lemma IntegerHandler_traced (treatAsUnsigned upperCase : bool) (base : Z)
  (spec : FormatSpec) (data : Operand) :
  Traced (fun r => IntegerHandler treatAsUnsigned upperCase base r spec data).
Proof.
  unfold IntegerHandler. cbv zeta.
  match goal with |- context [if negb ?b then None else _] => destruct (negb b) end;
    [apply Traced_none|].
  destruct (operand_bits data) as [bits|]; [|apply Traced_none].
  match goal with |- context [match ?e with Some _ => _ | None => None end] =>
    destruct e as [convInt|] end; [|apply Traced_none].
  apply Traced_justified. lia.
Qed.

Lemma Handler_p_traced (spec : FormatSpec) (data : Operand) :
  Traced (fun r => Handler_p r spec data).
Proof.
  unfold Handler_p. cbv zeta.
  destruct (operand_bits data) as [bits|]; [|apply Traced_none].
  match goal with |- context [match ?e with Some _ => _ | None => None end] =>
    destruct e as [convInt|] end; [|apply Traced_none].
  apply Traced_justified. lia.
Qed.

Lemma Traced_signed_justified (c n : Z) (spec : FormatSpec) (s : list Z) (k : Z) :
  k <= Z.of_nat (List.length s) ->
  Traced (fun r =>
            match Receive_n (HandlerHelper_JustificationProlog (Receive r c) n spec)
                            (Some s) k with
            | None => None
            | Some r' => Some (HandlerHelper_JustificationEpilog r' n spec)
            end).
Proof.
  intros Hk.
  apply (Traced_after (fun r => Receive r c)
           (fun r =>
              match Receive_n (HandlerHelper_JustificationProlog r n spec) (Some s) k with
              | None => None
              | Some r' => Some (HandlerHelper_JustificationEpilog r' n spec)
              end)).
  - apply TracedTotal_Receive.
  - apply Traced_justified. assumption.
Qed.

Lemma FloatEmit_traced (spec : FormatSpec) (convFloat : list Z) (res : PrologHelperFloat) :
  Traced (fun r => FloatEmit r spec convFloat res).
Proof.
  unfold FloatEmit.
  destruct res; cbv beta iota zeta;
    first [apply Traced_justified | apply Traced_signed_justified]; lia.
Qed.

Lemma Handler_f_double_traced (dp : Z) (spec : FormatSpec) (value : double) :
  Traced (fun r => Handler_f_double dp r spec value).
Proof.
  unfold Handler_f_double.
  destruct (HandlerHelper_HandleSpecialFloatTypes [] value) as [convFloat special].
  destruct special; [apply FloatEmit_traced|].
  destruct (HandlerHelper_FloatNormal dp convFloat spec (Value value) false) as [[conv res]|];
    [apply FloatEmit_traced|apply Traced_none].
Qed.

Lemma Handler_f_traced (dp : Z) (spec : FormatSpec) (data : Operand) :
  Traced (fun r => Handler_f dp r spec data).
Proof.
  unfold Handler_f. destruct data; try apply Traced_none. apply Handler_f_double_traced.
Qed.

Lemma ExpRender_traced (dp : Z) digits (spec : FormatSpec) (v : float) :
  Traced (fun r => ExpRender dp digits r spec v).
Proof.
  unfold ExpRender. cbv zeta.
  match goal with |- context [ExpNormalize ?x] =>
    destruct (ExpNormalize x) as [[val exponent]|] end; [|apply Traced_none].
  match goal with |- context [match ?e with Some _ => _ | None => None end] =>
    destruct e as [text|] end; [|apply Traced_none].
  match goal with |- context [if ?b then None else _] => destruct b end;
    [apply Traced_none|].
  apply Traced_Receive_n. lia.
Qed.

Lemma Handler_e_traced (dp : Z) (spec : FormatSpec) (data : Operand) :
  Traced (fun r => Handler_e dp r spec data).
Proof.
  unfold Handler_e. destruct data; try apply Traced_none.
  destruct (HandlerHelper_HandleSpecialFloatTypes [] a) as [convBuf special].
  destruct special; [apply Traced_Receive_buf|apply ExpRender_traced].
Qed.

Lemma Handler_g_traced (dp : Z) (spec : FormatSpec) (data : Operand) :
  Traced (fun r => Handler_g dp r spec data).
Proof.
  unfold Handler_g. destruct data; try apply Traced_none.
  destruct (Handler_g_choice dp spec (Value a));
    destruct (HandlerHelper_HandleSpecialFloatTypes [] a) as [convBuf special];
    destruct special.
  - apply FloatEmit_traced.
  - destruct (HandlerHelper_FloatNormal dp convBuf spec (Value a) true) as [[conv res]|];
      [apply FloatEmit_traced|apply Traced_none].
  - apply Traced_Receive_buf.
  - apply ExpRender_traced.
Qed.

Lemma VectorLoop_traced (dp : Z) (numComponents : Z) (sep : Receiver -> option Receiver)
  (components : list double) (spec : FormatSpec) :
  Traced sep ->
  forall (todo c : nat),
    Traced (fun r => VectorLoop dp todo c numComponents sep components spec r).
Proof.
  intros Hsep. induction todo as [|todo IH]; intros c; cbn [VectorLoop].
  - apply (Traced_total (fun r => r)). apply TracedTotal_id.
  - destruct (nth_error components c) as [comp|]; [|apply Traced_none].
    apply (Traced_ext _ (fun r =>
             andThen (Handler_f_double dp r spec comp) (fun r =>
             andThen (if Z.of_nat c <? numComponents - 1 then sep r else Some r)
                     (VectorLoop dp todo (S c) numComponents sep components spec)))).
    + intros r. unfold andThen. destruct (Handler_f_double dp r spec comp); reflexivity.
    + apply (Traced_andThen (fun r => Handler_f_double dp r spec comp));
        [apply Handler_f_double_traced|].
      apply (Traced_andThen
               (fun r => if Z.of_nat c <? numComponents - 1 then sep r else Some r)).
      * destruct (Z.of_nat c <? numComponents - 1); [assumption|].
        apply (Traced_total (fun r => r)). apply TracedTotal_id.
      * apply IH.
Qed.

Lemma SepSpace_traced : Traced SepSpace.
Proof. apply (Traced_total (fun r => Receive r (ch " "))). apply TracedTotal_Receive. Qed.

Lemma SepComma_traced : Traced SepComma.
Proof. unfold SepComma. apply (Traced_Receive_n (cstr ", ") 2). simpl. lia. Qed.

Lemma HandlerHelper_Vector_traced (dp : Z) (spec : FormatSpec) (components : list double)
  (numComponents : Z) :
  Traced (fun r => HandlerHelper_Vector dp r spec components numComponents).
Proof.
  unfold HandlerHelper_Vector.
  destruct (has (Flags spec) Flag_DecorativeFormatting).
  - apply VectorLoop_traced. apply SepSpace_traced.
  - apply (Traced_after (fun r => Receive r (ch "("))
             (fun r => andThen (VectorLoop dp (Z.to_nat numComponents) 0 numComponents
                                           SepComma components spec r)
                               (fun r => Some (Receive r (ch ")"))))).
    + apply TracedTotal_Receive.
    + apply (Traced_andThen
               (VectorLoop dp (Z.to_nat numComponents) 0 numComponents SepComma components spec)).
      * apply VectorLoop_traced. apply SepComma_traced.
      * apply (Traced_total (fun r => Receive r (ch ")"))). apply TracedTotal_Receive.
Qed.

Lemma Handler_v_traced (dp : Z) (spec : FormatSpec) (data : Operand) :
  Traced (fun r => Handler_v dp r spec data).
Proof.
  unfold Handler_v. cbv zeta.
  match goal with |- context [if negb ?b then None else _] => destruct (negb b) end;
    [apply Traced_none|].
  destruct data; try apply Traced_none. apply HandlerHelper_Vector_traced.
Qed.

Lemma Handler_f_at_traced (dp : Z) (components : list double) (i : nat) (spec : FormatSpec) :
  Traced (Handler_f_at dp components i spec).
Proof.
  unfold Handler_f_at. destruct (nth_error components i);
    [apply Handler_f_double_traced|apply Traced_none].
Qed.

Lemma VectorAt_traced (dp : Z) (n i stride : nat) (a : list double) (spec : FormatSpec) :
  Traced (VectorAt dp n i stride a spec).
Proof.
  unfold VectorAt. destruct (Pick n i stride a);
    [apply HandlerHelper_Vector_traced|apply Traced_none].
Qed.

(** The straight-line handlers are chains of [andThen]; each link is one of
    the traced pieces above, possibly behind a received character. *)
Ltac traced_chain :=
  repeat first
    [ apply Traced_none
    | apply Traced_ReceiveLit
    | apply Handler_f_at_traced
    | apply VectorAt_traced
    | match goal with
      | |- Traced (fun r => Some (Receive r ?c)) =>
          apply (Traced_total (fun r => Receive r c)); apply TracedTotal_Receive
      | |- Traced (fun r => andThen (@?f r) ?g) => apply (Traced_andThen f g)
      | |- Traced (fun r => ReceiveLit (Receive r ?c) ?lit) =>
          apply (Traced_after (fun r => Receive r c) (fun r => ReceiveLit r lit));
          [apply TracedTotal_Receive|]
      | |- Traced (fun r => ?f (Receive r ?c)) =>
          apply (Traced_after (fun r => Receive r c) f); [apply TracedTotal_Receive|]
      end ].

Lemma Handler_q_traced (dp : Z) (spec : FormatSpec) (data : Operand) :
  Traced (fun r => Handler_q dp r spec data).
Proof.
  unfold Handler_q. destruct data; try apply Traced_none.
  destruct (has (Flags spec) Flag_DecorativeFormatting).
  - traced_chain.
  - traced_chain. apply VectorLoop_traced. apply SepComma_traced.
Qed.

Lemma Handler_m_traced (dp : Z) (spec : FormatSpec) (data : Operand) :
  Traced (fun r => Handler_m dp r spec data).
Proof.
  unfold Handler_m. cbv zeta.
  match goal with |- context [if negb ?b then None else _] => destruct (negb b) end;
    [apply Traced_none|].
  destruct data; try apply Traced_none.
  destruct (TypeSizeBytes spec =? 64);
    destruct (has (Flags spec) Flag_DecorativeFormatting); traced_chain.
Qed.

Lemma Handler_c_traced (spec : FormatSpec) (data : Operand) :
  Traced (fun r => Handler_c r spec data).
Proof.
  unfold Handler_c. destruct (operand_bits data) as [bits|]; [|apply Traced_none].
  cbv zeta.
  apply (Traced_total
           (fun r => HandlerHelper_JustificationEpilog
                       (Receive (HandlerHelper_JustificationProlog r 1 spec) (bits mod 256))
                       1 spec)).
  apply (TracedTotal_comp
           (fun r => Receive (HandlerHelper_JustificationProlog r 1 spec) (bits mod 256))
           (fun r => HandlerHelper_JustificationEpilog r 1 spec)).
  - apply (TracedTotal_comp (fun r => HandlerHelper_JustificationProlog r 1 spec)
                            (fun r => Receive r (bits mod 256))).
    + apply TracedTotal_Prolog.
    + apply TracedTotal_Receive.
  - apply TracedTotal_Epilog.
Qed.

Lemma Handler_s_traced (spec : FormatSpec) (data : Operand) :
  Traced (fun r => Handler_s r spec data).
Proof.
  unfold Handler_s. destruct data; try apply Traced_none. cbv zeta.
  apply Traced_justified.
  pose proof (tStrlen_bounds pointee) as Hb.
  destruct (negb (Precision spec =? -1) && (tStrlen pointee >? Precision spec)) eqn:E; [|lia].
  apply andb_true_iff in E. destruct E as [_ E]. rewrite Z.gtb_ltb in E.
  apply Z.ltb_lt in E. lia.
Qed.

Lemma Handler_B_traced (spec : FormatSpec) (data : Operand) :
  Traced (fun r => Handler_B r spec data).
Proof.
  unfold Handler_B. destruct (operand_bits data) as [bits|]; [|apply Traced_none].
  cbv zeta.
  destruct (has (Flags spec) Flag_DecorativeFormatting);
    [|destruct (has (Flags spec) Flag_DecorativeFormattingAlt)];
    destruct (negb (bits mod 256 =? 0)); cbv beta iota;
    apply Traced_justified; simpl; lia.
Qed.

Lemma HandlerInfos_traced (dp : Z) :
  Forall (fun h => forall spec data, Traced (fun r => Handler h r spec data)) (HandlerInfos dp).
Proof.
  unfold HandlerInfos.
  repeat (apply Forall_cons; [intros spec data; cbn [Handler]|]); try apply Forall_nil.
  - apply IntegerHandler_traced.
  - apply IntegerHandler_traced.
  - apply IntegerHandler_traced.
  - apply IntegerHandler_traced.
  - apply IntegerHandler_traced.
  - apply IntegerHandler_traced.
  - apply IntegerHandler_traced.
  - apply Handler_p_traced.
  - apply Handler_e_traced.
  - apply Handler_f_traced.
  - apply Handler_g_traced.
  - apply Handler_v_traced.
  - apply Handler_q_traced.
  - apply Handler_m_traced.
  - apply Handler_c_traced.
  - apply Handler_s_traced.
  - apply Handler_B_traced.
Qed.

Lemma SearchHandler_In (c : Z) (hs : list HandlerInfo) (h : HandlerInfo) :
  SearchHandler c hs = Some h -> In h hs.
Proof.
  induction hs as [|x hs IH]; cbn [SearchHandler]; [discriminate|].
  destruct (SpecChar x =? c).
  - intros H; inversion H; subst. left. reflexivity.
  - intros H. right. apply IH. assumption.
Qed.

Lemma FindHandler_In (dp c : Z) (h : HandlerInfo) :
  FindHandler dp c = Some h -> In h (HandlerInfos dp).
Proof.
  unfold FindHandler. destruct (c =? 0); [discriminate|].
  set (index := nth (Z.to_nat c) HandlerJumpTable (-1)).
  destruct ((index <? NumHandlers dp) && (index >=? 0)); [|apply SearchHandler_In].
  destruct (nth_error (HandlerInfos dp) (Z.to_nat index)) as [x|] eqn:En;
    [|apply SearchHandler_In].
  destruct (SpecChar x =? c); [|apply SearchHandler_In].
  intros H; inversion H; subst. eapply nth_error_In. eassumption.
Qed.

Lemma FindHandler_traced (dp c : Z) (h : HandlerInfo) :
  FindHandler dp c = Some h ->
  forall spec data, Traced (fun r => Handler h r spec data).
Proof.
  intros H. apply FindHandler_In in H.
  pose proof (HandlerInfos_traced dp) as Hall.
  rewrite Forall_forall in Hall. apply Hall. assumption.
Qed.

Lemma TracedProcess_stopped (P : Receiver -> Outcome) :
  (forall r, NotDone (P r)) -> TracedProcess P.
Proof. intros H. left. assumption. Qed.

Lemma TracedProcess_ext (P Q : Receiver -> Outcome) :
  (forall r, P r = Q r) -> TracedProcess Q -> TracedProcess P.
Proof.
  intros E [H | (runs & Hf & H)].
  - left. intros r. rewrite E. apply H.
  - right. exists runs. split; [assumption|]. intros r. rewrite E. apply H.
Qed.

Lemma TracedProcess_after (g : Receiver -> Receiver) (P : Receiver -> Outcome) :
  TracedTotal g -> TracedProcess P -> TracedProcess (fun r => P (g r)).
Proof.
  intros (runs1 & F1 & E1) [H | (runs2 & F2 & E2)].
  - left. intros r. apply H.
  - right. exists (runs1 ++ runs2). split; [apply Forall_app; split; assumption|].
    intros r. rewrite DoRuns_app, E1. apply E2.
Qed.

Lemma TracedProcess_bind (f : Receiver -> option Receiver) (P : Receiver -> Outcome) :
  Traced f -> TracedProcess P ->
  TracedProcess (fun r => match f r with
                          | None => Stopped NoResult
                          | Some r' => P r'
                          end).
Proof.
  intros [Hf | (runs1 & F1 & E1)] HP.
  - left. intros r. rewrite Hf. exact I.
  - destruct HP as [HP | (runs2 & F2 & E2)].
    + left. intros r. destruct (f r); [apply HP|exact I].
    + right. exists (runs1 ++ runs2). split; [apply Forall_app; split; assumption|].
      intros r. rewrite DoRuns_app, <- E1. destruct (f r); [apply E2|reflexivity].
Qed.

(** What [Process] does to its sink does not depend on the sink: either it
    does not come to its end, or it hands over one and the same list of
    runs. *)
Lemma Process_traced (dp : Z) (fuel : nat) :
  forall (format : list Z) (argList : list Arg),
    TracedProcess (fun r => Process dp fuel r format argList).
Proof.
  induction fuel as [|fuel IH]; intros format argList.
  - apply TracedProcess_stopped. intros r. exact I.
  - cbn [Process]. destruct format as [|c0 rest].
    + apply TracedProcess_stopped. intros r. exact I.
    + destruct (c0 =? 0).
      * right. exists [([0], 1)]. split.
        -- repeat constructor. unfold RunFits. simpl. lia.
        -- intros r. cbn [DoRuns]. rewrite Receive_as_run. reflexivity.
      * destruct (negb (c0 =? ch "%")).
        -- apply (TracedProcess_after (fun r => Receive r c0)
                    (fun r => Process dp fuel r rest argList));
             [apply TracedTotal_Receive|apply IH].
        -- destruct rest as [|c1 rest'].
           ++ apply TracedProcess_stopped. intros r. exact I.
           ++ destruct (negb (IsValidFormatSpecifierCharacter dp c1)).
              ** apply (TracedProcess_after (fun r => Receive r c1)
                          (fun r => Process dp fuel r rest' argList));
                   [apply TracedTotal_Receive|apply IH].
              ** unfold ProcessDirective.
                 destruct (ParseSpec (c1 :: rest') argList) as [why|[[f a] spec]];
                   [apply TracedProcess_stopped; intros r; exact I|].
                 destruct f as [|type rest''];
                   [apply TracedProcess_stopped; intros r; exact I|].
                 destruct (FindHandler dp type) as [h|] eqn:Eh;
                   [|apply TracedProcess_stopped; intros r; exact I].
                 destruct (va_arg_val (TypeSizeBytes (DefaultTypeSize h spec)) (TypeBase h) a)
                   as [[[pval|] a']|];
                   try (apply TracedProcess_stopped; intros r; exact I).
                 apply (TracedProcess_ext _
                          (fun r => match Handler h r (DefaultTypeSize h spec) pval with
                                    | None => Stopped NoResult
                                    | Some r' => Process dp fuel r' rest'' a'
                                    end)).
                 --- intros r. destruct (Handler h r (DefaultTypeSize h spec) pval);
                       reflexivity.
                 --- apply (TracedProcess_bind
                              (fun r => Handler h r (DefaultTypeSize h spec) pval)
                              (fun r => Process dp fuel r rest'' a')).
                     +++ eapply FindHandler_traced. eassumption.
                     +++ apply IH.
Qed.

(** *** The same runs, into a growing buffer and into a bound string *)

Lemma DoRuns_buffer (runs : list Run) :
  Forall RunFits runs ->
  forall (b : list Z) (n : Z) (r' : Receiver),
    DoRuns (mkReceiver (Some b) (-1) None n) runs = Some r' ->
    Forall (fun run => 0 <= snd run) runs
    /\ r' = mkReceiver (Some (b ++ RunsText runs)) (-1) None
                       (n + Z.of_nat (List.length (RunsText runs))).
Proof.
  induction 1 as [|[s k] runs Hfit _ IH]; intros b n r'.
  - cbn [DoRuns RunsText flat_map]. intros H; inversion H; subst.
    split; [constructor|]. rewrite app_nil_r. f_equal. simpl. lia.
  - unfold RunFits in Hfit. cbn [fst snd] in Hfit.
    cbn [DoRuns]. unfold DoRun, Receive_n, ClampToLimit, StoreRun. cbn.
    destruct (k =? 0) eqn:E0.
    + apply Z.eqb_eq in E0. subst k. intros Hrest.
      destruct (IH b n r' Hrest) as (Hnn & ->).
      split; [constructor; [simpl; lia|assumption]|].
      unfold RunText. reflexivity.
    + destruct (k <? 0) eqn:Eneg; cbn; [discriminate|].
      apply Z.ltb_ge in Eneg. intros Hrest.
      destruct (IH _ _ r' Hrest) as (Hnn & ->).
      split; [constructor; [simpl; lia|assumption]|].
      change (flat_map RunText runs) with (RunsText runs).
      unfold RunText. cbn [fst snd].
      rewrite length_app, length_firstn, <- app_assoc. f_equal. lia.
Qed.

Lemma DoRuns_limited (L : Z) (runs : list Run) :
  Forall RunFits runs -> Forall (fun run => 0 <= snd run) runs ->
  forall (w : list Z) (m : Z),
    0 <= m <= L ->
    DoRuns (mkReceiver None L (Some w) m) runs
    = Some (mkReceiver None L (Some (w ++ firstn (Z.to_nat (L - m)) (RunsText runs)))
                       (Z.min L (m + Z.of_nat (List.length (RunsText runs))))).
Proof.
  intros Hfits. induction Hfits as [|[s k] runs Hfit _ IH]; intros Hnn w m Hm.
  - cbn [DoRuns RunsText flat_map]. rewrite firstn_nil, app_nil_r.
    do 2 f_equal. simpl. lia.
  - inversion Hnn as [|x xs Hk Hnn']; subst. cbn [snd] in Hk.
    unfold RunFits in Hfit. cbn [fst snd] in Hfit.
    specialize (IH Hnn').
    cbn [DoRuns RunsText flat_map]. fold (RunsText runs).
    unfold RunText at 1 2. cbn [fst snd].
    assert (Hlen : Z.of_nat (List.length (firstn (Z.to_nat k) s)) = k)
      by (rewrite length_firstn; lia).
    unfold DoRun, Receive_n, ClampToLimit, StoreRun. cbn [fst snd String ReceiveLimit
      NumReceived Buffer isSome andb orb].
    assert (HL : negb (L =? -1) = true) by (apply negb_true_iff, Z.eqb_neq; lia).
    rewrite HL.
    destruct (k =? 0) eqn:E0.
    + apply Z.eqb_eq in E0. subst k. rewrite IH by assumption. reflexivity.
    + apply Z.eqb_neq in E0.
      destruct (m >=? L) eqn:Efull.
      * rewrite Z.geb_leb in Efull. apply Z.leb_le in Efull.
        assert (m = L) by lia. subst m. rewrite IH by lia.
        rewrite Z.sub_diag. cbn [Z.to_nat firstn]. do 2 f_equal.
        rewrite length_app. lia.
      * rewrite Z.geb_leb in Efull. apply Z.leb_gt in Efull.
        destruct (k >? L - m) eqn:Eclamp.
        -- rewrite Z.gtb_ltb in Eclamp. apply Z.ltb_lt in Eclamp.
           replace (L - m <? 0) with false by (symmetry; apply Z.ltb_ge; lia).
           cbn [andb]. unfold Append. cbn [option_map].
           rewrite IH by lia.
           replace (L - (m + (L - m))) with 0 by lia. cbn [Z.to_nat firstn].
           rewrite app_nil_r.
           rewrite firstn_app.
           replace (Z.to_nat (L - m) - List.length (firstn (Z.to_nat k) s))%nat with 0%nat
             by (rewrite length_firstn; lia).
           cbn [firstn]. rewrite app_nil_r, firstn_firstn.
           replace (Nat.min (Z.to_nat (L - m)) (Z.to_nat k)) with (Z.to_nat (L - m)) by lia.
           do 2 f_equal. rewrite length_app. lia.
        -- rewrite Z.gtb_ltb in Eclamp. apply Z.ltb_ge in Eclamp.
           replace (k <? 0) with false by (symmetry; apply Z.ltb_ge; lia).
           cbn [andb]. unfold Append. cbn [option_map].
           rewrite IH by lia.
           rewrite firstn_app.
           replace (firstn (Z.to_nat (L - m)) (firstn (Z.to_nat k) s))
             with (firstn (Z.to_nat k) s)
             by (rewrite firstn_firstn; f_equal; lia).
           replace (Z.to_nat (L - m) - List.length (firstn (Z.to_nat k) s))%nat
             with (Z.to_nat (L - (m + k)))
             by (rewrite length_firstn; lia).
           rewrite <- app_assoc. do 2 f_equal. rewrite length_app. lia.
Qed.

Lemma StoreAt_last (stored : list Z) (n : nat) (c : Z) :
  List.length stored = S n -> StoreAt stored n c = firstn n stored ++ [c].
Proof.
  revert n. induction stored as [|x stored IH]; intros n Hn; [discriminate|].
  destruct n as [|n].
  - destruct stored; [reflexivity|discriminate].
  - cbn [StoreAt firstn app]. f_equal. apply IH. simpl in Hn. lia.
Qed.

(** The render into a buffer, and the same render into a string bound to
    [C] characters that is too short for it. *)
Lemma Process_into_bound_string (dp C : Z) (format : list Z) (argList : list Arg)
  (rb : Receiver) :
  0 <= C ->
  RunProcess dp Receiver_buffer format argList = Done rb ->
  exists out,
    rb = mkReceiver (Some out) (-1) None (Z.of_nat (List.length out))
    /\ (C <= Z.of_nat (List.length out) ->
        RunProcess dp (Receiver_string_limit C) format argList
        = Done (mkReceiver None C (Some (firstn (Z.to_nat C) out)) C)).
Proof.
  intros HC Hb. unfold RunProcess in *.
  destruct (Process_traced dp (S (List.length format)) format argList)
    as [Hnd | (runs & Hfits & E)].
  - specialize (Hnd Receiver_buffer). cbv beta in Hnd. rewrite Hb in Hnd. contradiction.
  - rewrite E in Hb. unfold Receiver_buffer in Hb.
    destruct (DoRuns (mkReceiver (Some []) (-1) None 0) runs) as [r1|] eqn:Er;
      [|discriminate].
    cbn [DoneOrFailed] in Hb. inversion Hb; subst r1. clear Hb.
    destruct (DoRuns_buffer runs Hfits [] 0 rb Er) as (Hnn & ->).
    exists (RunsText runs). split; [reflexivity|].
    intros Hlen. rewrite E. unfold Receiver_string_limit.
    rewrite (DoRuns_limited C runs Hfits Hnn [] 0) by lia.
    cbn [DoneOrFailed app]. rewrite Z.sub_0_r, Z.add_0_l.
    rewrite Z.min_l by lia. reflexivity.
Qed.

(** ** Rendering into a string of fixed capacity *)

(** C1, as the code has it: when the full render has [N > C] characters, the
    sink bound to a string of capacity [C >= 1] stops storing and stops
    counting once it has received [C] characters: [NumReceived] ends at [C],
    the string holds the first [C] characters of the render; the call puts the
    terminator where the last of them is and returns [C - 1], the number of
    characters kept in front of the terminator. *)
Theorem tvsPrintf_n_truncates :
  forall (dp C : Z) (format : list Z) (argList : list Arg) (N : Z) (out : list Z),
    1 <= C ->
    tvPrintf dp (Some format) argList = Some (N, out) ->
    C < N ->
    (exists r, RunProcess dp (Receiver_string_limit C) format argList = Done r
               /\ NumReceived r = C
               /\ String r = Some (firstn (Z.to_nat C) out))
    /\ tvsPrintf_n dp true C (Some format) argList
       = Some (C - 1, firstn (Z.to_nat (C - 1)) out ++ [0]).
Proof.
  intros dp C format argList N out HC Hfull HN.
  unfold tvPrintf in Hfull.
  destruct (RunProcess dp Receiver_buffer format argList) as [rb| |] eqn:Eb; try discriminate.
  destruct (Process_into_bound_string dp C format argList rb ltac:(lia) Eb)
    as (out' & -> & Hrun).
  cbn [Buffer GetNumReceived NumReceived] in Hfull. inversion Hfull; subst. clear Hfull.
  specialize (Hrun ltac:(lia)).
  split.
  - eexists. split; [exact Hrun|]. split; reflexivity.
  - unfold tvsPrintf_n.
    replace (C <=? 0) with false by (symmetry; apply Z.leb_gt; lia).
    destruct (C =? 1) eqn:E1; [apply Z.eqb_eq in E1; subst C; reflexivity|].
    rewrite Hrun. cbn [String GetNumReceived NumReceived].
    rewrite Z.eqb_refl.
    rewrite StoreAt_last by (rewrite length_firstn; lia).
    rewrite firstn_firstn.
    replace (Nat.min (Z.to_nat (C - 1)) (Z.to_nat C)) with (Z.to_nat (C - 1)) by lia.
    reflexivity.
Qed.

Lemma tvsPrintf_n_truncates_witness :
  1 <= 3 /\ tvPrintf 4 (Some TenDigits) [] = Some (10, TenDigits) /\ 3 < 10
  /\ tvsPrintf_n 4 true 3 (Some TenDigits) [] = Some (2, cstr "01" ++ [0]).
Proof.
  split; [lia|]. split; [reflexivity|]. split; [lia|].
  refine (proj2 (tvsPrintf_n_truncates 4 3 TenDigits [] 10 TenDigits _ _ _)).
  - lia.
  - reflexivity.
  - lia.
Defined.

(** The bound sink of capacity 3, given the render of ten characters: it ends
    with a count of 3, not 11; the call returns 2, not 10, and leaves two
    characters and the terminator in the string. *)
Lemma tvsPrintf_n_capacity_3_of_10 :
  tvPrintf 4 (Some TenDigits) [] = Some (10, TenDigits)
  /\ RunProcess 4 (Receiver_string_limit 3) TenDigits []
     = Done (mkReceiver None 3 (Some (cstr "012")) 3)
  /\ tvsPrintf_n 4 true 3 (Some TenDigits) [] = Some (2, cstr "01" ++ [0])
  /\ ~ (exists stored, tvsPrintf_n 4 true 3 (Some TenDigits) [] = Some (10, stored)).
Proof.
  assert (E : tvsPrintf_n 4 true 3 (Some TenDigits) [] = Some (2, cstr "01" ++ [0]))
    by (vm_compute; reflexivity).
  split; [vm_compute; reflexivity|]. split; [vm_compute; reflexivity|].
  split; [exact E|].
  intros (stored & H). rewrite E in H. inversion H.
Qed.

(** ** The scanner always stops *)

Lemma ParseFlags_length (format : list Z) :
  forall flags format' flags',
    ParseFlags format flags = Some (format', flags') ->
    (List.length format' <= List.length format)%nat.
Proof.
  induction format as [|c rest IH]; intros flags format' flags'; cbn [ParseFlags];
    [discriminate|].
  destruct (FlagOfCharacter c).
  - intros H. apply IH in H. simpl. lia.
  - intros H; inversion H; subst. lia.
Qed.

Lemma ParseNumber_length (format : list Z) :
  forall n format' n',
    ParseNumber format n = Some (format', n') ->
    (List.length format' <= List.length format)%nat.
Proof.
  induction format as [|c rest IH]; intros n format' n'; cbn [ParseNumber];
    [discriminate|].
  destruct (tIsdigit c).
  - intros H. apply IH in H. simpl. lia.
  - intros H; inversion H; subst. lia.
Qed.

Lemma ParseWidth_length format argList spec format' argList' spec' :
  ParseWidth format argList spec = Some (Some (format', argList', spec')) ->
  (List.length format' <= List.length format)%nat.
Proof.
  unfold ParseWidth. destruct format as [|c rest]; [discriminate|].
  destruct (negb (c =? ch "*")).
  - destruct (ParseNumber (c :: rest) (Width spec)) as [[f w]|] eqn:E; [|discriminate].
    intros H; inversion H; subst. eapply ParseNumber_length. eassumption.
  - destruct (va_arg_int argList) as [[w a]|]; [|discriminate].
    intros H; inversion H; subst. simpl. lia.
Qed.

Lemma ParsePrecision_length format argList spec format' argList' spec' :
  ParsePrecision format argList spec = Some (Some (format', argList', spec')) ->
  (List.length format' <= List.length format)%nat.
Proof.
  unfold ParsePrecision. destruct format as [|c rest]; [discriminate|].
  destruct (c =? ch ".").
  - destruct rest as [|c' rest']; [discriminate|].
    destruct (negb (c' =? ch "*")).
    + destruct (ParseNumber (c' :: rest') _) as [[f w]|] eqn:E; [|discriminate].
      intros H; inversion H; subst. apply ParseNumber_length in E. simpl in *. lia.
    + destruct (va_arg_int argList) as [[w a]|]; [|discriminate].
      intros H; inversion H; subst. simpl. lia.
  - intros H; inversion H; subst. lia.
Qed.

Lemma ParseTypeSize_length format spec format' spec' :
  ParseTypeSize format spec = Some (format', spec') ->
  (List.length format' <= List.length format)%nat.
Proof.
  unfold ParseTypeSize. destruct format as [|c rest]; [discriminate|].
  destruct ((c =? ch ":") || (c =? ch "!") || (c =? ch "|")).
  - destruct (ParseNumber rest 0) as [[f n]|] eqn:E; [|discriminate].
    intros H; inversion H; subst. apply ParseNumber_length in E. simpl. lia.
  - intros H; inversion H; subst. lia.
Qed.

Lemma ParseSpec_length format argList format' argList' spec' :
  ParseSpec format argList = inr (format', argList', spec') ->
  (List.length format' <= List.length format)%nat.
Proof.
  unfold ParseSpec, ParseSpecHead.
  destruct (ParseFlags format (Flags FormatSpec_default)) as [[f1 flags]|] eqn:E1;
    [|discriminate].
  match goal with |- context [ParseWidth f1 argList ?s] =>
    destruct (ParseWidth f1 argList s) as [[[[f2 a2] s2]|]|] eqn:E2; try discriminate end.
  destruct (ParsePrecision f2 a2 s2) as [[[[f3 a3] s3]|]|] eqn:E3; try discriminate.
  destruct (ParseTypeSize f3 s3) as [[f4 s4]|] eqn:E4; [|discriminate].
  intros H; inversion H; subst.
  apply ParseFlags_length in E1. apply ParseWidth_length in E2.
  apply ParsePrecision_length in E3. apply ParseTypeSize_length in E4. lia.
Qed.

Lemma ProcessDirective_length dp r format argList r' format' argList' :
  ProcessDirective dp r format argList = inr (r', format', argList') ->
  (List.length format' < List.length format)%nat.
Proof.
  unfold ProcessDirective.
  destruct (ParseSpec format argList) as [why|[[f a] spec]] eqn:E; [discriminate|].
  destruct f as [|type rest]; [discriminate|].
  destruct (FindHandler dp type) as [h|]; [|discriminate].
  destruct (va_arg_val _ _ a) as [[[pval|] a']|]; try discriminate.
  destruct (Handler h r _ pval); [|discriminate].
  intros H; inversion H; subst. apply ParseSpec_length in E. simpl in E. lia.
Qed.

(** Whatever the format and the arguments, the [while] of [Process] takes no
    more turns than the storage of the format has characters: the scan
    reaches a terminator, or it is followed no further, which is also where
    a handler does not come back. *)
Lemma Process_enough_fuel (dp : Z) (fuel : nat) :
  forall (r : Receiver) (format : list Z) (argList : list Arg),
    (List.length format < fuel)%nat ->
    Process dp fuel r format argList <> OutOfFuel.
Proof.
  induction fuel as [|fuel IH]; intros r format argList Hlen; [lia|].
  cbn [Process]. destruct format as [|c0 rest]; [discriminate|].
  simpl in Hlen.
  destruct (c0 =? 0); [discriminate|].
  destruct (negb (c0 =? ch "%")); [apply IH; lia|].
  destruct rest as [|c1 rest']; [discriminate|]. simpl in Hlen.
  destruct (negb (IsValidFormatSpecifierCharacter dp c1)); [apply IH; lia|].
  destruct (ProcessDirective dp r (c1 :: rest') argList) as [why|[[r' f'] a']] eqn:E;
    [discriminate|].
  apply ProcessDirective_length in E. simpl in E. apply IH. lia.
Qed.

Lemma RunProcess_stops (dp : Z) (r : Receiver) (format : list Z) (argList : list Arg) :
  RunProcess dp r format argList <> OutOfFuel.
Proof. unfold RunProcess. apply Process_enough_fuel. lia. Qed.

(** ** The digit loop has fuel enough *)

(** With a base of at least 2 and a value below [2 ^ k], the loop ends within
    [max precision 0 + k] turns: more fuel changes nothing.  The helpers give
    it that much, with 64 and 512 for [k]. *)
Lemma DigitLoop_fuel (base offset : Z) :
  2 <= base ->
  forall (fuel k : nat) (precision rawValue : Z) (curr : list Z),
    0 <= rawValue < 2 ^ Z.of_nat k ->
    (Z.to_nat (Z.max precision 0) + k <= fuel)%nat ->
    DigitLoop (S fuel) precision rawValue base offset curr
    = DigitLoop fuel precision rawValue base offset curr.
Proof.
  intros Hbase. induction fuel as [|fuel IH]; intros k precision rawValue curr Hraw Hfuel.
  - assert (k = 0%nat) by lia. subst k.
    assert (rawValue = 0) by (simpl in Hraw; lia). subst rawValue.
    cbn [DigitLoop].
    replace (precision >? 0) with false by (symmetry; rewrite Z.gtb_ltb; apply Z.ltb_ge; lia).
    reflexivity.
  - cbn [DigitLoop].
    destruct ((precision >? 0) || negb (rawValue =? 0)) eqn:Econd; [|reflexivity].
    assert (Hdiv : 0 <= rawValue / base) by (apply Z.div_pos; lia).
    destruct (precision >? 0) eqn:Ep.
    + rewrite Z.gtb_ltb in Ep. apply Z.ltb_lt in Ep.
      apply (IH k); [|lia].
      split; [assumption|].
      apply Z.le_lt_trans with rawValue; [|lia].
      apply Z.div_le_upper_bound; nia.
    + rewrite Z.gtb_ltb in Ep. apply Z.ltb_ge in Ep.
      cbn [orb] in Econd. apply negb_true_iff, Z.eqb_neq in Econd.
      destruct k as [|k]; [simpl in Hraw; lia|].
      apply (IH k); [|lia].
      split; [assumption|].
      rewrite Nat2Z.inj_succ, Z.pow_succ_r in Hraw by lia.
      apply Z.div_lt_upper_bound; nia.
Qed.

(** ** One text, whatever the calls that deliver it *)

Lemma Bound_Emit (r : Receiver) (text : list Z) : Bound (Emit r text) = Bound r.
Proof. destruct r as [b l [w|] n]; reflexivity. Qed.

Lemma Deliver_nil (r : Receiver) : Deliver r [] = r.
Proof.
  unfold Deliver. rewrite firstn_nil, Emit_nil.
  destruct (Bound r); [destruct (NumReceived r >=? ReceiveLimit r)|]; reflexivity.
Qed.

Lemma Deliver_unbound (r : Receiver) (text : list Z) :
  Bound r = false -> Deliver r text = Emit r text.
Proof. unfold Deliver. intros ->. reflexivity. Qed.

Lemma Receive_Deliver (r : Receiver) (c : Z) : Receive r c = Deliver r [c].
Proof.
  unfold Receive, Deliver. fold (Bound r).
  destruct (Bound r); cbn [andb]; [|reflexivity].
  destruct (NumReceived r >=? ReceiveLimit r) eqn:E; [reflexivity|].
  rewrite Z.geb_leb in E. apply Z.leb_gt in E.
  replace (Z.to_nat (ReceiveLimit r - NumReceived r))
    with (S (Z.to_nat (ReceiveLimit r - NumReceived r - 1))) by lia.
  cbn [firstn]. rewrite firstn_nil. reflexivity.
Qed.

Lemma Receive_n_Deliver (r : Receiver) (s : list Z) (n : Z) :
  0 <= n <= Z.of_nat (List.length s) ->
  Receive_n r (Some s) n = Some (Deliver r (firstn (Z.to_nat n) s)).
Proof.
  intros Hn. unfold Receive_n.
  destruct (n =? 0) eqn:E0.
  - apply Z.eqb_eq in E0. subst n. cbn [Z.to_nat firstn]. rewrite Deliver_nil. reflexivity.
  - apply Z.eqb_neq in E0. unfold ClampToLimit, Deliver. fold (Bound r).
    destruct (Bound r).
    + destruct (NumReceived r >=? ReceiveLimit r) eqn:Efull; [reflexivity|].
      rewrite Z.geb_leb in Efull. apply Z.leb_gt in Efull.
      rewrite firstn_firstn. unfold StoreRun, Emit.
      destruct (n >? ReceiveLimit r - NumReceived r) eqn:Ec;
        rewrite Z.gtb_ltb in Ec; [apply Z.ltb_lt in Ec|apply Z.ltb_ge in Ec].
      * replace (ReceiveLimit r - NumReceived r <? 0) with false
          by (symmetry; apply Z.ltb_ge; lia).
        cbn [andb].
        replace (Nat.min (Z.to_nat (ReceiveLimit r - NumReceived r)) (Z.to_nat n))
          with (Z.to_nat (ReceiveLimit r - NumReceived r)) by lia.
        do 2 f_equal. rewrite length_firstn. lia.
      * replace (n <? 0) with false by (symmetry; apply Z.ltb_ge; lia).
        cbn [andb].
        replace (Nat.min (Z.to_nat (ReceiveLimit r - NumReceived r)) (Z.to_nat n))
          with (Z.to_nat n) by lia.
        do 2 f_equal. rewrite length_firstn. lia.
    + unfold StoreRun, Emit.
      replace (n <? 0) with false by (symmetry; apply Z.ltb_ge; lia).
      cbn [andb]. do 2 f_equal. rewrite length_firstn. lia.
Qed.

Lemma Receive_buf_Deliver (r : Receiver) (buf : list Z) :
  Receive_buf r buf = Some (Deliver r buf).
Proof.
  unfold Receive_buf. rewrite Receive_n_Deliver by lia.
  rewrite Nat2Z.id, firstn_all. reflexivity.
Qed.

Lemma Receive_str_as_n (r : Receiver) (s : list Z) :
  Receive_str r (Some s) = Receive_n r (Some s) (tStrlen s).
Proof.
  pose proof (tStrlen_bounds s) as Hs.
  unfold Receive_str, Receive_n, ClampToLimit. fold (Bound r).
  destruct (tStrlen s =? 0) eqn:E0.
  - apply Z.eqb_eq in E0. rewrite E0.
    destruct (Bound r); [|reflexivity].
    destruct (NumReceived r >=? ReceiveLimit r) eqn:Efull; [reflexivity|].
    rewrite Z.geb_leb in Efull. apply Z.leb_gt in Efull.
    replace (0 >? ReceiveLimit r - NumReceived r) with false
      by (symmetry; rewrite Z.gtb_ltb; apply Z.ltb_ge; lia).
    reflexivity.
  - apply Z.eqb_neq in E0.
    destruct (Bound r).
    + destruct (NumReceived r >=? ReceiveLimit r) eqn:Efull; [reflexivity|].
      rewrite Z.geb_leb in Efull. apply Z.leb_gt in Efull.
      destruct (tStrlen s >? ReceiveLimit r - NumReceived r).
      * replace (ReceiveLimit r - NumReceived r =? 0) with false
          by (symmetry; apply Z.eqb_neq; lia).
        reflexivity.
      * replace (tStrlen s =? 0) with false by (symmetry; apply Z.eqb_neq; lia).
        reflexivity.
    + replace (tStrlen s =? 0) with false by (symmetry; apply Z.eqb_neq; lia).
      reflexivity.
Qed.

Lemma Deliver_app (r : Receiver) (a b : list Z) :
  Deliver (Deliver r a) b = Deliver r (a ++ b).
Proof.
  unfold Deliver at 2 3.
  destruct (Bound r) eqn:Eb.
  - destruct (NumReceived r >=? ReceiveLimit r) eqn:Efull.
    + unfold Deliver. rewrite Eb, Efull. reflexivity.
    + rewrite Z.geb_leb in Efull. apply Z.leb_gt in Efull.
      unfold Deliver. rewrite Bound_Emit, Eb.
      set (room := Z.to_nat (ReceiveLimit r - NumReceived r)).
      cbn [Emit NumReceived ReceiveLimit].
      rewrite firstn_app.
      destruct (Nat.le_gt_cases room (List.length a)) as [Hle|Hgt].
      * rewrite length_firstn.
        replace (NumReceived r + Z.of_nat (Nat.min room (List.length a)) >=? ReceiveLimit r)
          with true by (symmetry; rewrite Z.geb_leb; apply Z.leb_le; lia).
        replace (room - List.length a)%nat with 0%nat by lia.
        cbn [firstn]. rewrite app_nil_r. reflexivity.
      * rewrite length_firstn.
        replace (NumReceived r + Z.of_nat (Nat.min room (List.length a)) >=? ReceiveLimit r)
          with false by (symmetry; rewrite Z.geb_leb; apply Z.leb_gt; lia).
        rewrite Emit_app. do 2 f_equal.
        replace (Z.to_nat (ReceiveLimit r - (NumReceived r + Z.of_nat (Nat.min room (List.length a)))))
          with (room - List.length a)%nat by lia.
        reflexivity.
  - rewrite Deliver_unbound by (rewrite Bound_Emit; assumption).
    apply Emit_app.
Qed.

Lemma ReceiveMany_Deliver (n : nat) (c : Z) :
  forall r, ReceiveMany n c r = Deliver r (repeat c n).
Proof.
  induction n as [|n IH]; intros r; cbn [ReceiveMany repeat].
  - rewrite Deliver_nil. reflexivity.
  - rewrite IH, Receive_Deliver, Deliver_app. reflexivity.
Qed.

Lemma DoRuns_Deliver (runs : list Run) :
  Forall RunFits runs -> Forall (fun run => 0 <= snd run) runs ->
  forall r, DoRuns r runs = Some (Deliver r (RunsText runs)).
Proof.
  induction 1 as [|[s k] runs Hfit _ IH]; intros Hnn r.
  - cbn [DoRuns RunsText flat_map]. rewrite Deliver_nil. reflexivity.
  - inversion Hnn as [|x xs Hk Hnn']; subst. cbn [snd] in Hk.
    unfold RunFits in Hfit. cbn [fst snd] in Hfit.
    cbn [DoRuns RunsText flat_map]. fold (RunsText runs).
    unfold DoRun, RunText. cbn [fst snd].
    rewrite Receive_n_Deliver by lia.
    rewrite IH by assumption. rewrite Deliver_app. reflexivity.
Qed.

(** A render that comes to its end has passed the terminator on as its last
    character. *)
Lemma Process_Done_last (dp : Z) (fuel : nat) :
  forall (r : Receiver) (format : list Z) (argList : list Arg) (r' : Receiver),
    Process dp fuel r format argList = Done r' -> exists r0, r' = Receive r0 0.
Proof.
  induction fuel as [|fuel IH]; intros r format argList r'; cbn [Process]; [discriminate|].
  destruct format as [|c0 rest]; [discriminate|].
  destruct (c0 =? 0).
  - intros H; inversion H. eexists. reflexivity.
  - destruct (negb (c0 =? ch "%")); [apply IH|].
    destruct rest as [|c1 rest']; [discriminate|].
    destruct (negb (IsValidFormatSpecifierCharacter dp c1)); [apply IH|].
    destruct (ProcessDirective dp r (c1 :: rest') argList) as [why|[[r1 f1] a1]];
      [discriminate|apply IH].
Qed.

(** The render into a growing buffer tells what every other sink gets. *)
Lemma Process_Deliver (dp : Z) (format : list Z) (argList : list Arg) (rb : Receiver) :
  RunProcess dp Receiver_buffer format argList = Done rb ->
  exists text,
    rb = mkReceiver (Some (text ++ [0])) (-1) None (Z.of_nat (List.length text) + 1)
    /\ forall r, RunProcess dp r format argList = Done (Deliver r (text ++ [0])).
Proof.
  intros Hb.
  destruct (Process_Done_last _ _ _ _ _ _ Hb) as (r0 & Hlast).
  unfold RunProcess in *.
  destruct (Process_traced dp (S (List.length format)) format argList)
    as [Hnd | (runs & Hfits & E)].
  - specialize (Hnd Receiver_buffer). cbv beta in Hnd. rewrite Hb in Hnd. contradiction.
  - rewrite E in Hb. unfold Receiver_buffer in Hb.
    destruct (DoRuns (mkReceiver (Some []) (-1) None 0) runs) as [r1|] eqn:Er;
      [|discriminate].
    cbn [DoneOrFailed] in Hb. inversion Hb; subst r1. clear Hb.
    destruct (DoRuns_buffer runs Hfits [] 0 rb Er) as (Hnn & Hrb).
    cbn [app] in Hrb. rewrite Z.add_0_l in Hrb.
    assert (Hout : exists text, RunsText runs = text ++ [0]).
    { rewrite Hrb in Hlast. unfold Receive in Hlast.
      destruct r0 as [b0 l0 w0 n0]. cbn [Buffer ReceiveLimit String NumReceived] in Hlast.
      destruct (isSome w0 && negb (l0 =? -1) && (n0 >=? l0)) eqn:Ec.
      - inversion Hlast; subst. discriminate Ec.
      - inversion Hlast as [[Hbuf Hl Hw Hn]].
        destruct b0 as [b0|]; [|discriminate Hbuf].
        cbn in Hbuf. inversion Hbuf as [Hb0]. exists b0. exact Hb0. }
    destruct Hout as (text & Hout).
    exists text. split.
    + rewrite Hrb, Hout. f_equal. rewrite length_app. simpl. lia.
    + intros r. rewrite E, (DoRuns_Deliver runs Hfits Hnn), Hout. reflexivity.
Qed.

(** X1: the four [Receive] overloads deliver text in one and the same way.
    A character counts as the text of that one character, a C string as the
    characters in front of its terminator, a counted run as its first
    [numChars] characters, an array as its elements; and what two deliveries
    in a row leave in the sink, bound or not, full or not, is what the single
    delivery of the two texts joined leaves. *)
Theorem Receive_overloads_deliver_one_text :
  forall (r : Receiver),
    (forall c, Receive r c = Deliver r [c])
    /\ (forall s, Receive_str r (Some s) = Some (Deliver r (firstn (Z.to_nat (tStrlen s)) s)))
    /\ (forall s n, 0 <= n <= Z.of_nat (List.length s) ->
                    Receive_n r (Some s) n = Some (Deliver r (firstn (Z.to_nat n) s)))
    /\ (forall buf, Receive_buf r buf = Some (Deliver r buf))
    /\ (forall a b, Deliver (Deliver r a) b = Deliver r (a ++ b)).
Proof.
  intros r. split; [|split; [|split; [|split]]].
  - apply Receive_Deliver.
  - intros s. rewrite Receive_str_as_n. apply Receive_n_Deliver. apply tStrlen_bounds.
  - intros s n Hn. apply Receive_n_Deliver. assumption.
  - apply Receive_buf_Deliver.
  - apply Deliver_app.
Qed.

(** X2: the text that [Process] renders does not depend on the sink.  When
    the render into a growing buffer comes to its end, the buffer holds a
    text that ends with the terminator, the count is its length, and the
    same format and arguments on any other sink come to their end too, with
    that same text delivered to the sink. *)
Theorem Process_renders_one_text_for_every_sink :
  forall (dp : Z) (format : list Z) (argList : list Arg) (rb : Receiver),
    RunProcess dp Receiver_buffer format argList = Done rb ->
    exists text,
      Buffer rb = Some (text ++ [0])
      /\ NumReceived rb = Z.of_nat (List.length text) + 1
      /\ forall r, RunProcess dp r format argList = Done (Deliver r (text ++ [0])).
Proof.
  intros dp format argList rb Hb.
  destruct (Process_Deliver dp format argList rb Hb) as (text & -> & Hall).
  exists text. split; [reflexivity|]. split; [reflexivity|]. exact Hall.
Qed.

Lemma Process_renders_one_text_for_every_sink_witness :
  RunProcess 4 Receiver_buffer CountFormat CountArgs
  = Done (mkReceiver (Some (cstr "n=42" ++ [0])) (-1) None 5)
  /\ exists text,
      Some (cstr "n=42" ++ [0]) = Some (text ++ [0])
      /\ 5 = Z.of_nat (List.length text) + 1
      /\ forall r, RunProcess 4 r CountFormat CountArgs = Done (Deliver r (text ++ [0])).
Proof.
  split; [vm_compute; reflexivity|].
  refine (Process_renders_one_text_for_every_sink 4 CountFormat CountArgs
            (mkReceiver (Some (cstr "n=42" ++ [0])) (-1) None 5) _).
  vm_compute; reflexivity.
Defined.

(** X3: the entry points agree on the count.  When [tvPrintf] renders [out]
    and returns [N], then [out] is [N] characters and the terminator,
    [tvcPrintf], which only counts, returns [N], and [tvsPrintf] into a
    string without bound returns [N] and stores [out].  (These are the two
    counts that the assertion [baseWritten == baseNeeded] of [tFtostr] and
    [tDtostr] compares.) *)
Theorem printf_entry_points_agree :
  forall (dp : Z) (format : list Z) (argList : list Arg) (N : Z) (out : list Z),
    tvPrintf dp (Some format) argList = Some (N, out) ->
    Z.of_nat (List.length out) = N + 1
    /\ (exists text, out = text ++ [0])
    /\ tvcPrintf dp (Some format) argList = Some N
    /\ tvsPrintf dp true (Some format) argList = Some (N, out).
Proof.
  intros dp format argList N out Hfull.
  unfold tvPrintf in Hfull.
  destruct (RunProcess dp Receiver_buffer format argList) as [rb| |] eqn:Eb; try discriminate.
  destruct (Process_Deliver dp format argList rb Eb) as (text & -> & Hall).
  cbn [Buffer GetNumReceived NumReceived] in Hfull. inversion Hfull; subst. clear Hfull.
  split; [rewrite length_app; simpl; lia|].
  split; [exists text; reflexivity|].
  split.
  - unfold tvcPrintf. rewrite Hall. cbn. f_equal. rewrite length_app. simpl. lia.
  - unfold tvsPrintf. rewrite Hall. cbn. do 2 f_equal. rewrite length_app. simpl. lia.
Qed.

Lemma printf_entry_points_agree_witness :
  tvPrintf 4 (Some CountFormat) CountArgs = Some (4, cstr "n=42" ++ [0])
  /\ tvcPrintf 4 (Some CountFormat) CountArgs = Some 4
  /\ tvsPrintf 4 true (Some CountFormat) CountArgs = Some (4, cstr "n=42" ++ [0]).
Proof.
  split; [vm_compute; reflexivity|].
  refine (proj2 (proj2 (printf_entry_points_agree 4 CountFormat CountArgs 4
                          (cstr "n=42" ++ [0]) _))).
  vm_compute; reflexivity.
Defined.

(** X4: what [tvsPrintf] into a string of capacity [C >= 1] returns and
    stores, whatever the length [N] of the full render: it returns
    [min N (C - 1)] and stores that many characters of the render followed
    by the terminator, so what it stores always is a terminated string that
    fits the capacity. *)
Theorem tvsPrintf_n_keeps_what_fits :
  forall (dp C : Z) (format : list Z) (argList : list Arg) (N : Z) (out : list Z),
    1 <= C ->
    tvPrintf dp (Some format) argList = Some (N, out) ->
    let kept := Z.min N (C - 1) in
    tvsPrintf_n dp true C (Some format) argList
    = Some (kept, firstn (Z.to_nat kept) out ++ [0])
    /\ Z.of_nat (List.length (firstn (Z.to_nat kept) out ++ [0])) <= C.
Proof.
  intros dp C format argList N out HC Hfull kept.
  unfold tvPrintf in Hfull.
  destruct (RunProcess dp Receiver_buffer format argList) as [rb| |] eqn:Eb; try discriminate.
  destruct (Process_Deliver dp format argList rb Eb) as (text & -> & Hall).
  cbn [Buffer GetNumReceived NumReceived] in Hfull. inversion Hfull; subst N out. clear Hfull.
  assert (Hkept : 0 <= kept <= C - 1) by (subst kept; lia).
  split.
  2:{ rewrite length_app, length_firstn. simpl. lia. }
  unfold tvsPrintf_n.
  replace (C <=? 0) with false by (symmetry; apply Z.leb_gt; lia).
  destruct (C =? 1) eqn:E1.
  { apply Z.eqb_eq in E1. subst C. assert (kept = 0) by lia.
    replace kept with 0. reflexivity. }
  apply Z.eqb_neq in E1.
  rewrite Hall. unfold Deliver, Bound, Receiver_string_limit.
  cbn [String ReceiveLimit NumReceived isSome andb].
  replace (negb (C =? -1)) with true by (symmetry; apply negb_true_iff, Z.eqb_neq; lia).
  replace (0 >=? C) with false by (symmetry; rewrite Z.geb_leb; apply Z.leb_gt; lia).
  unfold Emit. cbn [String ReceiveLimit NumReceived Buffer Append option_map app
                    GetNumReceived].
  rewrite Z.sub_0_r, Z.add_0_l, length_firstn, length_app. cbn [List.length].
  set (n := List.length text).
  destruct (C =? Z.of_nat (Nat.min (Z.to_nat C) (n + 1))) eqn:Efull.
  - apply Z.eqb_eq in Efull.
    rewrite StoreAt_last by (rewrite length_firstn, length_app; simpl; lia).
    rewrite firstn_firstn.
    replace (Z.of_nat (Nat.min (Z.to_nat C) (n + 1)) - 1) with kept by (subst kept n; lia).
    replace (Nat.min (Z.to_nat kept) (Z.to_nat C)) with (Z.to_nat kept) by lia.
    reflexivity.
  - apply Z.eqb_neq in Efull.
    assert (Hlt : Z.of_nat n + 1 < C) by lia.
    replace (Z.of_nat (Nat.min (Z.to_nat C) (n + 1)) - 1) with kept by (subst kept n; lia).
    assert (Hk : kept = Z.of_nat n) by (subst kept n; lia).
    rewrite Hk, Nat2Z.id.
    rewrite firstn_all2 by (rewrite length_app; simpl; lia).
    subst n. rewrite firstn_app, firstn_all.
    rewrite Nat.sub_diag. cbn [firstn]. rewrite app_nil_r. reflexivity.
Qed.

Lemma tvsPrintf_n_keeps_what_fits_witness :
  1 <= 8 /\ tvPrintf 4 (Some CountFormat) CountArgs = Some (4, cstr "n=42" ++ [0])
  /\ tvsPrintf_n 4 true 8 (Some CountFormat) CountArgs = Some (4, cstr "n=42" ++ [0])
  /\ tvsPrintf_n 4 true 5 (Some CountFormat) CountArgs = Some (4, cstr "n=42" ++ [0])
  /\ tvsPrintf_n 4 true 4 (Some CountFormat) CountArgs = Some (3, cstr "n=4" ++ [0]).
Proof.
  split; [lia|]. split; [vm_compute; reflexivity|].
  split; [|split].
  - refine (proj1 (tvsPrintf_n_keeps_what_fits 4 8 CountFormat CountArgs 4
                     (cstr "n=42" ++ [0]) _ _)); [lia|vm_compute; reflexivity].
  - refine (proj1 (tvsPrintf_n_keeps_what_fits 4 5 CountFormat CountArgs 4
                     (cstr "n=42" ++ [0]) _ _)); [lia|vm_compute; reflexivity].
  - refine (proj1 (tvsPrintf_n_keeps_what_fits 4 4 CountFormat CountArgs 4
                     (cstr "n=42" ++ [0]) _ _)); [lia|vm_compute; reflexivity].
Defined.

(** ** The scanner: turns and literal text *)

Lemma Process_more_fuel (dp : Z) (fuel : nat) :
  forall (r : Receiver) (format : list Z) (argList : list Arg),
    (List.length format < fuel)%nat ->
    Process dp (S fuel) r format argList = Process dp fuel r format argList.
Proof.
  induction fuel as [|fuel IH]; intros r format argList Hlen; [lia|].
  change (Process dp (S (S fuel)) r format argList)
    with (match format with
          | [] => Stopped BadRead
          | c0 :: rest =>
              if c0 =? 0 then Done (Receive r 0)
              else if negb (c0 =? ch "%") then Process dp (S fuel) (Receive r c0) rest argList
              else
                match rest with
                | [] => Stopped BadRead
                | c1 :: rest' =>
                    if negb (IsValidFormatSpecifierCharacter dp c1)
                    then Process dp (S fuel) (Receive r c1) rest' argList
                    else
                      match ProcessDirective dp r rest argList with
                      | inl why => Stopped why
                      | inr (receiver, format, argList) =>
                          Process dp (S fuel) receiver format argList
                      end
                end
          end).
  change (Process dp (S fuel) r format argList)
    with (match format with
          | [] => Stopped BadRead
          | c0 :: rest =>
              if c0 =? 0 then Done (Receive r 0)
              else if negb (c0 =? ch "%") then Process dp fuel (Receive r c0) rest argList
              else
                match rest with
                | [] => Stopped BadRead
                | c1 :: rest' =>
                    if negb (IsValidFormatSpecifierCharacter dp c1)
                    then Process dp fuel (Receive r c1) rest' argList
                    else
                      match ProcessDirective dp r rest argList with
                      | inl why => Stopped why
                      | inr (receiver, format, argList) =>
                          Process dp fuel receiver format argList
                      end
                end
          end).
  destruct format as [|c0 rest]; [reflexivity|]. simpl in Hlen.
  destruct (c0 =? 0); [reflexivity|].
  destruct (negb (c0 =? ch "%")); [apply IH; lia|].
  destruct rest as [|c1 rest']; [reflexivity|]. simpl in Hlen.
  destruct (negb (IsValidFormatSpecifierCharacter dp c1)); [apply IH; lia|].
  destruct (ProcessDirective dp r (c1 :: rest') argList) as [why|[[r' f'] a']] eqn:E;
    [reflexivity|].
  apply ProcessDirective_length in E. simpl in E. apply IH. lia.
Qed.

Lemma Process_fuel_add (dp : Z) (k fuel : nat) (r : Receiver) (format : list Z)
  (argList : list Arg) :
  (List.length format < fuel)%nat ->
  Process dp (k + fuel) r format argList = Process dp fuel r format argList.
Proof.
  intros Hlen. induction k as [|k IH]; [reflexivity|].
  change (S k + fuel)%nat with (S (k + fuel)).
  rewrite Process_more_fuel by lia. exact IH.
Qed.

Lemma Process_literal (dp : Z) (rest : list Z) (argList : list Arg) (fuel : nat)
  (text : list Z) :
  Forall Literal text ->
  forall r, Process dp (List.length text + fuel) r (text ++ rest) argList
            = Process dp fuel (Deliver r text) rest argList.
Proof.
  induction 1 as [|c text [Hc0 Hcp] _ IH]; intros r.
  - rewrite Deliver_nil. reflexivity.
  - cbn [List.length Nat.add app Process].
    apply Z.eqb_neq in Hc0, Hcp. rewrite Hc0, Hcp. cbn [negb].
    rewrite IH, Receive_Deliver, Deliver_app. reflexivity.
Qed.

(** X6: literal text renders itself.  Characters of the format that are
    neither the terminator nor a percent sign go to the sink as they are, the
    arguments untouched: scanning [text ++ rest] is scanning [rest] with
    [text] already delivered; and a format that is literal text up to its
    terminator delivers itself, terminator included, whatever the
    arguments. *)
Theorem literal_text_renders_itself :
  forall (dp : Z) (r : Receiver) (text rest : list Z) (argList : list Arg),
    Forall Literal text ->
    RunProcess dp r (text ++ rest) argList = RunProcess dp (Deliver r text) rest argList
    /\ RunProcess dp r (text ++ [0]) argList = Done (Deliver r (text ++ [0])).
Proof.
  intros dp r text rest argList Hlit.
  assert (Hgen : forall rest', RunProcess dp r (text ++ rest') argList
                               = RunProcess dp (Deliver r text) rest' argList).
  { intros rest'. unfold RunProcess. rewrite length_app.
    replace (S (List.length text + List.length rest'))
      with (List.length text + S (List.length rest'))%nat by lia.
    apply Process_literal. assumption. }
  split; [apply Hgen|].
  rewrite Hgen. unfold RunProcess. cbn [List.length Process]. rewrite Z.eqb_refl.
  rewrite Receive_Deliver, Deliver_app. reflexivity.
Qed.

Lemma literal_text_renders_itself_witness :
  Forall Literal (cstr "n=")
  /\ RunProcess 4 Receiver_buffer (cstr "n=" ++ cstr "%d" ++ [0]) CountArgs
     = RunProcess 4 (Deliver Receiver_buffer (cstr "n=")) (cstr "%d" ++ [0]) CountArgs.
Proof.
  assert (Hlit : Forall Literal (cstr "n="))
    by (repeat constructor; unfold ch; simpl; lia).
  split; [exact Hlit|].
  exact (proj1 (literal_text_renders_itself 4 Receiver_buffer (cstr "n=") (cstr "%d" ++ [0])
                  CountArgs Hlit)).
Defined.

(** ** The handler table and its jump table *)

Lemma SearchHandler_SpecChar (c : Z) (hs : list HandlerInfo) (h : HandlerInfo) :
  SearchHandler c hs = Some h -> SpecChar h = c.
Proof.
  induction hs as [|x hs IH]; cbn [SearchHandler]; [discriminate|].
  destruct (SpecChar x =? c) eqn:E.
  - intros H; inversion H; subst. apply Z.eqb_eq. assumption.
  - exact IH.
Qed.

Lemma SearchHandler_first (hs : list HandlerInfo) (h : HandlerInfo) :
  NoDup (map SpecChar hs) -> In h hs -> SearchHandler (SpecChar h) hs = Some h.
Proof.
  induction hs as [|x hs IH]; intros Hnd Hin; [contradiction|].
  cbn [map] in Hnd. inversion Hnd as [|y ys Hx Hnd']; subst.
  cbn [SearchHandler]. destruct Hin as [->|Hin].
  - rewrite Z.eqb_refl. reflexivity.
  - destruct (SpecChar x =? SpecChar h) eqn:E.
    + apply Z.eqb_eq in E. exfalso. apply Hx. rewrite E. apply in_map. assumption.
    + apply IH; assumption.
Qed.

Lemma TypeCharacters_NoDup (dp : Z) : NoDup (map SpecChar (HandlerInfos dp)).
Proof.
  change (map SpecChar (HandlerInfos dp)) with TypeCharacters.
  unfold TypeCharacters. cbn [cstr].
  repeat (constructor; [cbn [In]; unfold ch; cbn; intuition discriminate|]).
  constructor.
Qed.

Lemma FindHandler_full_search (dp c : Z) :
  FindHandler dp c = if c =? 0 then None else SearchHandler c (HandlerInfos dp).
Proof.
  unfold FindHandler. destruct (c =? 0); [reflexivity|].
  set (index := nth (Z.to_nat c) HandlerJumpTable (-1)).
  destruct ((index <? NumHandlers dp) && (index >=? 0)); [|reflexivity].
  destruct (nth_error (HandlerInfos dp) (Z.to_nat index)) as [h|] eqn:En; [|reflexivity].
  destruct (SpecChar h =? c) eqn:Eh; [|reflexivity].
  apply Z.eqb_eq in Eh. subst c. symmetry.
  apply SearchHandler_first; [apply TypeCharacters_NoDup|].
  eapply nth_error_In. eassumption.
Qed.

Lemma JumpTable_checked (dp : Z) :
  forallb (fun k => nth k HandlerJumpTable (-1) =? TableIndex (Z.of_nat k) (HandlerInfos dp) 0)
          (seq 0 256) = true.
Proof. vm_compute. reflexivity. Qed.

(** X7: the jump table is filled in as its comment asks, and [FindHandler]
    does not depend on it.  For every character code [c] below 256 the entry
    [HandlerJumpTable[c]] is the position in [HandlerInfos] of the handler
    whose type character is [c], and [-1] when there is none; whatever the
    shortcut finds, [FindHandler] returns what the full search of the table
    returns (nothing for the null character), and a handler it returns has
    [c] as its type character. *)
Theorem FindHandler_jump_table_agrees_with_the_table :
  forall (dp c : Z),
    0 <= c < 256 ->
    nth (Z.to_nat c) HandlerJumpTable (-1) = TableIndex c (HandlerInfos dp) 0
    /\ FindHandler dp c = (if c =? 0 then None else SearchHandler c (HandlerInfos dp))
    /\ (forall h, FindHandler dp c = Some h -> SpecChar h = c /\ In h (HandlerInfos dp)).
Proof.
  intros dp c Hc. split; [|split].
  - pose proof (JumpTable_checked dp) as Hall.
    rewrite forallb_forall in Hall.
    specialize (Hall (Z.to_nat c)).
    rewrite Z2Nat.id in Hall by lia.
    apply Z.eqb_eq. apply Hall. apply in_seq. lia.
  - apply FindHandler_full_search.
  - intros h Hh. split; [|eapply FindHandler_In; eassumption].
    rewrite FindHandler_full_search in Hh.
    destruct (c =? 0); [discriminate|].
    eapply SearchHandler_SpecChar. eassumption.
Qed.

Lemma FindHandler_jump_table_agrees_with_the_table_witness :
  0 <= ch "x" < 256
  /\ nth (Z.to_nat (ch "x")) HandlerJumpTable (-1) = TableIndex (ch "x") (HandlerInfos 4) 0.
Proof.
  assert (Hc : 0 <= ch "x" < 256) by (unfold ch; simpl; lia).
  split; [exact Hc|].
  exact (proj1 (FindHandler_jump_table_agrees_with_the_table 4 (ch "x") Hc)).
Defined.

(** ** The scanner: flags *)

Lemma has_lor (a b F : Z) : has (Z.lor a b) F = has a F || has b F.
Proof.
  unfold has. rewrite Z.land_lor_distr_l.
  destruct (Z.land a F =? 0) eqn:Ea; destruct (Z.land b F =? 0) eqn:Eb; cbn [negb orb].
  - apply Z.eqb_eq in Ea, Eb. rewrite Ea, Eb. reflexivity.
  - apply Z.eqb_eq in Ea. apply Z.eqb_neq in Eb. rewrite Ea.
    apply negb_true_iff, Z.eqb_neq. rewrite Z.lor_0_l. assumption.
  - apply Z.eqb_neq in Ea. apply negb_true_iff, Z.eqb_neq.
    intros H. apply Z.lor_eq_0_iff in H. tauto.
  - apply Z.eqb_neq in Ea. apply negb_true_iff, Z.eqb_neq.
    intros H. apply Z.lor_eq_0_iff in H. tauto.
Qed.

Lemma has_clear_other (flags F G : Z) :
  Z.land F G = 0 -> has (clear flags F) G = has flags G.
Proof.
  intros Hd. unfold has, clear. do 2 f_equal.
  apply Z.bits_inj'. intros n Hn.
  rewrite !Z.land_spec, Z.lnot_spec by assumption.
  assert (Hb : Z.testbit F n && Z.testbit G n = false)
    by (rewrite <- Z.land_spec, Hd; apply Z.bits_0).
  destruct (Z.testbit flags n), (Z.testbit F n), (Z.testbit G n);
    try reflexivity; discriminate Hb.
Qed.

Ltac flag_cases H :=
  unfold FlagOfCharacter in H;
  repeat match type of H with
         | (if ?c =? ?k then _ else _) = _ =>
             let E := fresh "E" in
             destruct (c =? k) eqn:E;
             [apply Z.eqb_eq in E; subst c; inversion H; subst; clear H|]
         end;
  try discriminate.

Lemma FlagOfCharacter_IsFlagCharacter (c : Z) :
  isSome (FlagOfCharacter c) = IsFlagCharacter c.
Proof.
  unfold FlagOfCharacter, IsFlagCharacter.
  destruct (c =? ch "-"), (c =? ch "+"), (c =? ch " "), (c =? ch "0"),
    (c =? ch "#"), (c =? ch "_"), (c =? ch "'"); reflexivity.
Qed.

(** Each flag character has a bit of its own. *)
Lemma Flags_distinct (x y F G : Z) :
  FlagOfCharacter x = Some F -> FlagOfCharacter y = Some G -> has G F = (x =? y).
Proof.
  intros Hx Hy. flag_cases Hx; flag_cases Hy; reflexivity.
Qed.

Lemma ParseFlags_run (fs : list Z) (t : Z) (rest : list Z) :
  Forall (fun x => IsFlagCharacter x = true) fs -> IsFlagCharacter t = false ->
  forall flags, ParseFlags (fs ++ t :: rest) flags = Some (t :: rest, FlagsRead fs flags).
Proof.
  intros Hfs Ht. induction Hfs as [|x fs Hx _ IH]; intros flags.
  - cbn [app ParseFlags FlagsRead fold_left].
    rewrite <- FlagOfCharacter_IsFlagCharacter in Ht.
    destruct (FlagOfCharacter t); [discriminate|reflexivity].
  - cbn [app ParseFlags FlagsRead fold_left].
    rewrite <- FlagOfCharacter_IsFlagCharacter in Hx.
    destruct (FlagOfCharacter x) as [F|]; [|discriminate].
    apply IH.
Qed.

Lemma has_FlagsRead (x F : Z) (fs : list Z) :
  FlagOfCharacter x = Some F ->
  forall flags, has (FlagsRead fs flags) F = has flags F || existsb (Z.eqb x) fs.
Proof.
  intros Hx. induction fs as [|y fs IH]; intros flags.
  - cbn [FlagsRead fold_left existsb]. rewrite orb_false_r. reflexivity.
  - cbn [FlagsRead fold_left existsb].
    destruct (FlagOfCharacter y) as [G|] eqn:Ey.
    + fold (FlagsRead fs (Z.lor flags G)). rewrite IH, has_lor.
      rewrite (Flags_distinct x y F G Hx Ey). rewrite orb_assoc. reflexivity.
    + fold (FlagsRead fs flags). rewrite IH.
      assert (Hne : (x =? y) = false).
      { destruct (x =? y) eqn:E; [|reflexivity].
        apply Z.eqb_eq in E. subst y. rewrite Hx in Ey. discriminate. }
      rewrite Hne. reflexivity.
Qed.

Lemma ParseWidth_Flags format argList spec format' argList' spec' :
  ParseWidth format argList spec = Some (Some (format', argList', spec')) ->
  Flags spec' = Flags spec.
Proof.
  unfold ParseWidth. destruct format as [|c rest]; [discriminate|].
  destruct (negb (c =? ch "*")).
  - destruct (ParseNumber (c :: rest) (Width spec)) as [[f w]|]; [|discriminate].
    intros H; inversion H; subst; reflexivity.
  - destruct (va_arg_int argList) as [[w a]|]; [|discriminate].
    intros H; inversion H; subst; reflexivity.
Qed.

Lemma ParsePrecision_Flags format argList spec format' argList' spec' :
  ParsePrecision format argList spec = Some (Some (format', argList', spec')) ->
  Flags spec' = Flags spec.
Proof.
  unfold ParsePrecision. destruct format as [|c rest]; [discriminate|].
  destruct (c =? ch ".").
  - destruct rest as [|c' rest']; [discriminate|].
    destruct (negb (c' =? ch "*")).
    + destruct (ParseNumber (c' :: rest') _) as [[f w]|]; [|discriminate].
      intros H; inversion H; subst; reflexivity.
    + destruct (va_arg_int argList) as [[w a]|]; [|discriminate].
      intros H; inversion H; subst; reflexivity.
  - intros H; inversion H; subst; reflexivity.
Qed.

(** X8: the flags of a directive.  The flag characters may come in any
    order and any number of times: in the specification parsed, the flag of
    a flag character is set exactly when that character stands among the
    flag characters of the directive, with one exception: where the minus
    sign stands among them, the leading-zeros flag is not set.  So no
    specification parsed asks for left justification and leading zeros
    together. *)
Theorem ParseSpecHead_flags_read :
  forall (fs : list Z) (t : Z) (rest : list Z) (argList : list Arg)
         (format' : list Z) (argList' : list Arg) (spec : FormatSpec),
    Forall (fun x => IsFlagCharacter x = true) fs ->
    IsFlagCharacter t = false ->
    ParseSpecHead (fs ++ t :: rest) argList = inr (format', argList', spec) ->
    (forall x F, FlagOfCharacter x = Some F ->
                 has (Flags spec) F
                 = existsb (Z.eqb x) fs
                   && negb ((x =? ch "0") && existsb (Z.eqb (ch "-")) fs))
    /\ has (Flags spec) Flag_LeadingZeros && has (Flags spec) Flag_LeftJustify = false.
Proof.
  intros fs t rest argList format' argList' spec Hfs Ht Hhead.
  unfold ParseSpecHead in Hhead.
  rewrite (ParseFlags_run fs t rest Hfs Ht) in Hhead.
  cbn [Flags FormatSpec_default] in Hhead.
  set (flags := FlagsRead fs 0) in *.
  set (flags' := if has flags Flag_LeadingZeros && has flags Flag_LeftJustify
                 then clear flags Flag_LeadingZeros else flags) in *.
  match type of Hhead with context [ParseWidth ?f ?a ?s] =>
    destruct (ParseWidth f a s) as [[[[f2 a2] s2]|]|] eqn:Ew; try discriminate end.
  destruct (ParsePrecision f2 a2 s2) as [[[[f3 a3] s3]|]|] eqn:Ep; try discriminate.
  inversion Hhead; subst. clear Hhead.
  apply ParsePrecision_Flags in Ep. apply ParseWidth_Flags in Ew.
  rewrite Ep, Ew. cbn [Flags set_Flags].
  assert (Hzero : has flags Flag_LeadingZeros = existsb (Z.eqb (ch "0")) fs).
  { unfold flags. rewrite (has_FlagsRead (ch "0") Flag_LeadingZeros) by reflexivity.
    reflexivity. }
  assert (Hminus : has flags Flag_LeftJustify = existsb (Z.eqb (ch "-")) fs).
  { unfold flags. rewrite (has_FlagsRead (ch "-") Flag_LeftJustify) by reflexivity.
    reflexivity. }
  split.
  - intros x F Hx.
    assert (Hread : has flags F = existsb (Z.eqb x) fs).
    { unfold flags. rewrite (has_FlagsRead x F) by assumption. reflexivity. }
    unfold flags'. rewrite Hzero, Hminus.
    destruct (x =? ch "0") eqn:Ex0.
    + apply Z.eqb_eq in Ex0. subst x. inversion Hx; subst F.
      destruct (existsb (Z.eqb (ch "0")) fs) eqn:E0;
        destruct (existsb (Z.eqb (ch "-")) fs) eqn:Em; cbn [andb negb].
      * apply has_clear_same.
      * rewrite Hzero. reflexivity.
      * rewrite Hzero. reflexivity.
      * rewrite Hzero. reflexivity.
    + cbn [andb negb]. rewrite andb_true_r.
      destruct (existsb (Z.eqb (ch "0")) fs && existsb (Z.eqb (ch "-")) fs); [|exact Hread].
      rewrite has_clear_other; [exact Hread|].
      flag_cases Hx; reflexivity.
  - unfold flags'.
    destruct (has flags Flag_LeadingZeros && has flags Flag_LeftJustify) eqn:Eboth.
    + rewrite has_clear_same. reflexivity.
    + exact Eboth.
Qed.

Lemma ParseSpecHead_flags_read_witness :
  ParseSpecHead (cstr "0-0+" ++ ch "5" :: cstr "d") [] = inr (cstr "d", [], mkFormatSpec 9 5 (-1) 0)
  /\ has 9 Flag_LeadingZeros = false
  /\ has 9 Flag_LeftJustify = true.
Proof.
  assert (Hfs : Forall (fun x => IsFlagCharacter x = true) (cstr "0-0+"))
    by (repeat constructor).
  assert (Ht : IsFlagCharacter (ch "5") = false) by reflexivity.
  assert (Hhead : ParseSpecHead (cstr "0-0+" ++ ch "5" :: cstr "d") []
                  = inr (cstr "d", [], mkFormatSpec 9 5 (-1) 0)) by (vm_compute; reflexivity).
  split; [exact Hhead|].
  pose proof (proj1 (ParseSpecHead_flags_read (cstr "0-0+") (ch "5") (cstr "d") []
                       (cstr "d") [] (mkFormatSpec 9 5 (-1) 0) Hfs Ht Hhead)) as Hall.
  split.
  - exact (Hall (ch "0") Flag_LeadingZeros eq_refl).
  - exact (Hall (ch "-") Flag_LeftJustify eq_refl).
Defined.

(** ** Justified fields *)

Lemma Prolog_Deliver (r : Receiver) (n : Z) (spec : FormatSpec) :
  HandlerHelper_JustificationProlog r n spec = Deliver r (PadLeft spec n).
Proof.
  unfold HandlerHelper_JustificationProlog, PadLeft.
  destruct (has (Flags spec) Flag_LeftJustify).
  - rewrite Deliver_nil. reflexivity.
  - apply ReceiveMany_Deliver.
Qed.

Lemma Epilog_Deliver (r : Receiver) (n : Z) (spec : FormatSpec) :
  HandlerHelper_JustificationEpilog r n spec = Deliver r (PadRight spec n).
Proof.
  unfold HandlerHelper_JustificationEpilog, PadRight.
  destruct (has (Flags spec) Flag_LeftJustify); cbn [negb].
  - apply ReceiveMany_Deliver.
  - rewrite Deliver_nil. reflexivity.
Qed.

Lemma Field_Deliver (r : Receiver) (spec : FormatSpec) (text : list Z) :
  HandlerHelper_JustificationEpilog
    (Deliver (HandlerHelper_JustificationProlog r (Z.of_nat (List.length text)) spec) text)
    (Z.of_nat (List.length text)) spec
  = Deliver r (Field spec text).
Proof.
  rewrite Epilog_Deliver, Prolog_Deliver, !Deliver_app. reflexivity.
Qed.

Lemma Field_length_int (spec : FormatSpec) (text : list Z) :
  Z.of_nat (List.length (Field spec text))
  = Z.of_nat (List.length text)
    + Z.max 0 (int32 (Width spec - Z.of_nat (List.length text))).
Proof.
  unfold Field, PadLeft, PadRight. rewrite !length_app.
  destruct (has (Flags spec) Flag_LeftJustify); rewrite repeat_length; simpl; lia.
Qed.

Lemma Field_length (spec : FormatSpec) (text : list Z) :
  - 2 ^ 31 <= Width spec - Z.of_nat (List.length text) <= INT_MAX ->
  Z.of_nat (List.length (Field spec text)) = Z.max (Width spec) (Z.of_nat (List.length text)).
Proof.
  intros Hw. rewrite Field_length_int, int32_small by assumption. lia.
Qed.

(** An item received between the justification helpers, as the handlers do. *)
Lemma Justified_buf (r : Receiver) (spec : FormatSpec) (text : list Z) :
  match Receive_buf (HandlerHelper_JustificationProlog r (Z.of_nat (List.length text)) spec)
                    text with
  | None => None
  | Some r' => Some (HandlerHelper_JustificationEpilog r' (Z.of_nat (List.length text)) spec)
  end = Some (Deliver r (Field spec text)).
Proof. rewrite Receive_buf_Deliver, Field_Deliver. reflexivity. Qed.

Lemma Justified_run (r : Receiver) (spec : FormatSpec) (s : list Z) (k : Z) :
  0 <= k <= Z.of_nat (List.length s) ->
  match Receive_n (HandlerHelper_JustificationProlog r k spec) (Some s) k with
  | None => None
  | Some r' => Some (HandlerHelper_JustificationEpilog r' k spec)
  end = Some (Deliver r (Field spec (firstn (Z.to_nat k) s))).
Proof.
  intros Hk. rewrite Receive_n_Deliver by assumption.
  assert (Hlen : Z.of_nat (List.length (firstn (Z.to_nat k) s)) = k)
    by (rewrite length_firstn; lia).
  rewrite <- Hlen at 1 3. rewrite Field_Deliver. reflexivity.
Qed.

(** X9: the field that the two justification helpers make around an item.
    The padding stands on one side only, blanks or zeros to the left, blanks
    to the right; the item is never cut; and a sink of any kind that goes
    through the prolog, the item and the epilog is the sink with the whole
    field delivered.  The helpers count the padding as the difference of two
    [int]s, the width and the length of the item.  Where that difference is
    an [int], the field has the length of the larger of the two, so that a
    width that is zero or negative adds nothing.  Where it is not, for a
    width within the length of the item of the least [int], the difference
    wraps around to a positive count and the field is padded although the
    width is negative. *)
Theorem justification_makes_a_field_of_the_width :
  forall (spec : FormatSpec) (text : list Z),
    let n := Z.of_nat (List.length text) in
    (- 2 ^ 31 <= Width spec - n <= INT_MAX ->
     Z.of_nat (List.length (Field spec text)) = Z.max (Width spec) n)
    /\ (- 2 ^ 31 <= Width spec -> Width spec - n < - 2 ^ 31 -> n <= INT_MAX ->
        Z.of_nat (List.length (Field spec text)) = Width spec + 2 ^ 32)
    /\ Z.of_nat (List.length (Field spec text)) = n + Z.max 0 (int32 (Width spec - n))
    /\ (PadLeft spec n = [] \/ PadRight spec n = [])
    /\ Forall (fun c => c = ch " " \/ c = ch "0") (PadLeft spec n)
    /\ Forall (fun c => c = ch " ") (PadRight spec n)
    /\ (forall r,
          HandlerHelper_JustificationEpilog
            (Deliver (HandlerHelper_JustificationProlog r n spec) text) n spec
          = Deliver r (Field spec text)).
Proof.
  intros spec text n. split; [apply Field_length|].
  split; [|split; [apply Field_length_int|split; [|split; [|split]]]].
  - intros Hlow Hwrap Hn. rewrite Field_length_int. fold n.
    unfold int32, INT_MAX in *.
    change (2 ^ 31) with 2147483648 in *. change (2 ^ 32) with 4294967296 in *.
    Z.div_mod_to_equations. lia.
  - unfold PadLeft, PadRight. destruct (has (Flags spec) Flag_LeftJustify); [left|right];
      reflexivity.
  - unfold PadLeft. destruct (has (Flags spec) Flag_LeftJustify); [constructor|].
    apply Forall_forall. intros c Hc. apply repeat_spec in Hc. subst c.
    destruct (has (Flags spec) Flag_LeadingZeros); [right|left]; reflexivity.
  - unfold PadRight. destruct (has (Flags spec) Flag_LeftJustify); [|constructor].
    apply Forall_forall. intros c Hc. apply repeat_spec in Hc. assumption.
  - intros r. apply Field_Deliver.
Qed.

Lemma justification_makes_a_field_of_the_width_witness :
  (- 2 ^ 31 <= 5 - 2 <= INT_MAX
   /\ Z.of_nat (List.length (Field (mkFormatSpec 0 5 (-1) 4) (cstr "ab"))) = 5)
  /\ (- 2 ^ 31 <= -7 - 2 <= INT_MAX
      /\ Z.of_nat (List.length (Field (mkFormatSpec 0 (-7) (-1) 4) (cstr "ab"))) = 2)
  /\ (- 2 ^ 31 - 2 < - 2 ^ 31
      /\ Z.of_nat (List.length (Field (mkFormatSpec 0 (- 2 ^ 31) (-1) 4) (cstr "ab")))
         = 2 ^ 31).
Proof.
  assert (H1 : - 2 ^ 31 <= 5 - 2 <= INT_MAX) by (unfold INT_MAX; lia).
  assert (H2 : - 2 ^ 31 <= -7 - 2 <= INT_MAX) by (unfold INT_MAX; lia).
  assert (H3 : - 2 ^ 31 - 2 < - 2 ^ 31) by lia.
  split; [split; [exact H1|]|split; [split; [exact H2|]|split; [exact H3|]]].
  - rewrite (proj1 (justification_makes_a_field_of_the_width
                      (mkFormatSpec 0 5 (-1) 4) (cstr "ab")) H1).
    reflexivity.
  - rewrite (proj1 (justification_makes_a_field_of_the_width
                      (mkFormatSpec 0 (-7) (-1) 4) (cstr "ab")) H2).
    reflexivity.
  - rewrite (proj1 (proj2 (justification_makes_a_field_of_the_width
                             (mkFormatSpec 0 (- 2 ^ 31) (-1) 4) (cstr "ab")))
               ltac:(cbn [Width]; lia) H3 ltac:(unfold INT_MAX; simpl; lia)).
    reflexivity.
Defined.

(** X10: the character, string and boolean directives on any sink, bound or
    not.  [c] delivers the field around the low byte of its operand; [s],
    with the precision unspecified or not negative, the field around the
    first [StringCount] characters of the string; [B] the field around one
    of the six words, a word for "true" exactly when the low byte of the
    operand is not zero: the counts 4, 5 and 1 written in the handler are
    the lengths of its words. *)
Theorem character_string_boolean_fields :
  forall (r : Receiver) (spec : FormatSpec),
    (forall bits, Handler_c r spec (ValI bits) = Some (Deliver r (Field spec [bits mod 256])))
    /\ (forall addr str,
          Precision spec = -1 \/ 0 <= Precision spec ->
          Handler_s r spec (ValPtr addr str)
          = Some (Deliver r (Field spec (firstn (Z.to_nat (StringCount spec str)) str))))
    /\ (forall bits, exists word,
          In word BoolWords
          /\ Handler_B r spec (ValI bits) = Some (Deliver r (Field spec word))
          /\ (bits mod 256 <> 0 <-> In word [cstr "true"; cstr "T"; cstr "Y"])).
Proof.
  intros r spec. split; [|split].
  - intros bits. unfold Handler_c. cbn [operand_bits].
    rewrite Receive_Deliver.
    change 1 with (Z.of_nat (List.length [bits mod 256])).
    rewrite Field_Deliver. reflexivity.
  - intros addr str Hp.
    pose proof (StringCount_bounds spec str Hp) as Hk.
    unfold Handler_s.
    replace (if negb (Precision spec =? -1) && (tStrlen str >? Precision spec)
             then Precision spec else tStrlen str) with (StringCount spec str).
    + apply Justified_run. assumption.
    + unfold StringCount. destruct (Precision spec =? -1) eqn:E; cbn [negb andb]; [reflexivity|].
      rewrite Z.gtb_ltb. destruct (Precision spec <? tStrlen str) eqn:E2.
      * apply Z.ltb_lt in E2. lia.
      * apply Z.ltb_ge in E2. lia.
  - intros bits. unfold Handler_B. cbn [operand_bits]. unfold BoolWords.
    destruct (bits mod 256 =? 0) eqn:Eb;
      [apply Z.eqb_eq in Eb|apply Z.eqb_neq in Eb]; cbn [negb];
      (destruct (has (Flags spec) Flag_DecorativeFormatting);
       [|destruct (has (Flags spec) Flag_DecorativeFormattingAlt)]).
    + exists (cstr "F"). split; [simpl; auto 10|].
      split; [exact (Justified_run r spec (cstr "F") 1 ltac:(simpl; lia))|].
      split; [intros H; contradiction|].
      intros [H|[H|[H|[]]]]; vm_compute in H; discriminate H.
    + exists (cstr "N"). split; [simpl; auto 10|].
      split; [exact (Justified_run r spec (cstr "N") 1 ltac:(simpl; lia))|].
      split; [intros H; contradiction|].
      intros [H|[H|[H|[]]]]; vm_compute in H; discriminate H.
    + exists (cstr "false"). split; [simpl; auto 10|].
      split; [exact (Justified_run r spec (cstr "false") 5 ltac:(simpl; lia))|].
      split; [intros H; contradiction|].
      intros [H|[H|[H|[]]]]; vm_compute in H; discriminate H.
    + exists (cstr "T"). split; [simpl; auto 10|].
      split; [exact (Justified_run r spec (cstr "T") 1 ltac:(simpl; lia))|].
      split; [intros _; simpl; auto|intros _; assumption].
    + exists (cstr "Y"). split; [simpl; auto 10|].
      split; [exact (Justified_run r spec (cstr "Y") 1 ltac:(simpl; lia))|].
      split; [intros _; simpl; auto|intros _; assumption].
    + exists (cstr "true"). split; [simpl; auto 10|].
      split; [exact (Justified_run r spec (cstr "true") 4 ltac:(simpl; lia))|].
      split; [intros _; simpl; auto|intros _; assumption].
Qed.

(** ** Integers: the digits spell the operand *)

Lemma BaseValue_snoc (base : Z) (ds : list Z) (d : Z) :
  BaseValue base (ds ++ [d]) = BaseValue base ds * base + d.
Proof. unfold BaseValue. rewrite fold_left_app. reflexivity. Qed.

Lemma BaseValue_zeros (base : Z) (n : nat) (ds : list Z) :
  BaseValue base (repeat 0 n ++ ds) = BaseValue base ds.
Proof.
  unfold BaseValue. rewrite fold_left_app. f_equal.
  induction n as [|n IH]; [reflexivity|]. cbn [repeat fold_left]. exact IH.
Qed.

Lemma DigitLoop_digit (upperCase : bool) (d : Z) :
  (if d + ch "0" >? ch "9" then d + ch "0" + LetterOffset upperCase else d + ch "0")
  = DigitChar upperCase d.
Proof.
  unfold DigitChar, LetterOffset. rewrite Z.gtb_ltb.
  change (ch "0") with 48. change (ch "9") with 57.
  change (ch "A") with 65. change (ch "a") with 97.
  destruct (57 <? d + 48) eqn:E1; destruct (d <? 10) eqn:E2;
    try apply Z.ltb_lt in E1; try apply Z.ltb_ge in E1;
    try apply Z.ltb_lt in E2; try apply Z.ltb_ge in E2;
    destruct upperCase; lia.
Qed.

(** The digit loop, given turns enough: the digits that it puts in front of
    [curr] spell the value, they are at least [precision], and no more than
    the value and the precision need. *)
Lemma DigitLoop_spells (upperCase : bool) (base : Z) :
  2 <= base ->
  forall (fuel k : nat) (precision rawValue : Z) (curr : list Z),
    0 <= rawValue < 2 ^ Z.of_nat k ->
    (Z.to_nat (Z.max precision 0) + k <= fuel)%nat ->
    exists ds,
      DigitLoop fuel precision rawValue base (LetterOffset upperCase) curr
      = map (DigitChar upperCase) ds ++ curr
      /\ Forall (fun d => 0 <= d < base) ds
      /\ BaseValue base ds = rawValue
      /\ precision <= Z.of_nat (List.length ds)
      /\ (forall m, 0 <= m -> precision <= m -> rawValue < base ^ m ->
                    Z.of_nat (List.length ds) <= m).
Proof.
  intros Hbase. induction fuel as [|fuel IH]; intros k precision rawValue curr Hraw Hfuel.
  - assert (k = 0%nat) by lia. subst k.
    assert (rawValue = 0) by (simpl in Hraw; lia). subst rawValue.
    exists []. cbn [DigitLoop map app List.length].
    split; [reflexivity|]. split; [constructor|]. split; [reflexivity|].
    split; [lia|]. intros m Hm _ _. simpl. lia.
  - cbn [DigitLoop].
    destruct ((precision >? 0) || negb (rawValue =? 0)) eqn:Econd.
    + assert (Hdiv : 0 <= rawValue / base) by (apply Z.div_pos; lia).
      assert (Hmod : 0 <= rawValue mod base < base) by (apply Z.mod_pos_bound; lia).
      assert (Hk : exists k', 0 <= rawValue / base < 2 ^ Z.of_nat k'
                              /\ (Z.to_nat (Z.max (precision - 1) 0) + k' <= fuel)%nat).
      { destruct (precision >? 0) eqn:Ep; rewrite Z.gtb_ltb in Ep.
        - apply Z.ltb_lt in Ep. exists k. split; [|lia].
          split; [assumption|].
          apply Z.le_lt_trans with rawValue; [|lia].
          apply Z.div_le_upper_bound; nia.
        - apply Z.ltb_ge in Ep. cbn [orb] in Econd.
          apply negb_true_iff, Z.eqb_neq in Econd.
          destruct k as [|k]; [simpl in Hraw; lia|].
          exists k. split; [|lia]. split; [assumption|].
          rewrite Nat2Z.inj_succ, Z.pow_succ_r in Hraw by lia.
          apply Z.div_lt_upper_bound; nia. }
      destruct Hk as (k' & Hraw' & Hfuel').
      destruct (IH k' (precision - 1) (rawValue / base)
                   ((if rawValue mod base + ch "0" >? ch "9"
                     then rawValue mod base + ch "0" + LetterOffset upperCase
                     else rawValue mod base + ch "0") :: curr) Hraw' Hfuel')
        as (ds & Heq & Hds & Hval & Hlen & Hmax).
      exists (ds ++ [rawValue mod base]).
      split; [|split; [|split; [|split]]].
      * rewrite Heq, DigitLoop_digit, map_app, <- app_assoc. reflexivity.
      * apply Forall_app. split; [assumption|]. constructor; [assumption|constructor].
      * rewrite BaseValue_snoc, Hval.
        rewrite (Z.div_mod rawValue base) at 3 by lia. lia.
      * rewrite length_app. simpl. lia.
      * intros m Hm Hpm Hrm. rewrite length_app. cbn [List.length].
        assert (Hm1 : 1 <= m).
        { destruct (Z.eq_dec m 0) as [->|]; [|lia].
          rewrite Z.pow_0_r in Hrm.
          assert (rawValue = 0) by lia. subst rawValue.
          replace (precision >? 0) with false in Econd
            by (symmetry; rewrite Z.gtb_ltb; apply Z.ltb_ge; lia).
          discriminate Econd. }
        assert (Z.of_nat (List.length ds) <= m - 1); [|lia].
        apply Hmax; [lia|lia|].
        replace m with (Z.succ (m - 1)) in Hrm by lia.
        rewrite Z.pow_succ_r in Hrm by lia.
        apply Z.div_lt_upper_bound; lia.
    + apply orb_false_iff in Econd. destruct Econd as [Ep Er].
      rewrite Z.gtb_ltb in Ep. apply Z.ltb_ge in Ep.
      apply negb_false_iff, Z.eqb_eq in Er. subst rawValue.
      exists []. cbn [map app List.length].
      split; [reflexivity|]. split; [constructor|]. split; [reflexivity|].
      split; [lia|]. intros m Hm _ _. simpl. lia.
Qed.

Lemma SignBlock_negate (spec : FormatSpec) (treatAsUnsigned negative : bool) (base w : Z)
  (sign : list Z) (negate : bool) (w1 : Z) :
  SignBlock spec treatAsUnsigned negative base w = (sign, negate, w1) ->
  (negate = true ->
   negative = true /\ treatAsUnsigned = false /\ base = 10 /\ sign = [ch "-"])
  /\ (negate = false -> treatAsUnsigned = false -> base = 10 -> negative = false).
Proof.
  unfold SignBlock. destruct (base =? 10) eqn:Eb.
  - apply Z.eqb_eq in Eb.
    destruct treatAsUnsigned, negative; cbn [negb andb];
      repeat match goal with
             | |- context [if has ?f ?F then _ else _] => destruct (has f F)
             end;
      intros H; inversion H; subst; split; intros; try discriminate; auto.
  - apply Z.eqb_neq in Eb. intros H; inversion H; subst.
    split; intros; [discriminate|contradiction].
Qed.

Lemma magnitude_native (bitSize raw : Z) (negate : bool) :
  bitSize = 32 \/ bitSize = 64 ->
  0 <= raw < 2 ^ bitSize ->
  (negate = true -> 2 ^ (bitSize - 1) <= raw) ->
  (if bitSize =? 32
   then Z.land (if negate then uint64 (- int64 raw) else raw) 0xFFFFFFFF
   else (if negate then uint64 (- int64 raw) else raw))
  = if negate then 2 ^ bitSize - raw else raw.
Proof.
  intros Hb Hraw Hneg. change 0xFFFFFFFF with (Z.ones 32).
  destruct Hb as [-> | ->]; cbn [Z.eqb Pos.eqb]; [rewrite Z.land_ones by lia|];
    destruct negate; try (specialize (Hneg eq_refl)); unfold uint64, int64.
  - change (2 ^ (32 - 1)) with 2147483648 in Hneg.
    change (2 ^ 32) with 4294967296 in *. change (2 ^ 64) with 18446744073709551616.
    change (2 ^ 63) with 9223372036854775808.
    Z.div_mod_to_equations. lia.
  - change (2 ^ 32) with 4294967296 in *. apply Z.mod_small. lia.
  - change (2 ^ (64 - 1)) with 9223372036854775808 in Hneg.
    change (2 ^ 64) with 18446744073709551616 in *.
    change (2 ^ 63) with 9223372036854775808.
    Z.div_mod_to_equations. lia.
  - reflexivity.
Qed.

Lemma negative_bit (bitSize raw : Z) :
  1 <= bitSize -> 0 <= raw ->
  negb (Z.shiftr raw (bitSize - 1) =? 0) = negb (raw <? 2 ^ (bitSize - 1)).
Proof.
  intros Hb Hraw. f_equal. rewrite Z.shiftr_div_pow2 by lia.
  assert (Hpow : 0 < 2 ^ (bitSize - 1)) by (apply Z.pow_pos_nonneg; lia).
  destruct (raw <? 2 ^ (bitSize - 1)) eqn:E.
  - apply Z.ltb_lt in E. apply Z.eqb_eq. apply Z.div_small. lia.
  - apply Z.ltb_ge in E. apply Z.eqb_neq. intros H.
    apply Z.div_small_iff in H; lia.
Qed.

(** [HandlerHelper_IntegerNative], read as a whole: the sign, the prefix, and
    digits that spell the magnitude of the operand. *)
Lemma IntegerNative_spells (spec : FormatSpec) (data : Z) (treatAsUnsigned : bool)
  (bitSize : Z) (upperCase : bool) (base : Z) (forcePrefixLowerCase : bool)
  (sign : list Z) (negate : bool) (w1 : Z) :
  bitSize = 32 \/ bitSize = 64 -> 2 <= base ->
  SignBlock spec treatAsUnsigned (negb (data mod 2 ^ bitSize <? 2 ^ (bitSize - 1)))
            base (Width spec) = (sign, negate, w1) ->
  let raw := data mod 2 ^ bitSize in
  let mag := if negate then 2 ^ bitSize - raw else raw in
  let prefix := PrefixBlock spec mag upperCase base forcePrefixLowerCase w1 in
  0 <= mag < 2 ^ bitSize
  /\ exists ds,
      IntegerNative_Convert [] spec data treatAsUnsigned bitSize upperCase base
                            forcePrefixLowerCase
      = (sign ++ fst prefix,
         if has (LocalFlags spec) Flag_LeadingZeros
         then ZeroPad (snd prefix - Z.of_nat (List.length ds)) (map (DigitChar upperCase) ds)
         else map (DigitChar upperCase) ds)
      /\ Forall (fun d => 0 <= d < base) ds
      /\ BaseValue base ds = mag
      /\ LocalPrecision spec <= Z.of_nat (List.length ds)
      /\ (forall m, 0 <= m -> LocalPrecision spec <= m -> mag < base ^ m ->
                    Z.of_nat (List.length ds) <= m).
Proof.
  intros Hb Hbase Hsign raw mag prefix.
  assert (Hsize : 1 <= bitSize) by (destruct Hb; lia).
  assert (Hraw : 0 <= raw < 2 ^ bitSize)
    by (apply Z.mod_pos_bound; apply Z.pow_pos_nonneg; lia).
  destruct (SignBlock_negate _ _ _ _ _ _ _ _ Hsign) as [Hneg _].
  assert (Hhigh : negate = true -> 2 ^ (bitSize - 1) <= raw).
  { intros Hn. destruct (Hneg Hn) as (Hnegative & _).
    apply negb_true_iff, Z.ltb_ge in Hnegative. exact Hnegative. }
  assert (Hmag : 0 <= mag < 2 ^ bitSize).
  { subst mag. destruct negate; [|assumption].
    specialize (Hhigh eq_refl).
    assert (0 < 2 ^ (bitSize - 1)) by (apply Z.pow_pos_nonneg; lia). lia. }
  split; [exact Hmag|].
  assert (Hmag64 : 0 <= mag < 2 ^ Z.of_nat 64).
  { split; [lia|]. apply Z.lt_le_trans with (2 ^ bitSize); [lia|].
    apply Z.pow_le_mono_r; destruct Hb; subst; simpl; lia. }
  destruct (DigitLoop_spells upperCase base Hbase
              (Z.to_nat (Z.max (LocalPrecision spec) 0) + 64) 64
              (LocalPrecision spec) mag [] Hmag64 (Nat.le_refl _))
    as (ds & Hloop & Hds & Hval & Hlen & Hmax).
  exists ds. split; [|repeat (split; [assumption|]); assumption].
  unfold IntegerNative_Convert.
  replace (if bitSize =? 32 then data mod 2 ^ 32 else data mod 2 ^ 64) with raw
    by (destruct Hb; subst; reflexivity).
  rewrite negative_bit by lia.
  change (data mod 2 ^ bitSize) with raw in Hsign. rewrite Hsign.
  rewrite (magnitude_native bitSize raw negate Hb Hraw Hhigh). fold mag.
  destruct (PrefixBlock spec mag upperCase base forcePrefixLowerCase w1) as [p w2] eqn:Ep.
  subst prefix. cbn [fst snd app].
  rewrite Hloop, app_nil_r, length_map. reflexivity.
Qed.

Lemma has_LocalFlags (spec : FormatSpec) (F : Z) :
  Z.land Flag_LeadingZeros F = 0 -> has (LocalFlags spec) F = has (Flags spec) F.
Proof.
  intros HF. unfold LocalFlags. destruct (Precision spec =? -1); [reflexivity|].
  apply has_clear_other. assumption.
Qed.

Lemma map_DigitChar_zeros (upperCase : bool) (n : nat) :
  map (DigitChar upperCase) (repeat 0 n) = repeat (ch "0") n.
Proof. induction n as [|n IH]; [reflexivity|]. cbn [repeat map]. rewrite IH. reflexivity. Qed.

(** The text of [HandlerHelper_IntegerNative]: the sign, the prefix, and
    digits that spell the magnitude, decorated or not; the digits are as many
    as the precision asks for and, with the local leading-zeros flag, as the
    width left asks for, and no more than that and the magnitude need. *)
Lemma HandlerHelper_IntegerNative_digits (spec : FormatSpec) (data : Z)
  (treatAsUnsigned : bool) (bitSize : Z) (upperCase : bool) (base : Z)
  (forcePrefixLowerCase : bool) (sign : list Z) (negate : bool) (w1 : Z) :
  bitSize = 32 \/ bitSize = 64 -> 2 <= base ->
  SignBlock spec treatAsUnsigned (negb (data mod 2 ^ bitSize <? 2 ^ (bitSize - 1)))
            base (Width spec) = (sign, negate, w1) ->
  let raw := data mod 2 ^ bitSize in
  let mag := if negate then 2 ^ bitSize - raw else raw in
  let prefix := PrefixBlock spec mag upperCase base forcePrefixLowerCase w1 in
  exists ds,
    HandlerHelper_IntegerNative [] spec data treatAsUnsigned bitSize upperCase base
                                forcePrefixLowerCase
    = Some (IntegerNative_Emit (LocalFlags spec) (map (DigitChar upperCase) ds)
                               (sign ++ fst prefix))
    /\ Forall (fun d => 0 <= d < base) ds
    /\ BaseValue base ds = mag
    /\ LocalPrecision spec <= Z.of_nat (List.length ds)
    /\ (has (LocalFlags spec) Flag_LeadingZeros = true ->
        snd prefix <= Z.of_nat (List.length ds))
    /\ (forall m, 0 <= m -> LocalPrecision spec <= m ->
                  (has (LocalFlags spec) Flag_LeadingZeros = true -> snd prefix <= m) ->
                  mag < base ^ m ->
                  Z.of_nat (List.length ds) <= m).
Proof.
  intros Hb Hbase Hsign raw mag prefix.
  destruct (IntegerNative_spells spec data treatAsUnsigned bitSize upperCase base
              forcePrefixLowerCase sign negate w1 Hb Hbase Hsign)
    as (Hmag & ds & Hconv & Hds & Hval & Hlen & Hmax).
  fold raw in Hconv, Hval, Hmax, Hmag. fold mag in Hconv, Hval, Hmax, Hmag.
  fold prefix in Hconv.
  assert (Hhelper : HandlerHelper_IntegerNative [] spec data treatAsUnsigned bitSize upperCase
                      base forcePrefixLowerCase
                    = (let '(convBuf, c) :=
                         IntegerNative_Convert [] spec data treatAsUnsigned bitSize upperCase
                                               base forcePrefixLowerCase in
                       Some (IntegerNative_Emit (LocalFlags spec) c convBuf))).
  { unfold HandlerHelper_IntegerNative.
    replace ((bitSize =? 32) || (bitSize =? 64)) with true
      by (destruct Hb; subst; reflexivity).
    reflexivity. }
  rewrite Hconv in Hhelper. cbv beta iota in Hhelper.
  destruct (has (LocalFlags spec) Flag_LeadingZeros) eqn:Ez.
  - exists (repeat 0 (Z.to_nat (snd prefix - Z.of_nat (List.length ds))) ++ ds).
    split; [|split; [|split; [|split; [|split]]]].
    + rewrite map_app, map_DigitChar_zeros. exact Hhelper.
    + apply Forall_app. split; [|assumption].
      apply Forall_forall. intros d Hd. apply repeat_spec in Hd. lia.
    + rewrite BaseValue_zeros. assumption.
    + rewrite length_app. lia.
    + intros _. rewrite length_app, repeat_length. lia.
    + intros m Hm Hpm Hwm Hmm. specialize (Hwm eq_refl).
      specialize (Hmax m Hm Hpm Hmm).
      rewrite length_app, repeat_length. lia.
  - exists ds. split; [|split; [|split; [|split; [|split]]]]; try assumption.
    + intros H; discriminate H.
    + intros m Hm Hpm _ Hmm. apply Hmax; assumption.
Qed.

Lemma IntegerNative_Emit_undecorated (spec : FormatSpec) (curr convBuf : list Z) :
  Undecorated spec -> IntegerNative_Emit (LocalFlags spec) curr convBuf = convBuf ++ curr.
Proof.
  intros [Hdec Halt]. unfold IntegerNative_Emit.
  rewrite !has_LocalFlags by reflexivity. rewrite Hdec, Halt. reflexivity.
Qed.

(** The same without a decorative flag. *)
Lemma HandlerHelper_IntegerNative_spells (spec : FormatSpec) (data : Z)
  (treatAsUnsigned : bool) (bitSize : Z) (upperCase : bool) (base : Z)
  (forcePrefixLowerCase : bool) (sign : list Z) (negate : bool) (w1 : Z) :
  bitSize = 32 \/ bitSize = 64 -> 2 <= base -> Undecorated spec ->
  SignBlock spec treatAsUnsigned (negb (data mod 2 ^ bitSize <? 2 ^ (bitSize - 1)))
            base (Width spec) = (sign, negate, w1) ->
  let raw := data mod 2 ^ bitSize in
  let mag := if negate then 2 ^ bitSize - raw else raw in
  let prefix := PrefixBlock spec mag upperCase base forcePrefixLowerCase w1 in
  exists ds,
    HandlerHelper_IntegerNative [] spec data treatAsUnsigned bitSize upperCase base
                                forcePrefixLowerCase
    = Some (sign ++ fst prefix ++ map (DigitChar upperCase) ds)
    /\ Forall (fun d => 0 <= d < base) ds
    /\ BaseValue base ds = mag
    /\ LocalPrecision spec <= Z.of_nat (List.length ds)
    /\ (has (LocalFlags spec) Flag_LeadingZeros = true ->
        snd prefix <= Z.of_nat (List.length ds))
    /\ (forall m, 0 <= m -> LocalPrecision spec <= m ->
                  (has (LocalFlags spec) Flag_LeadingZeros = true -> snd prefix <= m) ->
                  mag < base ^ m ->
                  Z.of_nat (List.length ds) <= m).
Proof.
  intros Hb Hbase Hund Hsign raw mag prefix.
  destruct (HandlerHelper_IntegerNative_digits spec data treatAsUnsigned bitSize upperCase base
              forcePrefixLowerCase sign negate w1 Hb Hbase Hsign)
    as (ds & Htext & Hrest).
  exists ds. split; [|exact Hrest].
  rewrite Htext, IntegerNative_Emit_undecorated by assumption.
  rewrite <- app_assoc. reflexivity.
Qed.

Lemma IntegerHandler_native (treatAsUnsigned upperCase : bool) (base : Z) (r : Receiver)
  (spec : FormatSpec) (data : Z) (text : list Z) :
  TypeSizeBytes spec = 4 \/ TypeSizeBytes spec = 8 ->
  HandlerHelper_IntegerNative [] spec data treatAsUnsigned (TypeSizeBytes spec * 8)
                              upperCase base false = Some text ->
  IntegerHandler treatAsUnsigned upperCase base r spec (ValI data)
  = Some (Deliver r (Field spec text)).
Proof.
  intros Hsz Htext. unfold IntegerHandler.
  replace ((TypeSizeBytes spec * 8 =? 32) || (TypeSizeBytes spec * 8 =? 64)) with true
    by (destruct Hsz as [-> | ->]; reflexivity).
  cbn [orb negb operand_bits]. rewrite Htext. apply Justified_buf.
Qed.

(** The unsigned directives, as a lemma for the statements below. *)
Lemma IntegerHandler_unsigned_spells :
  forall (spec : FormatSpec) (data : Z) (upperCase : bool) (base : Z),
    TypeSizeBytes spec = 4 \/ TypeSizeBytes spec = 8 ->
    2 <= base ->
    Undecorated spec ->
    has (Flags spec) Flag_BasePrefix = false ->
    has (Flags spec) Flag_ForcePosOrNegSign = false ->
    has (Flags spec) Flag_SpaceForPosSign = false ->
    let value := data mod 2 ^ (TypeSizeBytes spec * 8) in
    exists text,
      (forall r, IntegerHandler true upperCase base r spec (ValI data)
                 = Some (Deliver r (Field spec text)))
      /\ Spells upperCase base text value
      /\ LocalPrecision spec <= Z.of_nat (List.length text)
      /\ (has (LocalFlags spec) Flag_LeadingZeros = true ->
          Width spec <= Z.of_nat (List.length text))
      /\ (forall m, 0 <= m -> LocalPrecision spec <= m ->
                    (has (LocalFlags spec) Flag_LeadingZeros = true -> Width spec <= m) ->
                    value < base ^ m ->
                    Z.of_nat (List.length text) <= m).
Proof.
  intros spec data upperCase base Hsz Hbase Hund Hprefix Hplus Hspace value.
  assert (Hb : TypeSizeBytes spec * 8 = 32 \/ TypeSizeBytes spec * 8 = 64) by lia.
  assert (Hsign : SignBlock spec true
                    (negb (data mod 2 ^ (TypeSizeBytes spec * 8)
                           <? 2 ^ (TypeSizeBytes spec * 8 - 1)))
                    base (Width spec) = ([], false, Width spec)).
  { unfold SignBlock. rewrite Hplus, Hspace. cbn [negb andb].
    destruct (base =? 10); reflexivity. }
  destruct (HandlerHelper_IntegerNative_spells spec data true (TypeSizeBytes spec * 8)
              upperCase base false [] false (Width spec) Hb Hbase Hund Hsign)
    as (ds & Htext & Hds & Hval & Hlen & Hzero & Hmax).
  assert (Hp : PrefixBlock spec (data mod 2 ^ (TypeSizeBytes spec * 8)) upperCase base false
                 (Width spec) = ([], Width spec)).
  { unfold PrefixBlock. rewrite Hprefix. reflexivity. }
  rewrite Hp in Htext, Hzero, Hmax. cbn [fst snd app] in Htext, Hzero, Hmax.
  exists (map (DigitChar upperCase) ds). rewrite length_map.
  split; [intros r; apply IntegerHandler_native; assumption|].
  split; [exists ds; repeat split; assumption|].
  split; [assumption|]. split; assumption.
Qed.

(** X11: the unsigned integer directives ([b], [o], [u], [x], [X]: bases 2,
    8, 10, 16) on a 32-bit or 64-bit operand, with none of the [+], space,
    [#], [_] and ['] flags, and a width and a precision that the 128
    characters of the helper's [buf] have room for.  The field delivered, to any sink, holds a text
    of digits of the base that spells the operand taken modulo [2 ^ bits],
    letters in the case of the directive.  The digits are at least as many
    as the precision (1 when unspecified), with the zero flag and no
    precision at least as many as the width, and never more than these and
    the value need. *)
Theorem unsigned_directives_spell_the_operand :
  forall (spec : FormatSpec) (data : Z) (upperCase : bool) (base : Z),
    TypeSizeBytes spec = 4 \/ TypeSizeBytes spec = 8 ->
    2 <= base ->
    Width spec <= 127 -> Precision spec <= 127 ->
    Undecorated spec ->
    has (Flags spec) Flag_BasePrefix = false ->
    has (Flags spec) Flag_ForcePosOrNegSign = false ->
    has (Flags spec) Flag_SpaceForPosSign = false ->
    let value := data mod 2 ^ (TypeSizeBytes spec * 8) in
    exists text,
      (forall r, IntegerHandler true upperCase base r spec (ValI data)
                 = Some (Deliver r (Field spec text)))
      /\ Spells upperCase base text value
      /\ LocalPrecision spec <= Z.of_nat (List.length text)
      /\ (has (LocalFlags spec) Flag_LeadingZeros = true ->
          Width spec <= Z.of_nat (List.length text))
      /\ (forall m, 0 <= m -> LocalPrecision spec <= m ->
                    (has (LocalFlags spec) Flag_LeadingZeros = true -> Width spec <= m) ->
                    value < base ^ m ->
                    Z.of_nat (List.length text) <= m).
Proof.
  intros spec data upperCase base Hsz Hbase _ _ Hund Hprefix Hplus Hspace.
  apply IntegerHandler_unsigned_spells; assumption.
Qed.

Lemma unsigned_directives_spell_the_operand_witness :
  exists text,
    (forall r, Handler_x r (mkFormatSpec 0 0 (-1) 4) (ValI 48879)
               = Some (Deliver r (Field (mkFormatSpec 0 0 (-1) 4) text)))
    /\ Spells false 16 text (48879 mod 2 ^ (4 * 8)).
Proof.
  destruct (unsigned_directives_spell_the_operand (mkFormatSpec 0 0 (-1) 4)
              48879 false 16)
    as (text & Hrun & Hspell & _).
  - left. reflexivity.
  - lia.
  - simpl; lia.
  - simpl; lia.
  - split; reflexivity.
  - reflexivity.
  - reflexivity.
  - reflexivity.
  - exists text. split; [exact Hrun|exact Hspell].
Defined.

(** The signed directives, as a lemma for the statements below; the digits
    are no more than the precision, the width under the zero flag and the
    value need. *)
Lemma IntegerHandler_signed_spells_bounded :
  forall (spec : FormatSpec) (data : Z),
    TypeSizeBytes spec = 4 \/ TypeSizeBytes spec = 8 ->
    Undecorated spec ->
    let value := SignedOf (TypeSizeBytes spec * 8) (data mod 2 ^ (TypeSizeBytes spec * 8)) in
    let sign :=
      if value <? 0 then [ch "-"]
      else if has (Flags spec) Flag_ForcePosOrNegSign then [ch "+"]
      else if has (Flags spec) Flag_SpaceForPosSign then [ch " "]
      else [] in
    exists digits,
      (forall r, Handler_d r spec (ValI data)
                 = Some (Deliver r (Field spec (sign ++ digits))))
      /\ (forall r, Handler_i r spec (ValI data)
                    = Some (Deliver r (Field spec (sign ++ digits))))
      /\ Spells false 10 digits (Z.abs value)
      /\ LocalPrecision spec <= Z.of_nat (List.length digits)
      /\ (forall m, 0 <= m -> LocalPrecision spec <= m ->
                    (has (LocalFlags spec) Flag_LeadingZeros = true -> Width spec <= m) ->
                    Z.abs value < 10 ^ m ->
                    Z.of_nat (List.length digits) <= m).
Proof.
  intros spec data Hsz Hund value sign.
  set (bitSize := TypeSizeBytes spec * 8) in *.
  set (raw := data mod 2 ^ bitSize) in *.
  assert (Hb : bitSize = 32 \/ bitSize = 64) by (unfold bitSize; lia).
  assert (Hraw : 0 <= raw < 2 ^ bitSize)
    by (apply Z.mod_pos_bound; apply Z.pow_pos_nonneg; lia).
  assert (Hhalf : 2 ^ bitSize = 2 * 2 ^ (bitSize - 1)).
  { replace bitSize with (Z.succ (bitSize - 1)) at 1 by lia.
    apply Z.pow_succ_r. lia. }
  destruct (SignBlock spec false (negb (raw <? 2 ^ (bitSize - 1))) 10 (Width spec))
    as [[sg negate] w1] eqn:Hsign.
  destruct (HandlerHelper_IntegerNative_spells spec data false bitSize false 10 false
              sg negate w1 Hb ltac:(lia) Hund Hsign)
    as (ds & Htext & Hds & Hval & Hlen & _ & Hmax).
  fold raw in Htext, Hval, Hmax.
  assert (Hp : forall mag, PrefixBlock spec mag false 10 false w1 = ([], w1)).
  { intros mag. unfold PrefixBlock.
    destruct (has (Flags spec) Flag_BasePrefix && negb (mag =? 0) || false); reflexivity. }
  rewrite Hp in Htext, Hmax. cbn [app fst snd] in Htext, Hmax.
  assert (Hw1 : w1 <= Width spec).
  { unfold SignBlock in Hsign. cbn [Z.eqb Pos.eqb] in Hsign.
    destruct (negb false && negb (raw <? 2 ^ (bitSize - 1)));
      [|destruct (has (Flags spec) Flag_ForcePosOrNegSign);
        [|destruct (has (Flags spec) Flag_SpaceForPosSign)]];
      inversion Hsign; lia. }
  assert (Hsg : sg = sign /\ (if negate then 2 ^ bitSize - raw else raw) = Z.abs value).
  { unfold SignBlock in Hsign. cbn [Z.eqb Pos.eqb negb andb] in Hsign.
    subst sign value. unfold SignedOf.
    destruct (raw <? 2 ^ (bitSize - 1)) eqn:Elow; cbn [negb] in Hsign.
    - apply Z.ltb_lt in Elow.
      replace (raw <? 0) with false by (symmetry; apply Z.ltb_ge; lia).
      destruct (has (Flags spec) Flag_ForcePosOrNegSign);
        [|destruct (has (Flags spec) Flag_SpaceForPosSign)];
        inversion Hsign; subst; (split; [reflexivity|lia]).
    - apply Z.ltb_ge in Elow.
      replace (raw - 2 ^ bitSize <? 0) with true by (symmetry; apply Z.ltb_lt; lia).
      inversion Hsign; subst. split; [reflexivity|lia]. }
  destruct Hsg as [-> Hmag]. rewrite Hmag in Hval, Hmax.
  exists (map (DigitChar false) ds). rewrite length_map.
  split; [intros r; apply IntegerHandler_native; assumption|].
  split; [intros r; apply IntegerHandler_native; assumption|].
  split; [exists ds; repeat split; assumption|].
  split; [assumption|].
  intros m Hm Hpm Hwm Hvm. apply Hmax; try assumption.
  intros Hz. specialize (Hwm Hz). lia.
Qed.

Lemma IntegerHandler_signed_spells :
  forall (spec : FormatSpec) (data : Z),
    TypeSizeBytes spec = 4 \/ TypeSizeBytes spec = 8 ->
    Undecorated spec ->
    let value := SignedOf (TypeSizeBytes spec * 8) (data mod 2 ^ (TypeSizeBytes spec * 8)) in
    let sign :=
      if value <? 0 then [ch "-"]
      else if has (Flags spec) Flag_ForcePosOrNegSign then [ch "+"]
      else if has (Flags spec) Flag_SpaceForPosSign then [ch " "]
      else [] in
    exists digits,
      (forall r, Handler_d r spec (ValI data)
                 = Some (Deliver r (Field spec (sign ++ digits))))
      /\ (forall r, Handler_i r spec (ValI data)
                    = Some (Deliver r (Field spec (sign ++ digits))))
      /\ Spells false 10 digits (Z.abs value)
      /\ LocalPrecision spec <= Z.of_nat (List.length digits).
Proof.
  intros spec data Hsz Hund value sign.
  destruct (IntegerHandler_signed_spells_bounded spec data Hsz Hund)
    as (digits & Hd & Hi & Hspell & Hlen & _).
  exists digits. split; [exact Hd|]. split; [exact Hi|]. split; [exact Hspell|exact Hlen].
Qed.

(** X12: the signed decimal directives ([d] and [i]) on a 32-bit or 64-bit
    operand, without a decorative flag, with a width and a precision that the
    helper's [buf] has room for.  The field delivered, to any sink,
    holds a sign and a text of decimal digits that spells the absolute value
    of the operand read in two's complement; the sign is a minus for a
    negative operand, else a plus with the [+] flag, else a blank with the
    space flag, else nothing.  The most negative operand is no exception. *)
Theorem signed_directives_spell_the_operand :
  forall (spec : FormatSpec) (data : Z),
    TypeSizeBytes spec = 4 \/ TypeSizeBytes spec = 8 ->
    Width spec <= 127 -> Precision spec <= 127 ->
    Undecorated spec ->
    let value := SignedOf (TypeSizeBytes spec * 8) (data mod 2 ^ (TypeSizeBytes spec * 8)) in
    let sign :=
      if value <? 0 then [ch "-"]
      else if has (Flags spec) Flag_ForcePosOrNegSign then [ch "+"]
      else if has (Flags spec) Flag_SpaceForPosSign then [ch " "]
      else [] in
    exists digits,
      (forall r, Handler_d r spec (ValI data)
                 = Some (Deliver r (Field spec (sign ++ digits))))
      /\ (forall r, Handler_i r spec (ValI data)
                    = Some (Deliver r (Field spec (sign ++ digits))))
      /\ Spells false 10 digits (Z.abs value)
      /\ LocalPrecision spec <= Z.of_nat (List.length digits).
Proof.
  intros spec data Hsz _ _ Hund.
  apply IntegerHandler_signed_spells; assumption.
Qed.

Lemma signed_directives_spell_the_operand_witness :
  exists digits,
    (forall r, Handler_d r (mkFormatSpec 0 0 (-1) 4) (ValI (2 ^ 32 - 42))
               = Some (Deliver r (Field (mkFormatSpec 0 0 (-1) 4) ([ch "-"] ++ digits))))
    /\ Spells false 10 digits 42.
Proof.
  destruct (signed_directives_spell_the_operand (mkFormatSpec 0 0 (-1) 4)
              (2 ^ 32 - 42))
    as (digits & Hrun & _ & Hspell & _).
  - left. reflexivity.
  - simpl; lia.
  - simpl; lia.
  - split; reflexivity.
  - exists digits. split; [exact Hrun|exact Hspell].
Defined.

Lemma Field_fits (spec : FormatSpec) (text : list Z) :
  - 2 ^ 31 <= Width spec - Z.of_nat (List.length text) <= 0 -> Field spec text = text.
Proof.
  intros Hw. unfold Field, PadLeft, PadRight.
  rewrite int32_small by (unfold INT_MAX; lia).
  replace (Z.to_nat (Width spec - Z.of_nat (List.length text))) with 0%nat by lia.
  destruct (has (Flags spec) Flag_LeftJustify); cbn [repeat app]; [apply app_nil_r|].
  apply app_nil_r.
Qed.

(** X13: the pointer directive [p] with no width, no precision and no
    decorative flag, on a 64-bit or 32-bit operand: any sink gets [0x] and
    then exactly two upper-case hexadecimal digits for each byte of the
    operand, zeros in front included, that spell the operand; no padding is
    added. *)
Theorem pointer_directive_spells_the_address :
  forall (spec : FormatSpec) (data : Z),
    TypeSizeBytes spec = 4 \/ TypeSizeBytes spec = 8 ->
    Width spec = 0 ->
    Precision spec = -1 ->
    Undecorated spec ->
    exists digits,
      (forall r, Handler_p r spec (ValI data) = Some (Deliver r (cstr "0x" ++ digits)))
      /\ Spells true 16 digits (data mod 2 ^ (TypeSizeBytes spec * 8))
      /\ Z.of_nat (List.length digits) = 2 * TypeSizeBytes spec.
Proof.
  intros [flags width precision bytes] data Hsz Hw Hp [Hdec Halt].
  cbn [TypeSizeBytes Width Precision Flags] in *. subst width precision.
  set (pspec := mkFormatSpec (Z.lor flags Flag_LeadingZeros) (2 + 2 * bytes) (-1) bytes).
  assert (Hb : bytes * 8 = 32 \/ bytes * 8 = 64) by lia.
  assert (Hund : Undecorated pspec).
  { split; cbn [pspec Flags]; rewrite has_lor; [rewrite Hdec|rewrite Halt]; reflexivity. }
  assert (Hsign : SignBlock pspec true (negb (data mod 2 ^ (bytes * 8) <? 2 ^ (bytes * 8 - 1)))
                    16 (Width pspec) = ([], false, Width pspec)) by reflexivity.
  destruct (HandlerHelper_IntegerNative_spells pspec data true (bytes * 8) true 16 true
              [] false (Width pspec) Hb ltac:(lia) Hund Hsign)
    as (ds & Htext & Hds & Hval & Hlen & Hzero & Hmax).
  assert (Hprefix : PrefixBlock pspec (data mod 2 ^ (bytes * 8)) true 16 true (Width pspec)
                    = (cstr "0x", 2 * bytes)).
  { unfold PrefixBlock. rewrite orb_true_r. cbn [Z.eqb Pos.eqb negb orb pspec Width].
    f_equal. lia. }
  rewrite Hprefix in Htext, Hzero, Hmax. cbn [fst snd app] in Htext, Hzero, Hmax.
  assert (Hz : has (LocalFlags pspec) Flag_LeadingZeros = true).
  { unfold LocalFlags. cbn [pspec Precision Flags Z.eqb Pos.eqb].
    rewrite has_lor. apply orb_true_r. }
  specialize (Hzero Hz).
  assert (Hvalue : 0 <= data mod 2 ^ (bytes * 8) < 2 ^ (bytes * 8))
    by (apply Z.mod_pos_bound; apply Z.pow_pos_nonneg; lia).
  assert (Hupper : Z.of_nat (List.length ds) <= 2 * bytes).
  { apply Hmax; [lia|change (LocalPrecision pspec) with 1; lia|intros _; lia|].
    replace (16 ^ (2 * bytes)) with (2 ^ (bytes * 8)); [lia|].
    destruct Hsz; subst bytes; reflexivity. }
  exists (map (DigitChar true) ds). rewrite length_map.
  split; [|split; [exists ds; repeat split; assumption|lia]].
  intros r. unfold Handler_p, set_Width, set_Flags.
  cbn [TypeSizeBytes Width Flags Precision Z.eqb operand_bits].
  change (mkFormatSpec (Z.lor flags Flag_LeadingZeros) (2 + 2 * bytes) (-1) bytes) with pspec.
  rewrite Htext. rewrite Justified_buf. rewrite Field_fits; [reflexivity|].
  cbn [pspec Width List.length cstr app]. rewrite length_map. lia.
Qed.

Lemma pointer_directive_spells_the_address_witness :
  exists digits,
    (forall r, Handler_p r (mkFormatSpec 0 0 (-1) 8) (ValI 48879)
               = Some (Deliver r (cstr "0x" ++ digits)))
    /\ Spells true 16 digits (48879 mod 2 ^ (8 * 8))
    /\ Z.of_nat (List.length digits) = 2 * 8.
Proof.
  refine (pointer_directive_spells_the_address (mkFormatSpec 0 0 (-1) 8)
            48879 _ _ _ _).
  - right. reflexivity.
  - reflexivity.
  - reflexivity.
  - split; reflexivity.
Defined.

(** ** Whole formats with one integer directive *)

Lemma Process_directive (dp : Z) (fuel : nat) (r : Receiver) (c1 : Z) (rest' : list Z)
  (argList : list Arg) (r' : Receiver) (format' : list Z) (argList' : list Arg) :
  IsValidFormatSpecifierCharacter dp c1 = true ->
  ProcessDirective dp r (c1 :: rest') argList = inr (r', format', argList') ->
  Process dp (S fuel) r (ch "%" :: c1 :: rest') argList = Process dp fuel r' format' argList'.
Proof.
  intros Hvalid Hdir. cbn [Process].
  change (ch "%" =? 0) with false. change (negb (ch "%" =? ch "%")) with false.
  cbv iota. rewrite Hvalid. cbn [negb]. rewrite Hdir. reflexivity.
Qed.

Lemma ProcessDirective_step (dp : Z) (r : Receiver) (format : list Z) (argList : list Arg)
  (type : Z) (rest : list Z) (a : list Arg) (spec : FormatSpec) (h : HandlerInfo)
  (pval : Operand) (a' : list Arg) (r' : Receiver) :
  ParseSpec format argList = inr (type :: rest, a, spec) ->
  FindHandler dp type = Some h ->
  va_arg_val (TypeSizeBytes (DefaultTypeSize h spec)) (TypeBase h) a = Some (Some pval, a') ->
  Handler h r (DefaultTypeSize h spec) pval = Some r' ->
  ProcessDirective dp r format argList = inr (r', rest, a').
Proof.
  intros Hparse Hfind Harg Hrun. unfold ProcessDirective.
  rewrite Hparse, Hfind, Harg, Hrun. reflexivity.
Qed.

Lemma RunProcess_literal (dp : Z) (r : Receiver) (text rest : list Z) (argList : list Arg) :
  Forall Literal text ->
  RunProcess dp r (text ++ rest) argList = RunProcess dp (Deliver r text) rest argList.
Proof.
  intros Hlit. unfold RunProcess. rewrite length_app.
  replace (S (List.length text + List.length rest))
    with (List.length text + S (List.length rest))%nat by lia.
  apply Process_literal. assumption.
Qed.

(** One directive and the terminator. *)
Lemma RunProcess_one_directive (dp : Z) (r : Receiver) (c1 : Z) (rest' : list Z)
  (argList : list Arg) (r' : Receiver) (argList' : list Arg) :
  IsValidFormatSpecifierCharacter dp c1 = true ->
  ProcessDirective dp r (c1 :: rest') argList = inr (r', [0], argList') ->
  RunProcess dp r (ch "%" :: c1 :: rest') argList = Done (Deliver r' [0]).
Proof.
  intros Hvalid Hdir. unfold RunProcess. cbn [List.length].
  rewrite (Process_directive dp _ r c1 rest' argList r' [0] argList' Hvalid Hdir).
  cbn [Process]. rewrite Z.eqb_refl, Receive_Deliver. reflexivity.
Qed.

Lemma BitRep64_renders (dp : Z) (bits : Z) :
  exists digits,
    (forall r, RunProcess dp r BitRep64Format [ArgI 8 bits]
               = Done (Deliver r ((ch "#" :: digits) ++ [0])))
    /\ Spells true 16 digits (bits mod 2 ^ 64)
    /\ List.length digits = 16%nat.
Proof.
  set (spec := mkFormatSpec Flag_LeadingZeros 16 (-1) 8).
  destruct (IntegerHandler_unsigned_spells spec (bits mod 2 ^ (8 * 8)) true 16)
    as (text & Hrun & Hspell & _ & Hzero & Hmax);
    [right; reflexivity|lia|split; reflexivity|reflexivity|reflexivity|reflexivity|].
  cbn [TypeSizeBytes spec] in Hspell, Hmax. change (8 * 8) with 64 in *.
  rewrite Z.mod_mod in Hspell, Hmax by lia.
  assert (Hlen : Z.of_nat (List.length text) = 16).
  { specialize (Hzero eq_refl). cbn [Width spec] in Hzero.
    assert (Z.of_nat (List.length text) <= 16); [|lia].
    apply Hmax; [lia|change (LocalPrecision spec) with 1; lia|intros _; cbn [Width spec]; lia|].
    change (16 ^ 16) with (2 ^ 64). apply Z.mod_pos_bound. lia. }
  rewrite Field_fits in Hrun by (cbn [Width spec]; lia).
  exists text. split; [|split; [assumption|lia]].
  intros r. unfold BitRep64Format.
  change (cstr "#%016|64X" ++ [0]) with ([ch "#"] ++ ch "%" :: ch "0" :: cstr "16|64X" ++ [0]).
  rewrite RunProcess_literal by (repeat constructor; unfold ch; simpl; lia).
  rewrite (RunProcess_one_directive dp _ (ch "0") (cstr "16|64X" ++ [0]) [ArgI 8 bits]
             (Deliver (Deliver r [ch "#"]) text) []).
  - rewrite !Deliver_app. reflexivity.
  - reflexivity.
  - apply (ProcessDirective_step dp _ _ _ (ch "X") [0] [ArgI 8 bits] spec
             (mkHandlerInfo (ch "X") BT_Int 4 Handler_X) (ValI (bits mod 2 ^ (8 * 8))) []).
    + vm_compute. reflexivity.
    + reflexivity.
    + reflexivity.
    + apply Hrun.
Qed.

Lemma BitRep32_renders (dp : Z) (bits : Z) :
  exists digits,
    (forall r, RunProcess dp r BitRep32Format [ArgI 4 bits]
               = Done (Deliver r ((ch "#" :: digits) ++ [0])))
    /\ Spells true 16 digits (bits mod 2 ^ 32)
    /\ List.length digits = 8%nat.
Proof.
  set (spec := mkFormatSpec Flag_LeadingZeros 8 (-1) 4).
  destruct (IntegerHandler_unsigned_spells spec (bits mod 2 ^ (8 * 4)) true 16)
    as (text & Hrun & Hspell & _ & Hzero & Hmax);
    [left; reflexivity|lia|split; reflexivity|reflexivity|reflexivity|reflexivity|].
  cbn [TypeSizeBytes spec] in Hspell, Hmax.
  change (8 * 4) with 32 in *. change (4 * 8) with 32 in *.
  rewrite Z.mod_mod in Hspell, Hmax by lia.
  assert (Hlen : Z.of_nat (List.length text) = 8).
  { specialize (Hzero eq_refl). cbn [Width spec] in Hzero.
    assert (Z.of_nat (List.length text) <= 8); [|lia].
    apply Hmax; [lia|change (LocalPrecision spec) with 1; lia|intros _; cbn [Width spec]; lia|].
    change (16 ^ 8) with (2 ^ 32). apply Z.mod_pos_bound. lia. }
  rewrite Field_fits in Hrun by (cbn [Width spec]; lia).
  exists text. split; [|split; [assumption|lia]].
  intros r. unfold BitRep32Format.
  change (cstr "#%08X" ++ [0]) with ([ch "#"] ++ ch "%" :: ch "0" :: cstr "8X" ++ [0]).
  rewrite RunProcess_literal by (repeat constructor; unfold ch; simpl; lia).
  rewrite (RunProcess_one_directive dp _ (ch "0") (cstr "8X" ++ [0]) [ArgI 4 bits]
             (Deliver (Deliver r [ch "#"]) text) []).
  - rewrite !Deliver_app. reflexivity.
  - reflexivity.
  - apply (ProcessDirective_step dp _ _ _ (ch "X") [0] [ArgI 4 bits]
             (mkFormatSpec Flag_LeadingZeros 8 (-1) 0)
             (mkHandlerInfo (ch "X") BT_Int 4 Handler_X) (ValI (bits mod 2 ^ (8 * 4))) []).
    + vm_compute. reflexivity.
    + reflexivity.
    + reflexivity.
    + apply Hrun.
Qed.

Lemma tvsPrintf_of_render (dp : Z) (format : list Z) (argList : list Arg) (text : list Z) :
  (forall r, RunProcess dp r format argList = Done (Deliver r (text ++ [0]))) ->
  tvPrintf dp (Some format) argList = Some (Z.of_nat (List.length text), text ++ [0])
  /\ tvsPrintf dp true (Some format) argList
     = Some (Z.of_nat (List.length text), text ++ [0])
  /\ tvcPrintf dp (Some format) argList = Some (Z.of_nat (List.length text)).
Proof.
  intros Hall. unfold tvPrintf, tvsPrintf, tvcPrintf. rewrite !Hall.
  cbn. rewrite length_app. cbn [List.length].
  replace (Z.of_nat (List.length text + 1) - 1) with (Z.of_nat (List.length text)) by lia.
  repeat split; reflexivity.
Qed.

(** X14: the bit representation that [tDtostr] and [tFtostr] append.  The
    format [#%016|64X] with any 64-bit operand renders the hash and exactly
    16 upper-case hexadecimal digits that spell the operand, and
    [tvsPrintf] returns 17; the format [#%08X] with any 32-bit operand
    renders the hash and exactly 8 such digits and returns 9.  These are the
    values of [extraNeeded], so the assertion
    [extraWritten == extraNeeded] of the two functions holds for every
    operand, and the room they reserve is the room used. *)
Theorem bit_representation_has_the_length_reserved :
  forall (dp bits : Z),
    (exists digits,
        tvsPrintf dp true (Some BitRep64Format) [ArgI 8 bits]
        = Some (17, (ch "#" :: digits) ++ [0])
        /\ Spells true 16 digits (bits mod 2 ^ 64)
        /\ List.length digits = 16%nat)
    /\ (exists digits,
           tvsPrintf dp true (Some BitRep32Format) [ArgI 4 bits]
           = Some (9, (ch "#" :: digits) ++ [0])
           /\ Spells true 16 digits (bits mod 2 ^ 32)
           /\ List.length digits = 8%nat).
Proof.
  intros dp bits. split.
  - destruct (BitRep64_renders dp bits) as (digits & Hall & Hspell & Hlen).
    exists digits. split; [|split; assumption].
    destruct (tvsPrintf_of_render dp BitRep64Format [ArgI 8 bits] (ch "#" :: digits) Hall)
      as (_ & Hs & _).
    rewrite Hs. cbn [List.length]. rewrite Hlen. reflexivity.
  - destruct (BitRep32_renders dp bits) as (digits & Hall & Hspell & Hlen).
    exists digits. split; [|split; assumption].
    destruct (tvsPrintf_of_render dp BitRep32Format [ArgI 4 bits] (ch "#" :: digits) Hall)
      as (_ & Hs & _).
    rewrite Hs. cbn [List.length]. rewrite Hlen. reflexivity.
Qed.

(** X15: printing an [int] with [%d] and reading the text back gives the
    [int].  For every 32-bit operand the render is a minus sign when the
    operand is negative in two's complement, then at least one decimal digit,
    the digits spelling its absolute value, then the terminator; the count
    returned is the length of that text, and counting, printing and storing
    into a string agree on it. *)
Theorem decimal_format_round_trip :
  forall (dp n : Z),
    let value := SignedOf 32 (n mod 2 ^ 32) in
    let sign := if value <? 0 then [ch "-"] else [] in
    exists digits,
      Spells false 10 digits (Z.abs value)
      /\ (1 <= List.length digits)%nat
      /\ tvPrintf dp (Some DecimalFormat) [ArgI 4 n]
         = Some (Z.of_nat (List.length (sign ++ digits)), (sign ++ digits) ++ [0])
      /\ tvsPrintf dp true (Some DecimalFormat) [ArgI 4 n]
         = Some (Z.of_nat (List.length (sign ++ digits)), (sign ++ digits) ++ [0])
      /\ tvcPrintf dp (Some DecimalFormat) [ArgI 4 n]
         = Some (Z.of_nat (List.length (sign ++ digits))).
Proof.
  intros dp n value sign.
  set (spec := mkFormatSpec 0 0 (-1) 4).
  destruct (IntegerHandler_signed_spells_bounded spec (n mod 2 ^ (8 * 4)))
    as (digits & Hrun & _ & Hspell & Hlen & Hmax);
    [left; reflexivity|split; reflexivity|].
  cbn [TypeSizeBytes spec] in Hrun, Hspell, Hmax.
  change (8 * 4) with 32 in *. change (4 * 8) with 32 in *.
  rewrite Z.mod_mod in Hrun, Hspell, Hmax by lia.
  fold value in Hrun, Hspell, Hmax.
  assert (Hten : Z.of_nat (List.length digits) <= 10).
  { apply Hmax; [lia|change (LocalPrecision spec) with 1; lia|intros H; discriminate H|].
    subst value. unfold SignedOf.
    pose proof (Z.mod_pos_bound n (2 ^ 32) ltac:(lia)) as Hn.
    change (2 ^ (32 - 1)) with 2147483648 in *. change (2 ^ 32) with 4294967296 in *.
    change (10 ^ 10) with 10000000000.
    destruct (n mod 4294967296 <? 2147483648) eqn:E;
      [apply Z.ltb_lt in E|apply Z.ltb_ge in E]; lia. }
  change (has (Flags spec) Flag_ForcePosOrNegSign) with false in Hrun.
  change (has (Flags spec) Flag_SpaceForPosSign) with false in Hrun.
  cbv iota in Hrun. fold sign in Hrun.
  change (LocalPrecision spec) with 1 in Hlen.
  exists digits. split; [assumption|]. split; [lia|].
  apply tvsPrintf_of_render. intros r.
  unfold DecimalFormat. change (cstr "%d" ++ [0]) with (ch "%" :: ch "d" :: [0]).
  rewrite (RunProcess_one_directive dp r (ch "d") [0] [ArgI 4 n]
             (Deliver r (sign ++ digits)) []).
  - rewrite Deliver_app. reflexivity.
  - reflexivity.
  - apply (ProcessDirective_step dp _ _ _ (ch "d") [0] [ArgI 4 n] FormatSpec_default
             (mkHandlerInfo (ch "d") BT_Int 4 Handler_d) (ValI (n mod 2 ^ (8 * 4))) []).
    + reflexivity.
    + reflexivity.
    + reflexivity.
    + change (DefaultTypeSize (mkHandlerInfo (ch "d") BT_Int 4 Handler_d) FormatSpec_default)
        with spec.
      change (Handler (mkHandlerInfo (ch "d") BT_Int 4 Handler_d)) with Handler_d.
      rewrite Hrun. rewrite Field_fits; [reflexivity|].
      cbn [Width spec]. rewrite length_app.
      assert (Hsign : (List.length sign <= 1)%nat)
        by (subst sign; destruct (value <? 0); simpl; lia).
      lia.
Qed.

(** ** Integers: the decorative flags add separators and nothing else *)

Lemma DigitChar_no_separator (upperCase : bool) (d : Z) :
  0 <= d < 16 -> IsSeparator (DigitChar upperCase d) = false.
Proof.
  intros Hd. unfold IsSeparator, DigitChar.
  change (ch "0") with 48. change (ch "A") with 65. change (ch "a") with 97.
  change (ch "_") with 95. change (ch ",") with 44.
  apply orb_false_iff.
  destruct (d <? 10) eqn:E; [apply Z.ltb_lt in E|apply Z.ltb_ge in E];
    destruct upperCase; split; apply Z.eqb_neq; lia.
Qed.

Lemma StripSeparators_Group (every sep : Z) (ds : list Z) :
  IsSeparator sep = true ->
  Forall (fun c => IsSeparator c = false) ds ->
  StripSeparators (Spec_GroupFromRight every sep ds) = ds.
Proof.
  intros Hsep. induction 1 as [|d ds Hd _ IH]; [reflexivity|].
  cbn [Spec_GroupFromRight]. unfold StripSeparators in *. cbn [filter].
  rewrite Hd. cbn [negb]. f_equal. rewrite filter_app, IH.
  destruct ((Z.of_nat (List.length ds) mod every =? 0) && (0 <? Z.of_nat (List.length ds)));
    [|reflexivity].
  cbn [filter]. rewrite Hsep. reflexivity.
Qed.

Lemma Group_length (every sep : Z) (ds : list Z) :
  0 < every ->
  Z.of_nat (List.length (Spec_GroupFromRight every sep ds))
  = Z.of_nat (List.length ds) + Z.max 0 ((Z.of_nat (List.length ds) - 1) / every).
Proof.
  intros Hevery. induction ds as [|d ds IH]; [cbn; rewrite Z.max_l; [reflexivity|]|].
  - apply Z.lt_succ_r. apply Z.div_lt_upper_bound; lia.
  - cbn [Spec_GroupFromRight]. cbn [List.length]. rewrite length_app.
    rewrite !Nat2Z.inj_succ, Nat2Z.inj_add, IH.
    set (n := Z.of_nat (List.length ds)).
    assert (Hn : 0 <= n) by (subst n; lia).
    replace (Z.succ n - 1) with n by lia.
    destruct (n mod every =? 0) eqn:Emod;
      [apply Z.eqb_eq in Emod|apply Z.eqb_neq in Emod];
      (destruct (0 <? n) eqn:Epos; [apply Z.ltb_lt in Epos|apply Z.ltb_ge in Epos]);
      cbn [andb List.length].
    + assert (Hd : n / every = (n - 1) / every + 1).
      { pose proof (Z.div_mod n every ltac:(lia)) as H1.
        pose proof (Z.div_mod (n - 1) every ltac:(lia)) as H2.
        pose proof (Z.mod_pos_bound (n - 1) every Hevery) as H3. nia. }
      assert (0 <= (n - 1) / every) by (apply Z.div_pos; lia). lia.
    + assert (n = 0) by lia. subst n.
      replace (Z.of_nat (List.length ds)) with 0 by lia.
      replace ((0 - 1) / every) with (-1).
      * rewrite Z.div_0_l by lia. lia.
      * apply Z.div_unique with (every - 1); lia.
    + assert (Hd : n / every = (n - 1) / every).
      { pose proof (Z.div_mod n every ltac:(lia)) as H1.
        pose proof (Z.div_mod (n - 1) every ltac:(lia)) as H2.
        pose proof (Z.mod_pos_bound (n - 1) every Hevery) as H3.
        pose proof (Z.mod_pos_bound n every Hevery) as H4. nia. }
      assert (0 <= (n - 1) / every) by (apply Z.div_pos; lia). lia.
    + assert (n = 0) by lia. subst n.
      replace (Z.of_nat (List.length ds)) with 0 in * by lia.
      rewrite Z.mod_0_l in Emod by lia. contradiction.
Qed.

(** X16: the unsigned integer directives under the decorative flags [_] and
    ['], with a width and a precision that the helper's [buf] has room for.  The text in the field is the digit text of the directive with
    separators put in, an underscore every 4 digits or a comma every 3
    counted from the right: taking the separators out gives back digits that
    spell the operand, and a text of [n >= 1] digits gets [(n - 1) / 4]
    underscores or [(n - 1) / 3] commas.  Zeros asked for by the precision
    or by the zero flag are digits like the others and are grouped with
    them. *)
Theorem decorated_digits_spell_the_operand :
  forall (spec : FormatSpec) (data : Z) (upperCase : bool) (base : Z),
    TypeSizeBytes spec = 4 \/ TypeSizeBytes spec = 8 ->
    2 <= base <= 16 ->
    Width spec <= 127 -> Precision spec <= 127 ->
    has (Flags spec) Flag_BasePrefix = false ->
    has (Flags spec) Flag_ForcePosOrNegSign = false ->
    has (Flags spec) Flag_SpaceForPosSign = false ->
    exists digits,
      Spells upperCase base digits (data mod 2 ^ (TypeSizeBytes spec * 8))
      /\ (forall r, IntegerHandler true upperCase base r spec (ValI data)
                    = Some (Deliver r (Field spec (Decorated (Flags spec) digits))))
      /\ StripSeparators (Decorated (Flags spec) digits) = digits
      /\ Z.of_nat (List.length (Decorated (Flags spec) digits))
         = Z.of_nat (List.length digits)
           + (if has (Flags spec) Flag_DecorativeFormatting
              then Z.max 0 ((Z.of_nat (List.length digits) - 1) / 4)
              else if has (Flags spec) Flag_DecorativeFormattingAlt
                   then Z.max 0 ((Z.of_nat (List.length digits) - 1) / 3)
                   else 0).
Proof.
  intros spec data upperCase base Hsz Hbase _ _ Hprefix Hplus Hspace.
  assert (Hb : TypeSizeBytes spec * 8 = 32 \/ TypeSizeBytes spec * 8 = 64) by lia.
  assert (Hsign : SignBlock spec true
                    (negb (data mod 2 ^ (TypeSizeBytes spec * 8)
                           <? 2 ^ (TypeSizeBytes spec * 8 - 1)))
                    base (Width spec) = ([], false, Width spec)).
  { unfold SignBlock. rewrite Hplus, Hspace. cbn [negb andb].
    destruct (base =? 10); reflexivity. }
  destruct (HandlerHelper_IntegerNative_digits spec data true (TypeSizeBytes spec * 8)
              upperCase base false [] false (Width spec) Hb ltac:(lia) Hsign)
    as (ds & Htext & Hds & Hval & _).
  assert (Hp : PrefixBlock spec (data mod 2 ^ (TypeSizeBytes spec * 8)) upperCase base false
                 (Width spec) = ([], Width spec)).
  { unfold PrefixBlock. rewrite Hprefix. reflexivity. }
  rewrite Hp in Htext. cbn [fst app] in Htext.
  assert (Hemit : IntegerNative_Emit (LocalFlags spec) (map (DigitChar upperCase) ds) []
                  = Decorated (Flags spec) (map (DigitChar upperCase) ds)).
  { unfold IntegerNative_Emit, Decorated. rewrite !has_LocalFlags by reflexivity.
    destruct (has (Flags spec) Flag_DecorativeFormatting);
      [rewrite Decorate_spec by lia; reflexivity|].
    destruct (has (Flags spec) Flag_DecorativeFormattingAlt);
      [rewrite Decorate_spec by lia; reflexivity|reflexivity]. }
  rewrite Hemit in Htext.
  assert (Hnosep : Forall (fun c => IsSeparator c = false) (map (DigitChar upperCase) ds)).
  { apply Forall_map. eapply Forall_impl; [|exact Hds].
    intros d Hd. cbv beta in Hd. apply DigitChar_no_separator. lia. }
  exists (map (DigitChar upperCase) ds).
  split; [exists ds; repeat split; assumption|].
  split; [intros r; apply IntegerHandler_native; assumption|].
  unfold Decorated.
  destruct (has (Flags spec) Flag_DecorativeFormatting).
  - split; [apply StripSeparators_Group; [reflexivity|assumption]|].
    apply Group_length. lia.
  - destruct (has (Flags spec) Flag_DecorativeFormattingAlt).
    + split; [apply StripSeparators_Group; [reflexivity|assumption]|].
      apply Group_length. lia.
    + split; [|lia].
      unfold StripSeparators. apply forallb_filter_id.
      apply forallb_forall. intros c Hc.
      rewrite Forall_forall in Hnosep. rewrite (Hnosep c Hc). reflexivity.
Qed.

Lemma decorated_digits_spell_the_operand_witness :
  exists digits,
    Spells false 10 digits (1234567 mod 2 ^ (4 * 8))
    /\ (forall r, Handler_u r (mkFormatSpec Flag_DecorativeFormattingAlt 0 (-1) 4) (ValI 1234567)
                  = Some (Deliver r (Field (mkFormatSpec Flag_DecorativeFormattingAlt 0 (-1) 4)
                                           (Decorated Flag_DecorativeFormattingAlt digits))))
    /\ StripSeparators (Decorated Flag_DecorativeFormattingAlt digits) = digits.
Proof.
  destruct (decorated_digits_spell_the_operand
              (mkFormatSpec Flag_DecorativeFormattingAlt 0 (-1) 4) 1234567 false 10)
    as (digits & Hspell & Hrun & Hstrip & _).
  - left. reflexivity.
  - lia.
  - simpl; lia.
  - simpl; lia.
  - reflexivity.
  - reflexivity.
  - reflexivity.
  - exists digits. split; [exact Hspell|]. split; [exact Hrun|exact Hstrip].
Defined.

(** ** Floating point: special values and the exponent *)

(** X17: the special floating point values.
    [HandlerHelper_HandleSpecialFloatTypes] recognises the infinities and the
    NaNs and no other operand, and the word it gives goes by the sign: inf
    and -inf, nan for a NaN with the sign bit clear and -nan for one with the
    sign bit set, be it quiet, signalling or indeterminate.  For an operand
    it recognises, the [f] directive delivers the word in a field of the
    width with the leading-zeros flag taken out, so the padding is blanks
    even under the zero flag; the [e] directive delivers the word alone, with
    no regard to width or flags; and the [g] directive does the one or the
    other, as its comparison with the threshold falls. *)
Theorem special_values_render_as_words :
  forall (dp : Z) (spec : FormatSpec) (v : double) (word : list Z),
    HandlerHelper_HandleSpecialFloatTypes [] v = (word, true) ->
    let modSpec := set_Flags spec (clear (Flags spec) Flag_LeadingZeros) in
    In word SpecialWords
    /\ SpecialWord v = Some word
    /\ (forall v' : double,
          HandlerHelper_HandleSpecialFloatTypes [] v'
          = match SpecialWord v' with
            | Some word' => (word', true)
            | None => ([], false)
            end)
    /\ has (Flags modSpec) Flag_LeadingZeros = false
    /\ (forall r, Handler_f dp r spec (ValD v) = Some (Deliver r (Field modSpec word)))
    /\ (forall r, Handler_e dp r spec (ValD v) = Some (Deliver r word))
    /\ (forall r, Handler_g dp r spec (ValD v)
                  = match Handler_g_choice dp spec (Value v) with
                    | FixedPoint => Handler_f dp r spec (ValD v)
                    | Exponential => Handler_e dp r spec (ValD v)
                    end).
Proof.
  intros dp spec v word Hspecial modSpec.
  assert (Hword : forall v' : double,
             HandlerHelper_HandleSpecialFloatTypes [] v'
             = match SpecialWord v' with
               | Some word' => (word', true)
               | None => ([], false)
               end).
  { intros v'. unfold HandlerHelper_HandleSpecialFloatTypes, tGetFloatType, SpecialWord.
    destruct (PrimFloat.classify (Value v')); try reflexivity.
    cbv zeta.
    destruct (NanFraction v' mod 2 ^ 52 <? 2 ^ 51);
      [destruct (NanSign v'); reflexivity|].
    destruct (NanSign v'); cbn [negb]; [|reflexivity].
    destruct (NanFraction v' mod 2 ^ 52 =? 2 ^ 51); reflexivity. }
  assert (Hf : forall r, Handler_f dp r spec (ValD v) = Some (Deliver r (Field modSpec word))).
  { intros r. unfold Handler_f, Handler_f_double. rewrite Hspecial.
    unfold FloatEmit. fold modSpec. apply Justified_buf. }
  assert (He : forall r, Handler_e dp r spec (ValD v) = Some (Deliver r word)).
  { intros r. unfold Handler_e. rewrite Hspecial. apply Receive_buf_Deliver. }
  assert (Hsome : SpecialWord v = Some word).
  { rewrite Hword in Hspecial. destruct (SpecialWord v) as [w|];
      inversion Hspecial; reflexivity. }
  split; [|split; [exact Hsome|split; [exact Hword|
           split; [apply has_clear_same|split; [exact Hf|split; [exact He|]]]]]].
  - unfold SpecialWord in Hsome. unfold SpecialWords.
    destruct (PrimFloat.classify (Value v)); try discriminate Hsome;
      try destruct (NanSign v); inversion Hsome; subst; cbn [In]; auto 10.
  - intros r. unfold Handler_g. destruct (Handler_g_choice dp spec (Value v)).
    + rewrite Hf. rewrite Hspecial. unfold FloatEmit. fold modSpec. apply Justified_buf.
    + rewrite He. rewrite Hspecial. apply Receive_buf_Deliver.
Qed.

Lemma special_values_render_as_words_witness :
  HandlerHelper_HandleSpecialFloatTypes [] IndeterminateNaN = (cstr "-nan", true)
  /\ SpecialWord IndeterminateNaN = Some (cstr "-nan")
  /\ Handler_f 4 Receiver_string (mkFormatSpec Flag_LeadingZeros 6 (-1) 8)
               (ValD IndeterminateNaN)
     = Some (Deliver Receiver_string (cstr "  -nan")).
Proof.
  assert (H : HandlerHelper_HandleSpecialFloatTypes [] IndeterminateNaN = (cstr "-nan", true))
    by (vm_compute; reflexivity).
  split; [exact H|].
  pose proof (special_values_render_as_words 4 (mkFormatSpec Flag_LeadingZeros 6 (-1) 8)
                IndeterminateNaN (cstr "-nan") H) as (_ & Hw & _ & _ & Hf & _).
  split; [exact Hw|]. exact (Hf Receiver_string).
Defined.

(** X18: the exponent that [Handler_e] and [Handler_g] write.  For an
    exponent of at most three digits the suffix is the letter e, a plus sign
    for an exponent that is zero or positive and a minus sign for a negative
    one, and then decimal digits that spell its absolute value: two digits
    when the absolute value is below 100, three otherwise. *)
Theorem ExpSuffix_spells_the_exponent :
  forall (exponent : Z),
    -999 <= exponent <= 999 ->
    exists digits,
      ExpSuffix exponent
      = ch "e" :: (if exponent >=? 0 then ch "+" else ch "-") :: digits
      /\ Spells false 10 digits (Z.abs exponent)
      /\ List.length digits = (if Z.abs exponent <? 100 then 2%nat else 3%nat).
Proof.
  intros exponent Hrange. unfold ExpSuffix.
  set (a := if exponent >=? 0 then exponent else - exponent).
  assert (Ha : a = Z.abs exponent).
  { subst a. destruct (exponent >=? 0) eqn:E; rewrite Z.geb_leb in E;
      [apply Z.leb_le in E|apply Z.leb_gt in E]; lia. }
  assert (Hr : 0 <= a <= 999) by lia.
  assert (Hq1 : 0 <= a / 10) by (apply Z.div_pos; lia).
  assert (Hq2 : 0 <= a / 10 / 10) by (apply Z.div_pos; lia).
  replace (Z.quot a 10) with (a / 10) by (symmetry; apply Z.quot_div_nonneg; lia).
  replace (Z.quot (a / 10) 10) with (a / 10 / 10)
    by (symmetry; apply Z.quot_div_nonneg; lia).
  rewrite (Z.rem_mod_nonneg a 10), (Z.rem_mod_nonneg (a / 10) 10),
    (Z.rem_mod_nonneg (a / 10 / 10) 10) by lia.
  rewrite <- Ha.
  assert (H2 : 0 <= a mod 10 < 10) by (apply Z.mod_pos_bound; lia).
  assert (H1 : 0 <= (a / 10) mod 10 < 10) by (apply Z.mod_pos_bound; lia).
  assert (H0 : 0 <= (a / 10 / 10) mod 10 < 10) by (apply Z.mod_pos_bound; lia).
  assert (Hd : forall d, 0 <= d < 10 -> ch "0" + d = DigitChar false d).
  { intros d Hdd. unfold DigitChar.
    replace (d <? 10) with true by (symmetry; apply Z.ltb_lt; lia). reflexivity. }
  assert (Hsplit : a = (a / 10 / 10) * 100 + ((a / 10) mod 10) * 10 + a mod 10).
  { pose proof (Z.div_mod a 10 ltac:(lia)). pose proof (Z.div_mod (a / 10) 10 ltac:(lia)).
    lia. }
  assert (Hsmall : (a / 10 / 10) mod 10 = a / 10 / 10).
  { apply Z.mod_small. split; [apply Z.div_pos; [apply Z.div_pos|]; lia|].
    apply Z.div_lt_upper_bound; [lia|]. apply Z.div_lt_upper_bound; lia. }
  destruct ((a / 10 / 10) mod 10 =? 0) eqn:E0; cbn [negb app].
  - apply Z.eqb_eq in E0.
    exists [DigitChar false ((a / 10) mod 10); DigitChar false (a mod 10)].
    rewrite !Hd by assumption.
    split; [reflexivity|]. split.
    + exists [(a / 10) mod 10; a mod 10]. split; [reflexivity|].
      split; [repeat constructor; lia|]. unfold BaseValue. cbn [fold_left]. lia.
    + replace (a <? 100) with true by (symmetry; apply Z.ltb_lt; lia). reflexivity.
  - apply Z.eqb_neq in E0.
    exists [DigitChar false ((a / 10 / 10) mod 10); DigitChar false ((a / 10) mod 10);
            DigitChar false (a mod 10)].
    rewrite !Hd by assumption.
    split; [reflexivity|]. split.
    + exists [(a / 10 / 10) mod 10; (a / 10) mod 10; a mod 10]. split; [reflexivity|].
      split; [repeat constructor; lia|]. unfold BaseValue. cbn [fold_left]. lia.
    + replace (a <? 100) with false by (symmetry; apply Z.ltb_ge; lia). reflexivity.
Qed.

Lemma ExpSuffix_spells_the_exponent_witness :
  -999 <= -308 <= 999
  /\ exists digits,
      ExpSuffix (-308) = ch "e" :: ch "-" :: digits
      /\ Spells false 10 digits 308
      /\ List.length digits = 3%nat.
Proof.
  split; [lia|].
  refine (ExpSuffix_spells_the_exponent (-308) _). lia.
Defined.

(** ** Vectors and quaternions: the components, joined *)

(** A use of the sink that hands over the same runs whatever the sink: what it
    hands to a growing buffer is what it delivers to every sink. *)
Lemma Traced_Deliver (f : Receiver -> option Receiver) :
  Traced f ->
  forall text, f Receiver_buffer = Some (Emit Receiver_buffer text) ->
  forall r, f r = Some (Deliver r text).
Proof.
  intros [Hnone | (runs & Hfits & Hruns)] text Hb r.
  - rewrite Hnone in Hb. discriminate.
  - rewrite Hruns in Hb. unfold Receiver_buffer in Hb.
    destruct (DoRuns_buffer runs Hfits [] 0 _ Hb) as (Hnn & Heq).
    assert (Htext : text = RunsText runs).
    { apply (f_equal Buffer) in Heq. cbn in Heq. inversion Heq. reflexivity. }
    rewrite Hruns, (DoRuns_Deliver runs Hfits Hnn), Htext. reflexivity.
Qed.

Lemma RendersAs_Deliver (dp : Z) (spec : FormatSpec) (comp : double) (text : list Z) :
  RendersAs dp spec comp text ->
  forall r, Handler_f_double dp r spec comp = Some (Deliver r text).
Proof.
  intros H. apply (Traced_Deliver (fun r => Handler_f_double dp r spec comp)).
  - apply Handler_f_double_traced.
  - exact H.
Qed.

Lemma skipn_cons (c : nat) :
  forall (comps : list double) (x : double) (rest : list double),
    skipn c comps = x :: rest ->
    nth_error comps c = Some x /\ skipn (S c) comps = rest
    /\ List.length comps = (c + S (List.length rest))%nat.
Proof.
  induction c as [|c IH]; intros comps x rest H.
  - cbn [skipn] in H. subst comps. repeat split; reflexivity.
  - destruct comps as [|y comps]; [discriminate H|].
    cbn [skipn] in H. destruct (IH comps x rest H) as (Hn & Hs & Hl).
    split; [exact Hn|]. split; [exact Hs|]. simpl. lia.
Qed.

Lemma VectorLoop_Join (dp : Z) (sep : Receiver -> option Receiver) (septext : list Z)
  (spec : FormatSpec) (comps : list double) :
  (forall r, sep r = Some (Deliver r septext)) ->
  forall (rest : list double) (texts : list (list Z)),
    Forall2 (RendersAs dp spec) rest texts ->
    forall (c : nat) (r : Receiver),
      skipn c comps = rest ->
      VectorLoop dp (List.length rest) c (Z.of_nat (List.length comps)) sep comps spec r
      = Some (Deliver r (Join septext texts)).
Proof.
  intros Hsep. induction 1 as [|comp text rest texts Hcomp Hrest IH]; intros c r Hskip.
  - cbn [List.length VectorLoop Join]. rewrite Deliver_nil. reflexivity.
  - destruct (skipn_cons c comps comp rest Hskip) as (Hnth & Hskip' & Hlen).
    cbn [List.length VectorLoop]. rewrite Hnth.
    rewrite (RendersAs_Deliver dp spec comp text Hcomp).
    destruct Hrest as [|comp' text' rest' texts' Hcomp' Hrest'].
    + replace (Z.of_nat c <? Z.of_nat (List.length comps) - 1) with false
        by (symmetry; apply Z.ltb_ge; simpl in Hlen; lia).
      cbn [List.length VectorLoop Join]. reflexivity.
    + replace (Z.of_nat c <? Z.of_nat (List.length comps) - 1) with true
        by (symmetry; apply Z.ltb_lt; simpl in Hlen; lia).
      rewrite Hsep.
      rewrite (IH (S c) _ Hskip').
      rewrite !Deliver_app. reflexivity.
Qed.

Lemma SepSpace_Deliver (r : Receiver) : SepSpace r = Some (Deliver r (cstr " ")).
Proof. unfold SepSpace. rewrite Receive_Deliver. reflexivity. Qed.

Lemma SepComma_Deliver (r : Receiver) : SepComma r = Some (Deliver r (cstr ", ")).
Proof. unfold SepComma. rewrite Receive_n_Deliver by (simpl; lia). reflexivity. Qed.

Lemma ReceiveLit_Deliver (r : Receiver) (lit : list Z) :
  ReceiveLit r lit = Some (Deliver r lit).
Proof. apply Receive_buf_Deliver. Qed.

(** X19: a vector renders as its components joined.  When the [f]
    directive renders each of the 2, 3 or 4 components of the operand under
    the specification, the [v] directive delivers to any sink those texts in
    their order, with a comma and a blank between each two and parentheses
    around the whole, or under the [_] flag with one blank between each two
    and no parentheses.  The width, the precision and the other flags act on
    each component, not on the whole. *)
Theorem vector_is_its_components_joined :
  forall (dp : Z) (spec : FormatSpec) (comps : list double) (texts : list (list Z)),
    TypeSizeBytes spec = 4 * Z.of_nat (List.length comps) ->
    (2 <= List.length comps <= 4)%nat ->
    Forall2 (RendersAs dp spec) comps texts ->
    forall r,
      Handler_v dp r spec (ValF comps)
      = Some (Deliver r (if has (Flags spec) Flag_DecorativeFormatting
                         then Join (cstr " ") texts
                         else cstr "(" ++ Join (cstr ", ") texts ++ cstr ")")).
Proof.
  intros dp spec comps texts Hsize Hn Hall r.
  unfold Handler_v.
  replace (Z.shiftr (TypeSizeBytes spec) 2) with (Z.of_nat (List.length comps)).
  2:{ rewrite Hsize, Z.shiftr_div_pow2 by lia. change (2 ^ 2) with 4.
      rewrite Z.mul_comm, Z.div_mul by lia. reflexivity. }
  replace ((Z.of_nat (List.length comps) >=? 2) && (Z.of_nat (List.length comps) <=? 4))
    with true.
  2:{ symmetry. apply andb_true_iff. split; [rewrite Z.geb_leb|]; apply Z.leb_le; lia. }
  cbn [negb]. unfold HandlerHelper_Vector. rewrite Nat2Z.id.
  destruct (has (Flags spec) Flag_DecorativeFormatting).
  - apply (VectorLoop_Join dp SepSpace (cstr " ") spec comps SepSpace_Deliver comps texts Hall).
    reflexivity.
  - rewrite (VectorLoop_Join dp SepComma (cstr ", ") spec comps SepComma_Deliver comps texts
               Hall 0%nat _ eq_refl).
    rewrite !Receive_Deliver, !Deliver_app. reflexivity.
Qed.

Lemma vector_is_its_components_joined_witness :
  Handler_v 4 Receiver_string (mkFormatSpec 0 0 1 8) (ValF [Double 1.5; Double 2.5])
  = Some (Deliver Receiver_string
                  (cstr "(" ++ Join (cstr ", ") [cstr "1.5"; cstr "2.5"] ++ cstr ")")).
Proof.
  refine (vector_is_its_components_joined 4 (mkFormatSpec 0 0 1 8) [Double 1.5; Double 2.5]
            [cstr "1.5"; cstr "2.5"] _ _ _ Receiver_string).
  - reflexivity.
  - simpl; lia.
  - repeat (apply Forall2_cons; [unfold RendersAs; vm_compute; reflexivity|]).
    apply Forall2_nil.
Defined.

(** X20: a quaternion renders as its components joined.  The operand lies
    in memory as x, y, z, w.  When the [f] directive renders each of the
    four, the [q] directive delivers to any sink [(x, y, z, w)], and under
    the [_] flag the scalar first and the vector in parentheses of its own,
    [(w, (x, y, z))]. *)
Theorem quaternion_is_its_components_joined :
  forall (dp : Z) (spec : FormatSpec) (x y z w : double) (tx ty tz tw : list Z),
    RendersAs dp spec x tx -> RendersAs dp spec y ty ->
    RendersAs dp spec z tz -> RendersAs dp spec w tw ->
    forall r,
      Handler_q dp r spec (ValF [x; y; z; w])
      = Some (Deliver r (if has (Flags spec) Flag_DecorativeFormatting
                         then cstr "(" ++ tw ++ cstr ", (" ++ tx ++ cstr ", " ++ ty
                              ++ cstr ", " ++ tz ++ cstr "))"
                         else cstr "(" ++ tx ++ cstr ", " ++ ty ++ cstr ", " ++ tz
                              ++ cstr ", " ++ tw ++ cstr ")")).
Proof.
  intros dp spec x y z w tx ty tz tw Hx Hy Hz Hw r.
  unfold Handler_q.
  destruct (has (Flags spec) Flag_DecorativeFormatting).
  - unfold Handler_f_at, andThen. cbn [nth_error].
    rewrite (RendersAs_Deliver dp spec w tw Hw), ReceiveLit_Deliver.
    rewrite (RendersAs_Deliver dp spec x tx Hx), ReceiveLit_Deliver.
    rewrite (RendersAs_Deliver dp spec y ty Hy), ReceiveLit_Deliver.
    rewrite (RendersAs_Deliver dp spec z tz Hz), ReceiveLit_Deliver.
    rewrite !Receive_Deliver, !Deliver_app. reflexivity.
  - unfold andThen.
    assert (Hall : Forall2 (RendersAs dp spec) [x; y; z; w] [tx; ty; tz; tw])
      by (repeat constructor; assumption).
    rewrite (VectorLoop_Join dp SepComma (cstr ", ") spec [x; y; z; w] SepComma_Deliver
               [x; y; z; w] [tx; ty; tz; tw] Hall 0%nat _ eq_refl).
    rewrite !Receive_Deliver, !Deliver_app. cbn [Join]. rewrite <- !app_assoc. reflexivity.
Qed.

Lemma quaternion_is_its_components_joined_witness :
  Handler_q 4 Receiver_string (mkFormatSpec Flag_DecorativeFormatting 0 1 16)
            (ValF [Double 1.5; Double 2.5; Double 3.5; Double 0.5])
  = Some (Deliver Receiver_string (cstr "(0.5, (1.5, 2.5, 3.5))")).
Proof.
  refine (quaternion_is_its_components_joined 4 (mkFormatSpec Flag_DecorativeFormatting 0 1 16)
            1.5%float 2.5%float 3.5%float 0.5%float
            (cstr "1.5") (cstr "2.5") (cstr "3.5") (cstr "0.5") _ _ _ _ Receiver_string);
    vm_compute; reflexivity.
Defined.

(** ** What is printed of a render *)

Lemma tStrlen_prefix (s : list Z) :
  Forall (fun c => c <> 0) (firstn (Z.to_nat (tStrlen s)) s).
Proof.
  induction s as [|c s IH]; cbn [tStrlen].
  - constructor.
  - destruct (c =? 0) eqn:E; [constructor|].
    apply Z.eqb_neq in E. pose proof (tStrlen_bounds s) as Hb.
    replace (Z.to_nat (1 + tStrlen s)) with (S (Z.to_nat (tStrlen s))) by lia.
    cbn [firstn]. constructor; assumption.
Qed.

Lemma tStrlen_text (text rest : list Z) :
  Forall (fun c => c <> 0) text -> tStrlen (text ++ 0 :: rest) = Z.of_nat (List.length text).
Proof.
  induction 1 as [|c text Hc _ IH]; [reflexivity|].
  cbn [app tStrlen List.length]. apply Z.eqb_neq in Hc. rewrite Hc, IH. lia.
Qed.

(** X21: what [tvPrintf] prints of its render, and what it returns.
    [tPrint] writes the render up to its first zero character, none of the
    characters behind it.  The count that [tvPrintf] returns is the length of
    the whole render, so it is never less than the number of characters
    written, and it is that number exactly when the render holds no zero
    character in front of its terminator (a [c] directive with operand 0
    puts one there). *)
Theorem tvPrintf_prints_up_to_the_first_zero :
  forall (dp : Z) (format : list Z) (argList : list Arg) (N : Z) (out : list Z),
    tvPrintf dp (Some format) argList = Some (N, out) ->
    let written := fst (tPrint (Some out)) in
    let numPrinted := snd (tPrint (Some out)) in
    written = firstn (Z.to_nat numPrinted) out
    /\ Forall (fun c => c <> 0) written
    /\ 0 <= numPrinted <= N
    /\ (numPrinted = N <-> Forall (fun c => c <> 0) (firstn (Z.to_nat N) out)).
Proof.
  intros dp format argList N out Hfull written numPrinted.
  unfold tvPrintf in Hfull.
  destruct (RunProcess dp Receiver_buffer format argList) as [rb| |] eqn:Eb; try discriminate.
  destruct (Process_Deliver dp format argList rb Eb) as (text & -> & _).
  cbn [Buffer GetNumReceived NumReceived] in Hfull. inversion Hfull; subst N out. clear Hfull.
  replace (Z.of_nat (List.length text) + 1 - 1) with (Z.of_nat (List.length text)) by lia.
  rewrite Nat2Z.id, (firstn_app (List.length text)), firstn_all, Nat.sub_diag.
  cbn [firstn]. rewrite app_nil_r.
  pose proof (tStrlen_bounds (text ++ [0])) as Hb.
  pose proof (tStrlen_prefix (text ++ [0])) as Hpre.
  assert (Hshort : tStrlen (text ++ [0]) <= Z.of_nat (List.length text)).
  { destruct (Z_le_gt_dec (tStrlen (text ++ [0])) (Z.of_nat (List.length text)))
      as [Hle|Hgt]; [exact Hle|exfalso].
    rewrite length_app in Hb. cbn [List.length] in Hb.
    assert (Hall : tStrlen (text ++ [0]) = Z.of_nat (List.length (text ++ [0])))
      by (rewrite length_app; cbn [List.length]; lia).
    rewrite Hall, Nat2Z.id, firstn_all in Hpre.
    apply Forall_app in Hpre. destruct Hpre as [_ Hz].
    inversion Hz as [|z zs Hz0 _]; subst. apply Hz0. reflexivity. }
  assert (Hprint : tPrint (Some (text ++ [0]))
                   = (firstn (Z.to_nat (tStrlen (text ++ [0]))) (text ++ [0]),
                      tStrlen (text ++ [0]))).
  { unfold tPrint. destruct (hd 0 (text ++ [0]) =? 0) eqn:Eh; [|reflexivity].
    apply Z.eqb_eq in Eh.
    assert (H0 : tStrlen (text ++ [0]) = 0).
    { destruct text as [|c text]; [reflexivity|].
      cbn [app hd] in Eh. subst c. reflexivity. }
    rewrite H0. reflexivity. }
  subst written numPrinted. rewrite Hprint. cbn [fst snd].
  split; [reflexivity|]. split; [exact Hpre|]. split; [lia|].
  split.
  - intros Heq. rewrite Heq, Nat2Z.id, firstn_app, firstn_all, Nat.sub_diag in Hpre.
    cbn [firstn] in Hpre. rewrite app_nil_r in Hpre. exact Hpre.
  - intros Hall. apply tStrlen_text. exact Hall.
Qed.

Lemma tvPrintf_prints_up_to_the_first_zero_witness :
  tvPrintf 4 (Some CharFormat) [ArgI 4 0] = Some (3, [ch "a"; 0; ch "b"; 0])
  /\ tPrint (Some [ch "a"; 0; ch "b"; 0]) = ([ch "a"], 1)
  /\ 0 <= 1 <= 3.
Proof.
  assert (H : tvPrintf 4 (Some CharFormat) [ArgI 4 0] = Some (3, [ch "a"; 0; ch "b"; 0]))
    by (vm_compute; reflexivity).
  split; [exact H|]. split; [reflexivity|].
  exact (proj1 (proj2 (proj2 (tvPrintf_prints_up_to_the_first_zero 4 CharFormat [ArgI 4 0] 3
                                [ch "a"; 0; ch "b"; 0] H)))).
Defined.

(** ** The scanner: a directive does not look past its type character *)

Lemma hd_error_app_same (pre a b : list Z) :
  hd_error a = hd_error b -> hd_error (pre ++ a) = hd_error (pre ++ b).
Proof. intros H. destruct pre; [exact H|reflexivity]. Qed.

Lemma ParseFlags_local (format : list Z) :
  forall flags format' flags',
    ParseFlags format flags = Some (format', flags') ->
    exists pre, format = pre ++ format'
                /\ forall t2, hd_error t2 = hd_error format' ->
                              ParseFlags (pre ++ t2) flags = Some (t2, flags').
Proof.
  induction format as [|c rest IH]; intros flags format' flags'; cbn [ParseFlags];
    [discriminate|].
  destruct (FlagOfCharacter c) as [F|] eqn:Ec.
  - intros H. destruct (IH _ _ _ H) as (pre & Heq & Hall).
    exists (c :: pre). split; [cbn [app]; rewrite <- Heq; reflexivity|].
    intros t2 Ht2. cbn [app ParseFlags]. rewrite Ec. apply Hall. assumption.
  - intros H. inversion H; subst. exists []. split; [reflexivity|].
    intros t2 Ht2. destruct t2 as [|c2 t2]; [discriminate Ht2|].
    cbn [hd_error] in Ht2. inversion Ht2; subst. cbn [app ParseFlags].
    rewrite Ec. reflexivity.
Qed.

Lemma ParseNumber_local (format : list Z) :
  forall n format' n',
    ParseNumber format n = Some (format', n') ->
    exists pre, format = pre ++ format'
                /\ forall t2, hd_error t2 = hd_error format' ->
                              ParseNumber (pre ++ t2) n = Some (t2, n').
Proof.
  induction format as [|c rest IH]; intros n format' n'; cbn [ParseNumber];
    [discriminate|].
  destruct (tIsdigit c) eqn:Ec.
  - intros H. destruct (IH _ _ _ H) as (pre & Heq & Hall).
    exists (c :: pre). split; [cbn [app]; rewrite <- Heq; reflexivity|].
    intros t2 Ht2. cbn [app ParseNumber]. rewrite Ec. apply Hall. assumption.
  - intros H. inversion H; subst. exists []. split; [reflexivity|].
    intros t2 Ht2. destruct t2 as [|c2 t2]; [discriminate Ht2|].
    cbn [hd_error] in Ht2. inversion Ht2; subst. cbn [app ParseNumber].
    rewrite Ec. reflexivity.
Qed.

(** The first character of [pre ++ t2] is that of [pre ++ format'] when the
    tails begin alike. *)
Lemma same_first (c : Z) (rest pre format' t2 : list Z) :
  c :: rest = pre ++ format' -> hd_error t2 = hd_error format' ->
  exists rest2, pre ++ t2 = c :: rest2.
Proof.
  intros Heq Ht2. destruct pre as [|p pre].
  - cbn [app] in *. subst format'. destruct t2 as [|c2 t2]; [discriminate Ht2|].
    cbn [hd_error] in Ht2. inversion Ht2; subst. exists t2. reflexivity.
  - cbn [app] in *. inversion Heq; subst. exists (pre ++ t2). reflexivity.
Qed.

Lemma ParseWidth_local format argList spec format' argList' spec' :
  ParseWidth format argList spec = Some (Some (format', argList', spec')) ->
  exists pre, format = pre ++ format'
              /\ forall t2, hd_error t2 = hd_error format' ->
                            ParseWidth (pre ++ t2) argList spec
                            = Some (Some (t2, argList', spec')).
Proof.
  unfold ParseWidth. destruct format as [|c rest]; [discriminate|].
  destruct (negb (c =? ch "*")) eqn:Estar.
  - destruct (ParseNumber (c :: rest) (Width spec)) as [[f w]|] eqn:En; [|discriminate].
    intros H; inversion H; subst. clear H.
    destruct (ParseNumber_local _ _ _ _ En) as (pre & Heq & Hall).
    exists pre. split; [exact Heq|]. intros t2 Ht2.
    destruct (same_first c rest pre format' t2 Heq Ht2) as (rest2 & Hfirst).
    rewrite Hfirst, Estar, <- Hfirst, (Hall t2 Ht2). reflexivity.
  - destruct (va_arg_int argList) as [[w a]|] eqn:Ea; [|discriminate].
    intros H; inversion H; subst. clear H.
    exists [c]. split; [reflexivity|]. intros t2 _. cbn [app]. rewrite Estar. reflexivity.
Qed.

Lemma ParsePrecision_local format argList spec format' argList' spec' :
  ParsePrecision format argList spec = Some (Some (format', argList', spec')) ->
  exists pre, format = pre ++ format'
              /\ forall t2, hd_error t2 = hd_error format' ->
                            ParsePrecision (pre ++ t2) argList spec
                            = Some (Some (t2, argList', spec')).
Proof.
  unfold ParsePrecision. destruct format as [|c rest]; [discriminate|].
  destruct (c =? ch ".") eqn:Edot.
  - destruct rest as [|c' rest']; [discriminate|].
    destruct (negb (c' =? ch "*")) eqn:Estar.
    + destruct (ParseNumber (c' :: rest') _) as [[f p]|] eqn:En; [|discriminate].
      intros H; inversion H; subst. clear H.
      destruct (ParseNumber_local _ _ _ _ En) as (pre & Heq & Hall).
      exists (c :: pre). split; [cbn [app]; rewrite <- Heq; reflexivity|].
      intros t2 Ht2.
      destruct (same_first c' rest' pre format' t2 Heq Ht2) as (rest2 & Hfirst).
      cbn [app]. rewrite Edot, Hfirst, Estar, <- Hfirst, (Hall t2 Ht2). reflexivity.
    + destruct (va_arg_int argList) as [[p a]|] eqn:Ea; [|discriminate].
      intros H; inversion H; subst. clear H.
      exists [c; c']. split; [reflexivity|]. intros t2 _. cbn [app].
      rewrite Edot, Estar. reflexivity.
  - intros H; inversion H; subst. clear H. exists []. split; [reflexivity|].
    intros t2 Ht2. destruct t2 as [|c2 t2]; [discriminate Ht2|].
    cbn [hd_error] in Ht2. inversion Ht2; subst. cbn [app]. rewrite Edot. reflexivity.
Qed.

Lemma ParseTypeSize_local format spec format' spec' :
  ParseTypeSize format spec = Some (format', spec') ->
  exists pre, format = pre ++ format'
              /\ forall t2, hd_error t2 = hd_error format' ->
                            ParseTypeSize (pre ++ t2) spec = Some (t2, spec').
Proof.
  unfold ParseTypeSize. destruct format as [|c rest]; [discriminate|].
  destruct ((c =? ch ":") || (c =? ch "!") || (c =? ch "|")) eqn:Eunit.
  - destruct (ParseNumber rest 0) as [[f n]|] eqn:En; [|discriminate].
    intros H; inversion H; subst. clear H.
    destruct (ParseNumber_local _ _ _ _ En) as (pre & Heq & Hall).
    exists (c :: pre). split; [cbn [app]; rewrite <- Heq; reflexivity|].
    intros t2 Ht2. cbn [app]. rewrite Eunit, (Hall t2 Ht2). reflexivity.
  - intros H; inversion H; subst. clear H. exists []. split; [reflexivity|].
    intros t2 Ht2. destruct t2 as [|c2 t2]; [discriminate Ht2|].
    cbn [hd_error] in Ht2. inversion Ht2; subst. cbn [app]. rewrite Eunit. reflexivity.
Qed.

Lemma ParseSpec_local format argList format' argList' spec' :
  ParseSpec format argList = inr (format', argList', spec') ->
  exists pre, format = pre ++ format'
              /\ forall t2, hd_error t2 = hd_error format' ->
                            ParseSpec (pre ++ t2) argList = inr (t2, argList', spec').
Proof.
  unfold ParseSpec, ParseSpecHead.
  destruct (ParseFlags format (Flags FormatSpec_default)) as [[f1 flags]|] eqn:E1;
    [|discriminate].
  match goal with |- context [ParseWidth f1 argList ?s] =>
    set (spec1 := s);
    destruct (ParseWidth f1 argList spec1) as [[[[f2 a2] s2]|]|] eqn:E2; try discriminate end.
  destruct (ParsePrecision f2 a2 s2) as [[[[f3 a3] s3]|]|] eqn:E3; try discriminate.
  destruct (ParseTypeSize f3 s3) as [[f4 s4]|] eqn:E4; [|discriminate].
  intros H; inversion H; subst. clear H.
  destruct (ParseFlags_local _ _ _ _ E1) as (p1 & H1 & L1).
  destruct (ParseWidth_local _ _ _ _ _ _ E2) as (p2 & H2 & L2).
  destruct (ParsePrecision_local _ _ _ _ _ _ E3) as (p3 & H3 & L3).
  destruct (ParseTypeSize_local _ _ _ _ E4) as (p4 & H4 & L4).
  exists (p1 ++ p2 ++ p3 ++ p4).
  split; [rewrite <- !app_assoc, <- H4, <- H3, <- H2; exact H1|].
  intros t2 Ht2. rewrite <- !app_assoc.
  assert (T4 : hd_error (p4 ++ t2) = hd_error f3)
    by (rewrite H4; apply hd_error_app_same; assumption).
  assert (T3 : hd_error (p3 ++ p4 ++ t2) = hd_error f2)
    by (rewrite H3; apply hd_error_app_same; assumption).
  assert (T2 : hd_error (p2 ++ p3 ++ p4 ++ t2) = hd_error f1)
    by (rewrite H2; apply hd_error_app_same; assumption).
  rewrite (L1 _ T2). fold spec1. rewrite (L2 _ T3), (L3 _ T4), (L4 _ Ht2). reflexivity.
Qed.

Lemma ProcessDirective_local dp r format argList r' rest argList' :
  ProcessDirective dp r format argList = inr (r', rest, argList') ->
  exists d, format = d ++ rest
            /\ forall rest2, ProcessDirective dp r (d ++ rest2) argList
                             = inr (r', rest2, argList').
Proof.
  unfold ProcessDirective.
  destruct (ParseSpec format argList) as [why|[[f a] spec]] eqn:E; [discriminate|].
  destruct f as [|type rest0]; [discriminate|].
  destruct (FindHandler dp type) as [h|] eqn:Eh; [|discriminate].
  destruct (va_arg_val _ _ a) as [[[pval|] a']|] eqn:Ea; try discriminate.
  destruct (Handler h r _ pval) as [r1|] eqn:Er; [|discriminate].
  intros H; inversion H; subst. clear H.
  destruct (ParseSpec_local _ _ _ _ _ E) as (pre & Heq & Hall).
  exists (pre ++ [type]). split; [rewrite <- app_assoc; exact Heq|].
  intros rest2. rewrite <- app_assoc. cbn [app].
  rewrite (Hall (type :: rest2) eq_refl), Eh, Ea, Er. reflexivity.
Qed.

(** X22: a directive does not depend on the text that follows it.  When a
    directive is processed, what it reads of the format is a text [d] that
    ends with its type character; the same [d] in front of any other text
    takes the same arguments and leaves the sink in the same state, and the
    scan goes on with that other text.  (With the statement on literal text,
    this makes a format the sequence of its literal runs and directives.) *)
Theorem directive_does_not_depend_on_what_follows :
  forall (dp : Z) (r : Receiver) (c1 : Z) (body : list Z) (argList : list Arg)
         (r' : Receiver) (rest : list Z) (argList' : list Arg),
    IsValidFormatSpecifierCharacter dp c1 = true ->
    ProcessDirective dp r (c1 :: body) argList = inr (r', rest, argList') ->
    exists d,
      c1 :: body = d ++ rest
      /\ (forall rest2, ProcessDirective dp r (d ++ rest2) argList = inr (r', rest2, argList'))
      /\ (forall rest2, RunProcess dp r (ch "%" :: d ++ rest2) argList
                        = RunProcess dp r' rest2 argList').
Proof.
  intros dp r c1 body argList r' rest argList' Hvalid Hdir.
  destruct (ProcessDirective_local dp r _ _ _ _ _ Hdir) as (d & Heq & Hall).
  exists d. split; [exact Heq|]. split; [exact Hall|].
  intros rest2. specialize (Hall rest2).
  destruct d as [|d0 d'].
  - cbn [app] in Heq. subst rest.
    apply ProcessDirective_length in Hdir. lia.
  - cbn [app] in Heq. inversion Heq; subst d0. cbn [app] in *.
    unfold RunProcess. cbn [List.length].
    rewrite (Process_directive dp _ r c1 (d' ++ rest2) argList r' rest2 argList' Hvalid Hall).
    rewrite length_app.
    replace (S (S (List.length d' + List.length rest2)))
      with (S (List.length d') + S (List.length rest2))%nat by lia.
    apply Process_fuel_add. lia.
Qed.

Lemma directive_does_not_depend_on_what_follows_witness :
  exists d,
    cstr "05d" ++ cstr "xyz" = d ++ cstr "xyz"
    /\ (forall rest2, ProcessDirective 4 Receiver_buffer (d ++ rest2) CountArgs
                      = inr (Emit Receiver_buffer (cstr "00042"), rest2, []))
    /\ (forall rest2, RunProcess 4 Receiver_buffer (ch "%" :: d ++ rest2) CountArgs
                      = RunProcess 4 (Emit Receiver_buffer (cstr "00042")) rest2 []).
Proof.
  refine (directive_does_not_depend_on_what_follows 4 Receiver_buffer (ch "0")
            (cstr "5d" ++ cstr "xyz") CountArgs (Emit Receiver_buffer (cstr "00042"))
            (cstr "xyz") [] _ _); vm_compute; reflexivity.
Defined.

(** ** Matrices *)

Lemma HandlerHelper_Vector_Tuple (dp : Z) (spec : FormatSpec) (comps : list double)
  (texts : list (list Z)) (n : Z) :
  n = Z.of_nat (List.length comps) ->
  Forall2 (RendersAs dp spec) comps texts ->
  forall r, HandlerHelper_Vector dp r spec comps n = Some (Deliver r (Tuple spec texts)).
Proof.
  intros -> Hall r. unfold HandlerHelper_Vector, Tuple. rewrite Nat2Z.id.
  destruct (has (Flags spec) Flag_DecorativeFormatting).
  - apply (VectorLoop_Join dp SepSpace (cstr " ") spec comps SepSpace_Deliver comps texts Hall).
    reflexivity.
  - rewrite (VectorLoop_Join dp SepComma (cstr ", ") spec comps SepComma_Deliver comps texts
               Hall 0%nat _ eq_refl).
    rewrite !Receive_Deliver, !Deliver_app. reflexivity.
Qed.

Lemma Every_S (n i stride : nat) (texts : list (list Z)) :
  Every (S n) i stride texts = nth i texts [] :: Every n (i + stride) stride texts.
Proof.
  unfold Every. cbn [seq map]. rewrite Nat.mul_0_l, Nat.add_0_r. f_equal.
  rewrite <- seq_shift, map_map. apply map_ext. intros k. f_equal.
  cbn [Nat.mul]. lia.
Qed.

Lemma Forall2_nth_error (P : double -> list Z -> Prop) (mat : list double)
  (texts : list (list Z)) :
  Forall2 P mat texts ->
  forall i x, nth_error mat i = Some x -> P x (nth i texts []).
Proof.
  induction 1 as [|m t mat texts Hmt _ IH]; intros i x Hi.
  - destruct i; discriminate Hi.
  - destruct i as [|i]; cbn [nth_error nth] in *.
    + inversion Hi; subst. exact Hmt.
    + apply IH. exact Hi.
Qed.

Lemma Pick_Every (P : double -> list Z -> Prop) (mat : list double) (texts : list (list Z))
  (stride : nat) :
  Forall2 P mat texts ->
  forall n i, (n = 0 \/ i + (n - 1) * stride < List.length mat)%nat ->
              exists v, Pick n i stride mat = Some v
                        /\ List.length v = n
                        /\ Forall2 P v (Every n i stride texts).
Proof.
  intros Hall. induction n as [|n IH]; intros i Hi.
  - exists []. repeat split. constructor.
  - destruct Hi as [Hi|Hi]; [discriminate Hi|].
    replace (S n - 1)%nat with n in Hi by lia.
    destruct (nth_error mat i) as [x|] eqn:Ex.
    2:{ apply nth_error_None in Ex. lia. }
    destruct (IH (i + stride)%nat) as (v & Hv & Hlen & Hfor).
    { destruct n as [|n]; [left; reflexivity|right].
      replace (S n - 1)%nat with n by lia. cbn [Nat.mul] in Hi. lia. }
    exists (x :: v). cbn [Pick]. rewrite Ex, Hv.
    split; [reflexivity|]. split; [simpl; lia|].
    rewrite Every_S. constructor; [|exact Hfor].
    eapply Forall2_nth_error; eassumption.
Qed.

Lemma VectorAt_Tuple (dp : Z) (spec : FormatSpec) (mat : list double) (texts : list (list Z))
  (n i stride : nat) :
  Forall2 (RendersAs dp spec) mat texts ->
  (n = 0 \/ i + (n - 1) * stride < List.length mat)%nat ->
  forall r, VectorAt dp n i stride mat spec r
            = Some (Deliver r (Tuple spec (Every n i stride texts))).
Proof.
  intros Hall Hi r. unfold VectorAt.
  destruct (Pick_Every _ mat texts stride Hall n i Hi) as (v & -> & Hlen & Hfor).
  apply HandlerHelper_Vector_Tuple; [rewrite Hlen; reflexivity|exact Hfor].
Qed.

Lemma MatrixSpec_Flags (spec : FormatSpec) :
  has (Flags (MatrixSpec spec)) Flag_DecorativeFormatting
  = has (Flags spec) Flag_DecorativeFormatting.
Proof.
  unfold MatrixSpec. destruct (has (Flags spec) Flag_DecorativeFormatting) eqn:E;
    [|exact E].
  destruct (Width spec =? 0), (Precision spec =? -1); exact E.
Qed.

(** X23: a matrix renders as its vectors.  The operand holds the columns
    one after the other.  When the [f] directive renders each component
    under the specification that [Handler_m] uses (under the [_] flag a
    width of 9 and a precision of 4 where the directive gives none), the [m]
    directive of a 2x2 or 4x4 matrix delivers to any sink, without the flag,
    the columns as vectors in parentheses, a comma and a blank between each
    two and parentheses around the whole; with the flag, the rows, each on a
    line of its own, its components one blank apart, an opening bracket in
    front of the first row, two blanks in front of the others, and a blank,
    a closing bracket and a new line at the end. *)
Theorem matrix_is_its_vectors :
  forall (dp : Z) (spec : FormatSpec) (n : nat) (mat : list double) (texts : list (list Z)),
    n = 2%nat \/ n = 4%nat ->
    TypeSizeBytes spec = 4 * Z.of_nat (n * n) ->
    List.length mat = (n * n)%nat ->
    Forall2 (RendersAs dp (MatrixSpec spec)) mat texts ->
    forall r,
      Handler_m dp r spec (ValF mat)
      = Some (Deliver r
                (if has (Flags spec) Flag_DecorativeFormatting
                 then cstr "[ "
                      ++ Join (10 :: cstr "  ")
                              (map (fun i => Join (cstr " ") (Every n i n texts)) (seq 0 n))
                      ++ cstr " ]" ++ [10]
                 else cstr "("
                      ++ Join (cstr ", ")
                              (map (fun j => cstr "(" ++ Join (cstr ", ")
                                                              (Every n (j * n) 1 texts)
                                             ++ cstr ")")
                                   (seq 0 n))
                      ++ cstr ")")).
Proof.
  intros dp spec n mat texts Hn Hsize Hlen Hall r.
  pose proof (MatrixSpec_Flags spec) as Hflags.
  assert (Hvec : forall i stride r0,
             (i + (n - 1) * stride < n * n)%nat ->
             VectorAt dp n i stride mat (MatrixSpec spec) r0
             = Some (Deliver r0 (Tuple (MatrixSpec spec) (Every n i stride texts)))).
  { intros i stride r0 Hi. apply VectorAt_Tuple; [exact Hall|right; lia]. }
  unfold Tuple in Hvec. rewrite Hflags in Hvec. clear Hflags.
  unfold Handler_m. unfold MatrixSpec in Hvec.
  destruct Hn as [-> | ->].
  - change (4 * Z.of_nat (2 * 2)) with 16 in Hsize. rewrite Hsize.
    cbn [Z.eqb Pos.eqb orb negb].
    destruct (has (Flags spec) Flag_DecorativeFormatting) eqn:Edec; unfold andThen.
    + rewrite ReceiveLit_Deliver, Hvec by (simpl; lia).
      rewrite ReceiveLit_Deliver, Hvec by (simpl; lia).
      rewrite ReceiveLit_Deliver.
      rewrite !Receive_Deliver, !Deliver_app. cbn [Join map seq Nat.mul Nat.add app].
      repeat (progress (rewrite <- ?app_assoc, <- ?app_comm_cons)). reflexivity.
    + rewrite Hvec by (simpl; lia). rewrite ReceiveLit_Deliver, Hvec by (simpl; lia).
      rewrite !Receive_Deliver, !Deliver_app. cbn [Join map seq Nat.mul Nat.add].
      rewrite <- !app_assoc. reflexivity.
  - change (4 * Z.of_nat (4 * 4)) with 64 in Hsize. rewrite Hsize.
    cbn [Z.eqb Pos.eqb orb negb].
    destruct (has (Flags spec) Flag_DecorativeFormatting) eqn:Edec; unfold andThen.
    + rewrite ReceiveLit_Deliver, Hvec by (simpl; lia).
      rewrite ReceiveLit_Deliver, Hvec by (simpl; lia).
      rewrite ReceiveLit_Deliver, Hvec by (simpl; lia).
      rewrite ReceiveLit_Deliver, Hvec by (simpl; lia).
      rewrite ReceiveLit_Deliver.
      rewrite !Receive_Deliver, !Deliver_app. cbn [Join map seq Nat.mul Nat.add app].
      repeat (progress (rewrite <- ?app_assoc, <- ?app_comm_cons)). reflexivity.
    + rewrite Hvec by (simpl; lia). rewrite ReceiveLit_Deliver, Hvec by (simpl; lia).
      rewrite ReceiveLit_Deliver, Hvec by (simpl; lia).
      rewrite ReceiveLit_Deliver, Hvec by (simpl; lia).
      rewrite !Receive_Deliver, !Deliver_app. cbn [Join map seq Nat.mul Nat.add].
      rewrite <- !app_assoc. reflexivity.
Qed.

Lemma matrix_is_its_vectors_witness :
  Handler_m 4 Receiver_string (mkFormatSpec Flag_DecorativeFormatting 0 (-1) 16)
            (ValF [Double 1.5; Double 2.5; Double 3.5; Double 0.5])
  = Some (Deliver Receiver_string
                  (cstr "[    1.5000    3.5000" ++ [10]
                   ++ cstr "     2.5000    0.5000 ]" ++ [10])).
Proof.
  refine (matrix_is_its_vectors 4 (mkFormatSpec Flag_DecorativeFormatting 0 (-1) 16) 2
            [Double 1.5; Double 2.5; Double 3.5; Double 0.5]
            [cstr "   1.5000"; cstr "   2.5000"; cstr "   3.5000"; cstr "   0.5000"]
            _ _ _ _ Receiver_string).
  - left. reflexivity.
  - reflexivity.
  - reflexivity.
  - repeat (apply Forall2_cons; [unfold RendersAs; vm_compute; reflexivity|]).
    apply Forall2_nil.
Defined.

(** ** Integers of 128, 256 and 512 bits *)

Ltac big_powers :=
  repeat match goal with
         | |- context [2 ^ ?n] =>
             let v := eval vm_compute in (2 ^ n) in change (2 ^ n) with v
         | H : context [2 ^ ?n] |- _ =>
             let v := eval vm_compute in (2 ^ n) in change (2 ^ n) with v in H
         end.

Lemma magnitude_tacent (bitSize raw : Z) (negate : bool) :
  bitSize = 128 \/ bitSize = 256 \/ bitSize = 512 ->
  0 <= raw < 2 ^ bitSize ->
  (negate = true -> 2 ^ (bitSize - 1) <= raw) ->
  (let rv := if negate then tuint512 (- raw) else raw in
   let rv := if bitSize =? 128 then Z.land rv (2 ^ 128 - 1) else rv in
   if bitSize =? 256 then Z.land rv (2 ^ 256 - 1) else rv)
  = if negate then 2 ^ bitSize - raw else raw.
Proof.
  intros Hb Hraw Hneg. cbv zeta.
  change (2 ^ 128 - 1) with (Z.ones 128). change (2 ^ 256 - 1) with (Z.ones 256).
  unfold tuint512.
  destruct Hb as [-> | [-> | ->]]; cbn [Z.eqb Pos.eqb];
    try rewrite Z.land_ones by lia;
    (destruct negate; [specialize (Hneg eq_refl)|clear Hneg]).
  - change (128 - 1) with 127 in Hneg. big_powers. Z.div_mod_to_equations. lia.
  - apply Z.mod_small. lia.
  - change (256 - 1) with 255 in Hneg. big_powers. Z.div_mod_to_equations. lia.
  - apply Z.mod_small. lia.
  - change (512 - 1) with 511 in Hneg. big_powers. Z.div_mod_to_equations. lia.
  - reflexivity.
Qed.

Lemma HandlerHelper_IntegerTacent_digits (spec : FormatSpec) (data : Z)
  (treatAsUnsigned : bool) (bitSize : Z) (upperCase : bool) (base : Z)
  (forcePrefixLowerCase : bool) (sign : list Z) (negate : bool) (w1 : Z) :
  bitSize = 128 \/ bitSize = 256 \/ bitSize = 512 -> 2 <= base ->
  SignBlock spec treatAsUnsigned (negb (data mod 2 ^ bitSize <? 2 ^ (bitSize - 1)))
            base (Width spec) = (sign, negate, w1) ->
  let raw := data mod 2 ^ bitSize in
  let mag := if negate then 2 ^ bitSize - raw else raw in
  let prefix := PrefixBlock spec mag upperCase base forcePrefixLowerCase w1 in
  exists ds,
    HandlerHelper_IntegerTacent [] spec data treatAsUnsigned bitSize upperCase base
                                forcePrefixLowerCase
    = Some (IntegerTacent_Emit (LocalFlags spec) (map (DigitChar upperCase) ds)
                               (sign ++ fst prefix))
    /\ Forall (fun d => 0 <= d < base) ds
    /\ BaseValue base ds = mag
    /\ LocalPrecision spec <= Z.of_nat (List.length ds).
Proof.
  intros Hb Hbase Hsign raw mag prefix.
  assert (Hsize : 1 <= bitSize) by (destruct Hb as [|[|]]; lia).
  assert (Hraw : 0 <= raw < 2 ^ bitSize)
    by (apply Z.mod_pos_bound; apply Z.pow_pos_nonneg; lia).
  destruct (SignBlock_negate _ _ _ _ _ _ _ _ Hsign) as [Hneg _].
  assert (Hhigh : negate = true -> 2 ^ (bitSize - 1) <= raw).
  { intros Hn. destruct (Hneg Hn) as (Hnegative & _).
    apply negb_true_iff, Z.ltb_ge in Hnegative. exact Hnegative. }
  assert (Hmag : 0 <= mag < 2 ^ bitSize).
  { subst mag. destruct negate; [|assumption].
    specialize (Hhigh eq_refl).
    assert (0 < 2 ^ (bitSize - 1)) by (apply Z.pow_pos_nonneg; lia). lia. }
  assert (Hmag512 : 0 <= mag < 2 ^ Z.of_nat 512).
  { split; [lia|]. apply Z.lt_le_trans with (2 ^ bitSize); [lia|].
    apply Z.pow_le_mono_r; destruct Hb as [|[|]]; subst; simpl; lia. }
  destruct (DigitLoop_spells upperCase base Hbase
              (Z.to_nat (Z.max (LocalPrecision spec) 0) + 512) 512
              (LocalPrecision spec) mag [] Hmag512 (Nat.le_refl _))
    as (ds & Hloop & Hds & Hval & Hlen & _).
  rewrite app_nil_r in Hloop.
  assert (Hconv : IntegerTacent_Convert [] spec data treatAsUnsigned bitSize upperCase base
                                        forcePrefixLowerCase
                  = (sign ++ fst prefix,
                     if has (LocalFlags spec) Flag_LeadingZeros
                     then ZeroPad (snd prefix - Z.of_nat (List.length ds))
                                  (map (DigitChar upperCase) ds)
                     else map (DigitChar upperCase) ds)).
  { unfold IntegerTacent_Convert.
    replace (if bitSize =? 128 then data mod 2 ^ 128
             else if bitSize =? 256 then data mod 2 ^ 256 else tuint512 data) with raw
      by (destruct Hb as [|[|]]; subst; reflexivity).
    rewrite negative_bit by lia.
    change (data mod 2 ^ bitSize) with raw in Hsign. rewrite Hsign.
    pose proof (magnitude_tacent bitSize raw negate Hb Hraw Hhigh) as Hm.
    cbv zeta in Hm. rewrite Hm. fold mag.
    destruct (PrefixBlock spec mag upperCase base forcePrefixLowerCase w1) as [p w2] eqn:Ep.
    subst prefix. cbn [fst snd app].
    rewrite Hloop, length_map. reflexivity. }
  assert (Hhelper : HandlerHelper_IntegerTacent [] spec data treatAsUnsigned bitSize upperCase
                      base forcePrefixLowerCase
                    = (let '(convBuf, c) :=
                         IntegerTacent_Convert [] spec data treatAsUnsigned bitSize upperCase
                                               base forcePrefixLowerCase in
                       Some (IntegerTacent_Emit (LocalFlags spec) c convBuf))).
  { unfold HandlerHelper_IntegerTacent.
    replace ((bitSize =? 128) || (bitSize =? 256) || (bitSize =? 512)) with true
      by (destruct Hb as [|[|]]; subst; reflexivity).
    reflexivity. }
  rewrite Hconv in Hhelper. cbv beta iota in Hhelper.
  destruct (has (LocalFlags spec) Flag_LeadingZeros) eqn:Ez.
  - exists (repeat 0 (Z.to_nat (snd prefix - Z.of_nat (List.length ds))) ++ ds).
    split; [|split; [|split]].
    + rewrite map_app, map_DigitChar_zeros. exact Hhelper.
    + apply Forall_app. split; [|assumption].
      apply Forall_forall. intros d Hd. apply repeat_spec in Hd. lia.
    + rewrite BaseValue_zeros. assumption.
    + rewrite length_app. lia.
  - exists ds. split; [exact Hhelper|]. split; [assumption|]. split; assumption.
Qed.

Lemma IntegerHandler_tacent (treatAsUnsigned upperCase : bool) (base : Z) (r : Receiver)
  (spec : FormatSpec) (data : Z) (text : list Z) :
  TypeSizeBytes spec = 16 \/ TypeSizeBytes spec = 32 \/ TypeSizeBytes spec = 64 ->
  HandlerHelper_IntegerTacent [] spec data treatAsUnsigned (TypeSizeBytes spec * 8)
                              upperCase base false = Some text ->
  IntegerHandler treatAsUnsigned upperCase base r spec (ValI data)
  = Some (Deliver r (Field spec text)).
Proof.
  intros Hsz Htext. unfold IntegerHandler.
  replace ((TypeSizeBytes spec * 8 =? 32) || (TypeSizeBytes spec * 8 =? 64)) with false
    by (destruct Hsz as [-> | [-> | ->]]; reflexivity).
  replace ((TypeSizeBytes spec * 8 =? 128) || (TypeSizeBytes spec * 8 =? 256)
           || (TypeSizeBytes spec * 8 =? 512)) with true
    by (destruct Hsz as [-> | [-> | ->]]; reflexivity).
  cbn [orb negb operand_bits]. rewrite Htext. apply Justified_buf.
Qed.

(** X24: the integer directives on operands of 128, 256 and 512 bits, with
    the wide integers taken as arithmetic modulo [2 ^ 512], without a
    decorative flag and with a width and a precision that the 1024 characters
    of the helper's [buf] have room for.  An unsigned directive without the
    [+], space and [#] flags delivers the field around digits of its base
    that spell the operand modulo [2 ^ bits]; the signed decimal directives
    deliver the field around a sign and decimal digits that spell the
    absolute value of the operand in two's complement, the sign a minus for
    a negative operand, else what the [+] or the space flag asks for. *)
Theorem wide_integers_spell_the_operand :
  forall (spec : FormatSpec) (data : Z),
    TypeSizeBytes spec = 16 \/ TypeSizeBytes spec = 32 \/ TypeSizeBytes spec = 64 ->
    Width spec <= 1022 -> Precision spec <= 1022 ->
    Undecorated spec ->
    let bits := TypeSizeBytes spec * 8 in
    (forall upperCase base,
        2 <= base ->
        has (Flags spec) Flag_BasePrefix = false ->
        has (Flags spec) Flag_ForcePosOrNegSign = false ->
        has (Flags spec) Flag_SpaceForPosSign = false ->
        exists text,
          (forall r, IntegerHandler true upperCase base r spec (ValI data)
                     = Some (Deliver r (Field spec text)))
          /\ Spells upperCase base text (data mod 2 ^ bits)
          /\ LocalPrecision spec <= Z.of_nat (List.length text))
    /\ (let value := SignedOf bits (data mod 2 ^ bits) in
        let sign :=
          if value <? 0 then [ch "-"]
          else if has (Flags spec) Flag_ForcePosOrNegSign then [ch "+"]
          else if has (Flags spec) Flag_SpaceForPosSign then [ch " "]
          else [] in
        exists digits,
          (forall r, Handler_d r spec (ValI data)
                     = Some (Deliver r (Field spec (sign ++ digits))))
          /\ (forall r, Handler_i r spec (ValI data)
                        = Some (Deliver r (Field spec (sign ++ digits))))
          /\ Spells false 10 digits (Z.abs value)
          /\ LocalPrecision spec <= Z.of_nat (List.length digits)).
Proof.
  intros spec data Hsz _ _ Hund bits.
  assert (Hb : bits = 128 \/ bits = 256 \/ bits = 512) by (unfold bits; lia).
  assert (Hemit : forall curr convBuf,
             IntegerTacent_Emit (LocalFlags spec) curr convBuf = convBuf ++ curr).
  { intros curr convBuf. destruct Hund as [Hdec Halt]. unfold IntegerTacent_Emit.
    rewrite !has_LocalFlags by reflexivity. rewrite Hdec, Halt. reflexivity. }
  split.
  - intros upperCase base Hbase Hprefix Hplus Hspace.
    assert (Hsign : SignBlock spec true (negb (data mod 2 ^ bits <? 2 ^ (bits - 1)))
                      base (Width spec) = ([], false, Width spec)).
    { unfold SignBlock. rewrite Hplus, Hspace. cbn [negb andb].
      destruct (base =? 10); reflexivity. }
    destruct (HandlerHelper_IntegerTacent_digits spec data true bits upperCase base false
                [] false (Width spec) Hb Hbase Hsign)
      as (ds & Htext & Hds & Hval & Hlen).
    assert (Hp : PrefixBlock spec (data mod 2 ^ bits) upperCase base false (Width spec)
                 = ([], Width spec)).
    { unfold PrefixBlock. rewrite Hprefix. reflexivity. }
    rewrite Hp, Hemit in Htext. cbn [fst app] in Htext.
    exists (map (DigitChar upperCase) ds). rewrite length_map.
    split; [intros r; apply IntegerHandler_tacent; assumption|].
    split; [exists ds; repeat split; assumption|assumption].
  - intros value sign.
    set (raw := data mod 2 ^ bits) in *.
    assert (Hbits : 1 <= bits) by lia.
    assert (Hraw : 0 <= raw < 2 ^ bits)
      by (apply Z.mod_pos_bound; apply Z.pow_pos_nonneg; lia).
    assert (Hhalf : 2 ^ bits = 2 * 2 ^ (bits - 1)).
    { replace bits with (Z.succ (bits - 1)) at 1 by lia. apply Z.pow_succ_r. lia. }
    destruct (SignBlock spec false (negb (raw <? 2 ^ (bits - 1))) 10 (Width spec))
      as [[sg negate] w1] eqn:Hsign.
    destruct (HandlerHelper_IntegerTacent_digits spec data false bits false 10 false
                sg negate w1 Hb ltac:(lia) Hsign)
      as (ds & Htext & Hds & Hval & Hlen).
    fold raw in Htext, Hval.
    assert (Hp : forall mag, fst (PrefixBlock spec mag false 10 false w1) = []).
    { intros mag. unfold PrefixBlock.
      destruct (has (Flags spec) Flag_BasePrefix && negb (mag =? 0) || false); reflexivity. }
    rewrite Hp, Hemit, app_nil_r in Htext.
    assert (Hsg : sg = sign /\ (if negate then 2 ^ bits - raw else raw) = Z.abs value).
    { unfold SignBlock in Hsign. cbn [Z.eqb Pos.eqb negb andb] in Hsign.
      subst sign value. unfold SignedOf.
      destruct (raw <? 2 ^ (bits - 1)) eqn:Elow; cbn [negb] in Hsign.
      - apply Z.ltb_lt in Elow.
        replace (raw <? 0) with false by (symmetry; apply Z.ltb_ge; lia).
        destruct (has (Flags spec) Flag_ForcePosOrNegSign);
          [|destruct (has (Flags spec) Flag_SpaceForPosSign)];
          inversion Hsign; subst; (split; [reflexivity|lia]).
      - apply Z.ltb_ge in Elow.
        replace (raw - 2 ^ bits <? 0) with true by (symmetry; apply Z.ltb_lt; lia).
        inversion Hsign; subst. split; [reflexivity|lia]. }
    destruct Hsg as [-> Hmag]. rewrite Hmag in Hval.
    exists (map (DigitChar false) ds). rewrite length_map.
    split; [intros r; apply IntegerHandler_tacent; assumption|].
    split; [intros r; apply IntegerHandler_tacent; assumption|].
    split; [exists ds; repeat split; assumption|assumption].
Qed.

Lemma wide_integers_spell_the_operand_witness :
  exists digits,
    (forall r, Handler_d r (mkFormatSpec 0 0 (-1) 16) (ValI (2 ^ 128 - 42))
               = Some (Deliver r (Field (mkFormatSpec 0 0 (-1) 16) ([ch "-"] ++ digits))))
    /\ Spells false 10 digits 42.
Proof.
  destruct (wide_integers_spell_the_operand (mkFormatSpec 0 0 (-1) 16) (2 ^ 128 - 42))
    as (_ & digits & Hrun & _ & Hspell & _).
  - left. reflexivity.
  - simpl; lia.
  - simpl; lia.
  - split; reflexivity.
  - exists digits. split; [exact Hrun|exact Hspell].
Defined.

(** ** The scanner: width and precision *)

Lemma digit_is_no_flag (w : Z) :
  tIsdigit w = true -> w <> ch "0" -> FlagOfCharacter w = None.
Proof.
  intros Hd Hw. pose proof (tIsdigit_range w Hd) as Hr.
  unfold FlagOfCharacter.
  change (ch "0") with 48 in *. change (ch "-") with 45. change (ch "+") with 43.
  change (ch " ") with 32. change (ch "_") with 95. change (ch "'") with 39.
  change (ch "#") with 35. change (ch "9") with 57 in *.
  repeat match goal with
         | |- context [?a =? ?b] =>
             replace (a =? b) with false by (symmetry; apply Z.eqb_neq; lia)
         end.
  reflexivity.
Qed.

Lemma ParseFlags_none (c : Z) (rest : list Z) :
  FlagOfCharacter c = None -> ParseFlags (c :: rest) 0 = Some (c :: rest, 0).
Proof. intros H. cbn [ParseFlags]. rewrite H. reflexivity. Qed.

(** X25: the width and the precision of a directive without flags.  A run
    of digits that does not begin with a zero is read as the width it spells,
    and the digits after a point as the precision; without digits the width
    is 0, without a point the precision stays unspecified ([-1]), and a point
    with no digit after it gives the precision 0.  (A zero in front would be
    taken as the flag.)  An asterisk takes the width, and after the point the
    precision, from the next [int] argument, as it is, negative or not. *)
Theorem ParseSpecHead_reads_width_and_precision :
  forall (ws ps : list Z) (c : Z) (rest : list Z) (argList : list Arg),
    Forall (fun d => tIsdigit d = true) ws ->
    Forall (fun d => tIsdigit d = true) ps ->
    hd_error ws <> Some (ch "0") ->
    tIsdigit c = false -> IsFlagCharacter c = false -> c <> ch "." -> c <> ch "*" ->
    DecimalValue ws <= INT_MAX -> DecimalValue ps <= INT_MAX ->
    ParseSpecHead (ws ++ c :: rest) argList
    = inr (c :: rest, argList, mkFormatSpec 0 (DecimalValue ws) (-1) 0)
    /\ ParseSpecHead (ws ++ ch "." :: ps ++ c :: rest) argList
       = inr (c :: rest, argList, mkFormatSpec 0 (DecimalValue ws) (DecimalValue ps) 0)
    /\ (forall w p,
           ParseSpecHead (ch "*" :: ch "." :: ch "*" :: c :: rest)
                         (ArgI 4 w :: ArgI 4 p :: argList)
           = inr (c :: rest, argList,
                  mkFormatSpec 0 (int32 (w mod 2 ^ 32)) (int32 (p mod 2 ^ 32)) 0)).
Proof.
  intros ws ps c rest argList Hws Hps Hzero Hc Hflag Hdot Hstar Hwmax Hpmax.
  assert (Hcflag : FlagOfCharacter c = None).
  { rewrite <- FlagOfCharacter_IsFlagCharacter in Hflag.
    destruct (FlagOfCharacter c); [discriminate Hflag|reflexivity]. }
  assert (Hflags : forall t tail, (t = c \/ t = ch ".") ->
                                  ParseFlags (ws ++ t :: tail) 0 = Some (ws ++ t :: tail, 0)).
  { intros t tail Ht. destruct ws as [|w ws'].
    - cbn [app]. apply ParseFlags_none. destruct Ht as [-> | ->]; [exact Hcflag|reflexivity].
    - cbn [app]. apply ParseFlags_none. apply digit_is_no_flag.
      + inversion Hws; assumption.
      + intros Hw. apply Hzero. cbn [hd_error]. rewrite Hw. reflexivity. }
  assert (Hwidth : forall t tail spec,
             (t = c \/ t = ch ".") -> Width spec = 0 ->
             ParseWidth (ws ++ t :: tail) argList spec
             = Some (Some (t :: tail, argList, set_Width spec (DecimalValue ws)))).
  { intros t tail spec Ht Hw0.
    assert (Htd : tIsdigit t = false) by (destruct Ht as [-> | ->]; [exact Hc|reflexivity]).
    assert (Hnum : ParseNumber (ws ++ t :: tail) 0 = Some (t :: tail, DecimalValue ws))
      by (apply ParseNumber_digits; try assumption; lia).
    unfold ParseWidth. rewrite Hw0.
    destruct ws as [|w ws'].
    - cbn [app] in *.
      replace (t =? ch "*") with false
        by (symmetry; apply Z.eqb_neq; destruct Ht as [-> | ->]; [exact Hstar|discriminate]).
      cbn [negb]. rewrite Hnum. reflexivity.
    - cbn [app] in *.
      assert (Hwd : tIsdigit w = true) by (inversion Hws; assumption).
      apply tIsdigit_range in Hwd.
      replace (w =? ch "*") with false
        by (symmetry; apply Z.eqb_neq; change (ch "*") with 42;
            change (ch "0") with 48 in Hwd; lia).
      cbn [negb]. rewrite Hnum. reflexivity. }
  split; [|split].
  - unfold ParseSpecHead. change (Flags FormatSpec_default) with 0.
    rewrite (Hflags c rest (or_introl eq_refl)).
    change (has 0 Flag_LeadingZeros && has 0 Flag_LeftJustify) with false. cbv iota.
    rewrite (Hwidth c rest); [|left; reflexivity|reflexivity].
    unfold ParsePrecision.
    replace (c =? ch ".") with false by (symmetry; apply Z.eqb_neq; exact Hdot).
    reflexivity.
  - unfold ParseSpecHead. change (Flags FormatSpec_default) with 0.
    rewrite (Hflags (ch ".") _ (or_intror eq_refl)).
    change (has 0 Flag_LeadingZeros && has 0 Flag_LeftJustify) with false. cbv iota.
    rewrite (Hwidth (ch ".")); [|right; reflexivity|reflexivity].
    unfold ParsePrecision. rewrite Z.eqb_refl.
    assert (Hnum : ParseNumber (ps ++ c :: rest) 0 = Some (c :: rest, DecimalValue ps))
      by (apply ParseNumber_digits; try assumption; lia).
    destruct ps as [|p ps'].
    + cbn [app] in *.
      replace (c =? ch "*") with false by (symmetry; apply Z.eqb_neq; exact Hstar).
      cbn [negb Precision set_Precision]. rewrite Hnum. reflexivity.
    + cbn [app] in *.
      assert (Hpd : tIsdigit p = true) by (inversion Hps; assumption).
      apply tIsdigit_range in Hpd.
      replace (p =? ch "*") with false
        by (symmetry; apply Z.eqb_neq; change (ch "*") with 42;
            change (ch "0") with 48 in Hpd; lia).
      cbn [negb Precision set_Precision]. rewrite Hnum. reflexivity.
  - intros w p. reflexivity.
Qed.

Lemma ParseSpecHead_reads_width_and_precision_witness :
  ParseSpecHead (cstr "12" ++ ch "." :: cstr "3" ++ ch "f" :: []) []
  = inr ([ch "f"], [], mkFormatSpec 0 12 3 0).
Proof.
  refine (proj1 (proj2 (ParseSpecHead_reads_width_and_precision (cstr "12") (cstr "3")
                          (ch "f") [] [] _ _ _ _ _ _ _ _ _))).
  - repeat constructor.
  - repeat constructor.
  - discriminate.
  - reflexivity.
  - reflexivity.
  - discriminate.
  - discriminate.
  - vm_compute. discriminate.
  - vm_compute. discriminate.
Defined.

(** ** Integers: the base prefix *)

(** X26: the [#] flag of the unsigned integer directives on a 32-bit or
    64-bit operand (no decorative flag, no [+] or space flag, a width and a
    precision that the helper's [buf] has room for).  In front of the digits
    that spell the operand stands [0] for base 8 and [0x] or [0X], in the
    letter case of the directive, for base 16, but only when the operand is
    not zero; the other bases get no prefix.  With the zero flag and no
    precision the zeros fill the width that the prefix leaves. *)
Theorem base_prefix_only_for_a_nonzero_operand :
  forall (spec : FormatSpec) (data : Z) (upperCase : bool) (base : Z),
    TypeSizeBytes spec = 4 \/ TypeSizeBytes spec = 8 ->
    2 <= base ->
    Width spec <= 127 -> Precision spec <= 127 ->
    Undecorated spec ->
    has (Flags spec) Flag_BasePrefix = true ->
    has (Flags spec) Flag_ForcePosOrNegSign = false ->
    has (Flags spec) Flag_SpaceForPosSign = false ->
    let value := data mod 2 ^ (TypeSizeBytes spec * 8) in
    let prefix :=
      if value =? 0 then []
      else if base =? 8 then cstr "0"
      else if base =? 16 then (if upperCase then cstr "0X" else cstr "0x")
      else [] in
    exists digits,
      (forall r, IntegerHandler true upperCase base r spec (ValI data)
                 = Some (Deliver r (Field spec (prefix ++ digits))))
      /\ Spells upperCase base digits value
      /\ LocalPrecision spec <= Z.of_nat (List.length digits)
      /\ (has (LocalFlags spec) Flag_LeadingZeros = true ->
          Width spec <= Z.of_nat (List.length (prefix ++ digits))).
Proof.
  intros spec data upperCase base Hsz Hbase _ _ Hund Hprefix Hplus Hspace value prefix.
  assert (Hb : TypeSizeBytes spec * 8 = 32 \/ TypeSizeBytes spec * 8 = 64) by lia.
  assert (Hsign : SignBlock spec true
                    (negb (data mod 2 ^ (TypeSizeBytes spec * 8)
                           <? 2 ^ (TypeSizeBytes spec * 8 - 1)))
                    base (Width spec) = ([], false, Width spec)).
  { unfold SignBlock. rewrite Hplus, Hspace. cbn [negb andb].
    destruct (base =? 10); reflexivity. }
  destruct (HandlerHelper_IntegerNative_spells spec data true (TypeSizeBytes spec * 8)
              upperCase base false [] false (Width spec) Hb Hbase Hund Hsign)
    as (ds & Htext & Hds & Hval & Hlen & Hzero & _).
  fold value in Htext, Hval, Hzero.
  assert (Hp : PrefixBlock spec value upperCase base false (Width spec)
               = (prefix, Width spec - Z.of_nat (List.length prefix))).
  { unfold PrefixBlock. subst prefix. rewrite Hprefix.
    destruct (value =? 0); cbn [negb andb orb]; [f_equal; simpl; lia|].
    destruct (base =? 8); [reflexivity|].
    destruct (base =? 16); [|f_equal; simpl; lia].
    destruct upperCase; reflexivity. }
  rewrite Hp in Htext, Hzero. cbn [fst snd app] in Htext, Hzero.
  exists (map (DigitChar upperCase) ds).
  split; [intros r; apply IntegerHandler_native; assumption|].
  split; [exists ds; repeat split; assumption|].
  rewrite length_app, length_map. split; [assumption|].
  intros Hz. specialize (Hzero Hz). lia.
Qed.

Lemma base_prefix_only_for_a_nonzero_operand_witness :
  exists digits,
    (forall r, Handler_X r (mkFormatSpec Flag_BasePrefix 0 (-1) 4) (ValI 48879)
               = Some (Deliver r (Field (mkFormatSpec Flag_BasePrefix 0 (-1) 4)
                                        (cstr "0X" ++ digits))))
    /\ Spells true 16 digits (48879 mod 2 ^ (4 * 8)).
Proof.
  destruct (base_prefix_only_for_a_nonzero_operand (mkFormatSpec Flag_BasePrefix 0 (-1) 4)
              48879 true 16)
    as (digits & Hrun & Hspell & _).
  - left. reflexivity.
  - lia.
  - simpl; lia.
  - simpl; lia.
  - split; reflexivity.
  - reflexivity.
  - reflexivity.
  - reflexivity.
  - exists digits. split; [exact Hrun|exact Hspell].
Defined.

(** ** Floating point: the sign and the padding *)

Lemma FloatEmit_Deliver (r : Receiver) (spec : FormatSpec) (conv : list Z)
  (res : PrologHelperFloat) :
  FloatEmit r spec conv res
  = Some (Deliver r
            (let n := Z.of_nat (List.length conv) in
             match res with
             | NeedsNeg => [ch "-"] ++ PadLeft spec (n + 1) ++ conv ++ PadRight spec (n + 1)
             | NeedsPlus => [ch "+"] ++ PadLeft spec (n + 1) ++ conv ++ PadRight spec (n + 1)
             | NeedsSpace => [ch " "] ++ PadLeft spec (n + 1) ++ conv ++ PadRight spec (n + 1)
             | NoZeros => Field (set_Flags spec (clear (Flags spec) Flag_LeadingZeros)) conv
             | PHF_None => Field spec conv
             end)).
Proof.
  unfold FloatEmit. cbv zeta.
  destruct res; try apply Justified_buf;
    rewrite Prolog_Deliver, Receive_buf_Deliver, Epilog_Deliver, Receive_Deliver,
      !Deliver_app; reflexivity.
Qed.

(** X27: the sign of the [f] directive.  For a value that is not special
    and whose digits [HandlerHelper_FloatNormal] produces, the sign is a
    minus for a negative value, else a plus with the [+] flag, else a blank
    with the space flag.  The width counts the sign.  Under the zero flag
    the sign comes first and the zeros stand between it and the digits;
    without the zero flag a minus or a plus stands next to the digits, after
    the blanks, while the blank of the space flag still comes first, in
    front of the padding. *)
Theorem f_directive_places_the_sign :
  forall (dp : Z) (spec : FormatSpec) (v : double) (buf : list Z) (rem : float),
    snd (HandlerHelper_HandleSpecialFloatTypes [] v) = false ->
    FloatNormal_Digits dp spec (Value v) false = Some (buf, rem) ->
    let digits := FloatNormal_Result buf rem in
    let sign := FloatSign spec (Value v) in
    let n := Z.of_nat (List.length (sign ++ digits)) in
    forall r,
      Handler_f dp r spec (ValD v)
      = Some (Deliver r
                (if has (Flags spec) Flag_LeadingZeros
                    || negb (PrimFloat.ltb (Value v) 0
                             || has (Flags spec) Flag_ForcePosOrNegSign)
                 then sign ++ PadLeft spec n ++ digits ++ PadRight spec n
                 else PadLeft spec n ++ sign ++ digits ++ PadRight spec n)).
Proof.
  intros dp spec v buf rem Hspecial Hdigits digits sign n r.
  assert (Hnorm : HandlerHelper_HandleSpecialFloatTypes [] v = ([], false)).
  { unfold HandlerHelper_HandleSpecialFloatTypes in *.
    destruct (tGetFloatType v); try discriminate Hspecial. reflexivity. }
  unfold Handler_f, Handler_f_double. rewrite Hnorm.
  unfold HandlerHelper_FloatNormal. rewrite Hdigits. fold digits.
  subst n sign. unfold FloatSign.
  assert (Hone : forall c, Z.of_nat (List.length ([c] ++ digits))
                           = Z.of_nat (List.length digits) + 1)
    by (intros c; cbn [app List.length]; lia).
  destruct (has (Flags spec) Flag_LeadingZeros) eqn:Ez; cbn [negb orb];
    destruct (PrimFloat.ltb (Value v) 0); cbn [negb orb app];
    try (destruct (has (Flags spec) Flag_ForcePosOrNegSign); cbn [negb orb app]);
    try (destruct (has (Flags spec) Flag_SpaceForPosSign); cbn [negb orb app]);
    rewrite FloatEmit_Deliver; cbv zeta; cbn [app];
    try rewrite <- (Hone (ch "-")); try rewrite <- (Hone (ch "+"));
    try rewrite <- (Hone (ch " ")); cbn [app]; try reflexivity.
Qed.

Lemma f_directive_places_the_sign_witness :
  FloatNormal_Digits 4 (mkFormatSpec Flag_LeadingZeros 8 1 8) (-2.5)%float false
  = Some (cstr "02.5", 0%float)
  /\ Handler_f 4 Receiver_string (mkFormatSpec Flag_LeadingZeros 8 1 8) (ValD (-2.5)%float)
     = Some (Deliver Receiver_string (cstr "-00002.5")).
Proof.
  assert (Hd : FloatNormal_Digits 4 (mkFormatSpec Flag_LeadingZeros 8 1 8) (-2.5)%float false
               = Some (cstr "02.5", 0%float)) by (vm_compute; reflexivity).
  split; [exact Hd|].
  refine (f_directive_places_the_sign 4 (mkFormatSpec Flag_LeadingZeros 8 1 8) (-2.5)%float
            (cstr "02.5") 0%float _ Hd Receiver_string).
  vm_compute. reflexivity.
Defined.

(** ** The scanner: the turns of the loop, and handlers that do not come back *)

(** On an infinite value the loops over a [double] do not end, whatever the
    number of turns: dividing an infinity by ten leaves it as it is. *)
Lemma MantissaLoop_infinite (turns : nat) :
  forall (treatPrecisionAsSigDigits : bool) (value : float) (precision : Z)
         (hasMantissa : bool) (buf : list Z),
    MantissaLoop turns treatPrecisionAsSigDigits infinity value precision hasMantissa buf
    = None.
Proof.
  induction turns as [|turns IH]; intros sig value precision hasMantissa buf;
    [reflexivity|].
  cbn [MantissaLoop].
  replace (fge infinity 1) with true by (vm_compute; reflexivity).
  replace (infinity / 10)%float with infinity by (vm_compute; reflexivity).
  apply IH.
Qed.

Lemma DivideDown_infinite (turns : nat) :
  forall exponent : Z, DivideDown turns infinity exponent = None.
Proof.
  induction turns as [|turns IH]; intros exponent; [reflexivity|].
  cbn [DivideDown].
  replace (fge infinity 10) with true by (vm_compute; reflexivity).
  replace (infinity / 10)%float with infinity by (vm_compute; reflexivity).
  apply IH.
Qed.

(** The power of ten that [HandlerHelper_FloatNormal] raises to the largest
    finite [double] overflows, and the digits of that operand never come. *)
Lemma FloatNormal_Digits_DBL_MAX (dp : Z) (spec : FormatSpec) (sig : bool) :
  RaiseDec FloatFuel 1 DBL_MAX = Some infinity
  /\ FloatNormal_Digits dp spec DBL_MAX sig = None.
Proof.
  assert (Hraise : RaiseDec FloatFuel 1 DBL_MAX = Some infinity) by (vm_compute; reflexivity).
  split; [exact Hraise|].
  unfold FloatNormal_Digits.
  replace (PrimFloat.ltb DBL_MAX 0) with false by (vm_compute; reflexivity).
  rewrite Hraise.
  replace (fgt infinity DBL_MAX) with true by (vm_compute; reflexivity).
  replace (infinity / 10)%float with infinity by (vm_compute; reflexivity).
  rewrite MantissaLoop_infinite. reflexivity.
Qed.

Lemma Handler_f_DBL_MAX (dp : Z) (r : Receiver) (spec : FormatSpec) :
  Handler_f dp r spec (ValD DBL_MAX) = None.
Proof.
  unfold Handler_f, Handler_f_double.
  replace (HandlerHelper_HandleSpecialFloatTypes [] DBL_MAX) with (@nil Z, false)
    by (vm_compute; reflexivity).
  unfold HandlerHelper_FloatNormal. cbn [Value Double].
  rewrite (proj2 (FloatNormal_Digits_DBL_MAX dp spec false)). reflexivity.
Qed.

Lemma Process_directive_stops (dp : Z) (fuel : nat) (r : Receiver) (c1 : Z) (rest' : list Z)
  (argList : list Arg) (why : Failure) :
  IsValidFormatSpecifierCharacter dp c1 = true ->
  ProcessDirective dp r (c1 :: rest') argList = inl why ->
  Process dp (S fuel) r (ch "%" :: c1 :: rest') argList = Stopped why.
Proof.
  intros Hvalid Hdir. cbn [Process].
  change (ch "%" =? 0) with false. change (negb (ch "%" =? ch "%")) with false.
  cbv iota. rewrite Hvalid. cbn [negb]. rewrite Hdir. reflexivity.
Qed.

(** X5: the turns of the [while] of [Process].  Every turn moves the format
    pointer forward, a directive by at least its type character, so the loop
    takes no more turns than the storage of the format has characters: with
    a turn more than that allowed the scan never runs out of turns, and any
    larger number of turns gives the same outcome.  This bounds the turns
    only.  Whether [Process] comes back hangs on the handlers it calls, and
    a handler may not come back: the loop [while (dec >= 1.0)] of
    [HandlerHelper_FloatNormal] does not end within any number of turns once
    [dec] is infinite, as it is for the largest finite [double], and the scan
    of the format [%f] with that operand is followed no further than the call
    of the handler. *)
Theorem Process_turns_bounded_by_the_format :
  forall (dp : Z) (fuel : nat) (r : Receiver) (format : list Z) (argList : list Arg),
    (List.length format < fuel)%nat ->
    Process dp fuel r format argList <> OutOfFuel
    /\ Process dp fuel r format argList = RunProcess dp r format argList
    /\ (forall r' format' argList',
          ProcessDirective dp r format argList = inr (r', format', argList') ->
          (List.length format' < List.length format)%nat)
    /\ (forall (turns : nat) (treatPrecisionAsSigDigits : bool) (value : float)
               (precision : Z) (hasMantissa : bool) (buf : list Z),
          MantissaLoop turns treatPrecisionAsSigDigits infinity value precision
                       hasMantissa buf = None)
    /\ RaiseDec FloatFuel 1 DBL_MAX = Some infinity
    /\ RunProcess dp r (cstr "%f" ++ [0]) [ArgD DBL_MAX] = Stopped NoResult.
Proof.
  intros dp fuel r format argList Hlen.
  split; [apply Process_enough_fuel; assumption|].
  split.
  { unfold RunProcess.
    replace fuel with ((fuel - S (List.length format)) + S (List.length format))%nat by lia.
    apply Process_fuel_add. lia. }
  split; [intros r' format' argList'; apply ProcessDirective_length|].
  split; [intros turns; apply MantissaLoop_infinite|].
  split; [exact (proj1 (FloatNormal_Digits_DBL_MAX dp FormatSpec_default false))|].
  unfold RunProcess.
  change (cstr "%f" ++ [0]) with (ch "%" :: ch "f" :: [0]).
  apply Process_directive_stops; [reflexivity|].
  unfold ProcessDirective.
  replace (ParseSpec (ch "f" :: [0]) [ArgD DBL_MAX])
    with (@inr Failure _ (ch "f" :: [0], [ArgD DBL_MAX], FormatSpec_default))
    by reflexivity.
  replace (FindHandler dp (ch "f"))
    with (Some (mkHandlerInfo (ch "f") BT_Dbl 8 (Handler_f dp))) by reflexivity.
  cbn [DefaultTypeSize TypeSizeBytes FormatSpec_default Z.eqb set_TypeSizeBytes
       DefaultByteSize TypeBase Handler va_arg_val Pos.eqb orb negb].
  rewrite Handler_f_DBL_MAX. reflexivity.
Qed.

Lemma Process_turns_bounded_by_the_format_witness :
  (List.length CountFormat < 100)%nat
  /\ Process 4 100 Receiver_count CountFormat CountArgs <> OutOfFuel
  /\ Process 4 100 Receiver_count CountFormat CountArgs
     = RunProcess 4 Receiver_count CountFormat CountArgs.
Proof.
  split; [simpl; lia|].
  pose proof (Process_turns_bounded_by_the_format 4 100 Receiver_count CountFormat CountArgs
                ltac:(simpl; lia)) as (Hfuel & Hsame & _).
  split; [exact Hfuel|exact Hsame].
Defined.

(** ** Integers: decorative grouping, through the helpers and the directives *)

Lemma IntegerNative_Emit_Decorated (spec : FormatSpec) (curr convBuf : list Z) :
  IntegerNative_Emit (LocalFlags spec) curr convBuf = convBuf ++ Decorated (Flags spec) curr.
Proof.
  unfold IntegerNative_Emit, Decorated. rewrite !has_LocalFlags by reflexivity.
  destruct (has (Flags spec) Flag_DecorativeFormatting); [apply Decorate_spec; lia|].
  destruct (has (Flags spec) Flag_DecorativeFormattingAlt); [apply Decorate_spec; lia|].
  reflexivity.
Qed.

Lemma IntegerTacent_Emit_Decorated (spec : FormatSpec) (curr convBuf : list Z) :
  IntegerTacent_Emit (LocalFlags spec) curr convBuf
  = convBuf ++ DecoratedWide (Flags spec) curr.
Proof.
  unfold IntegerTacent_Emit, DecoratedWide. rewrite !has_LocalFlags by reflexivity.
  destruct (has (Flags spec) Flag_DecorativeFormatting); [apply Decorate_spec; lia|].
  destruct (has (Flags spec) Flag_DecorativeFormattingAlt); [apply Decorate_spec; lia|].
  reflexivity.
Qed.

Lemma digits_have_no_separator (upperCase : bool) (base : Z) (ds : list Z) :
  base <= 16 -> Forall (fun d => 0 <= d < base) ds ->
  Forall (fun c => IsSeparator c = false) (map (DigitChar upperCase) ds).
Proof.
  intros Hbase Hds. apply Forall_map. eapply Forall_impl; [|exact Hds].
  intros d Hd. cbv beta in Hd. apply DigitChar_no_separator. lia.
Qed.

Lemma StripSeparators_digits (digits : list Z) :
  Forall (fun c => IsSeparator c = false) digits -> StripSeparators digits = digits.
Proof.
  intros Hnosep. unfold StripSeparators. apply forallb_filter_id.
  apply forallb_forall. intros c Hc.
  rewrite Forall_forall in Hnosep. rewrite (Hnosep c Hc). reflexivity.
Qed.

Lemma StripSeparators_Decorated (flags : Z) (digits : list Z) :
  Forall (fun c => IsSeparator c = false) digits ->
  StripSeparators (Decorated flags digits) = digits
  /\ StripSeparators (DecoratedWide flags digits) = digits.
Proof.
  intros Hnosep. unfold Decorated, DecoratedWide.
  destruct (has flags Flag_DecorativeFormatting);
    [split; apply StripSeparators_Group; [reflexivity|assumption|reflexivity|assumption]|].
  destruct (has flags Flag_DecorativeFormattingAlt);
    [split; apply StripSeparators_Group; [reflexivity|assumption|reflexivity|assumption]|].
  split; apply StripSeparators_digits; assumption.
Qed.

(** The directive on a 32-bit or 64-bit operand. *)
Lemma IntegerHandler_native_grouped (treatAsUnsigned upperCase : bool) (base : Z)
  (spec : FormatSpec) (data : Z) :
  TypeSizeBytes spec = 4 \/ TypeSizeBytes spec = 8 -> 2 <= base <= 16 ->
  let bits := TypeSizeBytes spec * 8 in
  exists digits,
    Spells upperCase base digits (IntegerMagnitude spec treatAsUnsigned base bits data)
    /\ (forall r, IntegerHandler treatAsUnsigned upperCase base r spec (ValI data)
                  = Some (Deliver r (Field spec
                            (IntegerFront spec treatAsUnsigned upperCase base bits data
                             ++ Decorated (Flags spec) digits))))
    /\ StripSeparators (Decorated (Flags spec) digits) = digits.
Proof.
  intros Hsz Hbase bits.
  assert (Hb : bits = 32 \/ bits = 64) by (unfold bits; lia).
  destruct (SignBlock spec treatAsUnsigned (negb (data mod 2 ^ bits <? 2 ^ (bits - 1)))
                      base (Width spec)) as [[sg negate] w1] eqn:Hsign.
  destruct (HandlerHelper_IntegerNative_digits spec data treatAsUnsigned bits upperCase base
              false sg negate w1 Hb ltac:(lia) Hsign)
    as (ds & Htext & Hds & Hval & _).
  assert (Hmag : IntegerMagnitude spec treatAsUnsigned base bits data
                 = if negate then 2 ^ bits - data mod 2 ^ bits else data mod 2 ^ bits).
  { unfold IntegerMagnitude. cbv zeta. rewrite Hsign. reflexivity. }
  assert (Hfront : IntegerFront spec treatAsUnsigned upperCase base bits data
                   = sg ++ fst (PrefixBlock spec
                                  (if negate then 2 ^ bits - data mod 2 ^ bits
                                   else data mod 2 ^ bits) upperCase base false w1)).
  { unfold IntegerFront. cbv zeta. rewrite Hsign, Hmag. reflexivity. }
  rewrite IntegerNative_Emit_Decorated in Htext.
  exists (map (DigitChar upperCase) ds).
  split; [exists ds; rewrite Hmag; repeat split; assumption|].
  split.
  - intros r. rewrite Hfront. apply IntegerHandler_native; assumption.
  - apply StripSeparators_Decorated. apply (digits_have_no_separator upperCase base); [lia|].
    assumption.
Qed.

(** The directive on a 128-bit, 256-bit or 512-bit operand. *)
Lemma IntegerHandler_tacent_grouped (treatAsUnsigned upperCase : bool) (base : Z)
  (spec : FormatSpec) (data : Z) :
  TypeSizeBytes spec = 16 \/ TypeSizeBytes spec = 32 \/ TypeSizeBytes spec = 64 ->
  2 <= base <= 16 ->
  let bits := TypeSizeBytes spec * 8 in
  exists digits,
    Spells upperCase base digits (IntegerMagnitude spec treatAsUnsigned base bits data)
    /\ HandlerHelper_IntegerTacent [] spec data treatAsUnsigned bits upperCase base false
       = Some (IntegerFront spec treatAsUnsigned upperCase base bits data
               ++ DecoratedWide (Flags spec) digits)
    /\ (forall r, IntegerHandler treatAsUnsigned upperCase base r spec (ValI data)
                  = Some (Deliver r (Field spec
                            (IntegerFront spec treatAsUnsigned upperCase base bits data
                             ++ DecoratedWide (Flags spec) digits))))
    /\ StripSeparators (DecoratedWide (Flags spec) digits) = digits.
Proof.
  intros Hsz Hbase bits.
  assert (Hb : bits = 128 \/ bits = 256 \/ bits = 512) by (unfold bits; lia).
  destruct (SignBlock spec treatAsUnsigned (negb (data mod 2 ^ bits <? 2 ^ (bits - 1)))
                      base (Width spec)) as [[sg negate] w1] eqn:Hsign.
  destruct (HandlerHelper_IntegerTacent_digits spec data treatAsUnsigned bits upperCase base
              false sg negate w1 Hb ltac:(lia) Hsign)
    as (ds & Htext & Hds & Hval & _).
  assert (Hmag : IntegerMagnitude spec treatAsUnsigned base bits data
                 = if negate then 2 ^ bits - data mod 2 ^ bits else data mod 2 ^ bits).
  { unfold IntegerMagnitude. cbv zeta. rewrite Hsign. reflexivity. }
  assert (Hfront : IntegerFront spec treatAsUnsigned upperCase base bits data
                   = sg ++ fst (PrefixBlock spec
                                  (if negate then 2 ^ bits - data mod 2 ^ bits
                                   else data mod 2 ^ bits) upperCase base false w1)).
  { unfold IntegerFront. cbv zeta. rewrite Hsign, Hmag. reflexivity. }
  rewrite IntegerTacent_Emit_Decorated in Htext.
  exists (map (DigitChar upperCase) ds).
  split; [exists ds; rewrite Hmag; repeat split; assumption|].
  split; [rewrite Hfront; exact Htext|].
  split.
  - intros r. rewrite Hfront. apply IntegerHandler_tacent; assumption.
  - apply StripSeparators_Decorated. apply (digits_have_no_separator upperCase base); [lia|].
    assumption.
Qed.

(** C6: the digit text is grouped from the right: with the decorative flag a
    [_] every 4 digits in the native helper and every 8 digits in the helper
    of the 128, 256 and 512 bit integers, with the alternative flag a [,]
    every 3 digits; no separator stands before the first digit or after the
    last; when both flags are set the decorative one is taken.  This is what
    the decorative loops of the two helpers do to any digit text, and it is
    what every integer directive delivers: on an operand of 4 or 8 bytes and
    on one of 16, 32 or 64 bytes, with a width and a precision that the
    helper's [buf] has room for, the field holds the sign and the base
    prefix and then digits that spell the magnitude of the operand, grouped
    by 4 and by 8; the separators are the only characters added.  1234567
    under the alternative flag renders as [1,234,567], and a 128-bit operand
    under the decorative flag in groups of 8. *)
Theorem decorative_grouping :
  (forall (flags : Z) (curr convBuf : list Z),
      IntegerNative_Emit flags curr convBuf
      = convBuf ++
        (if has flags Flag_DecorativeFormatting then Spec_GroupFromRight 4 (ch "_") curr
         else if has flags Flag_DecorativeFormattingAlt
              then Spec_GroupFromRight 3 (ch ",") curr
              else curr))
  /\ (forall (flags : Z) (curr convBuf : list Z),
         IntegerTacent_Emit flags curr convBuf
         = convBuf ++
           (if has flags Flag_DecorativeFormatting then Spec_GroupFromRight 8 (ch "_") curr
            else if has flags Flag_DecorativeFormattingAlt
                 then Spec_GroupFromRight 3 (ch ",") curr
                 else curr))
  /\ (forall (every sep d x : Z) (ds : list Z),
         hd_error (Spec_GroupFromRight every sep (d :: ds)) = Some d
         /\ last (Spec_GroupFromRight every sep (d :: ds)) x = last (d :: ds) x)
  /\ (forall dp : Z,
         RunProcess dp Receiver_buffer (cstr "%'d" ++ [0]) [ArgI 4 1234567]
         = Done (Emit Receiver_buffer (cstr "1,234,567" ++ [0])))
  /\ (forall (treatAsUnsigned upperCase : bool) (base : Z) (spec : FormatSpec) (data : Z),
         TypeSizeBytes spec = 4 \/ TypeSizeBytes spec = 8 -> 2 <= base <= 16 ->
         Width spec <= 127 -> Precision spec <= 127 ->
         let bits := TypeSizeBytes spec * 8 in
         exists digits,
           Spells upperCase base digits (IntegerMagnitude spec treatAsUnsigned base bits data)
           /\ (forall r, IntegerHandler treatAsUnsigned upperCase base r spec (ValI data)
                         = Some (Deliver r (Field spec
                                   (IntegerFront spec treatAsUnsigned upperCase base bits data
                                    ++ Decorated (Flags spec) digits))))
           /\ StripSeparators (Decorated (Flags spec) digits) = digits)
  /\ (forall (treatAsUnsigned upperCase : bool) (base : Z) (spec : FormatSpec) (data : Z),
         TypeSizeBytes spec = 16 \/ TypeSizeBytes spec = 32 \/ TypeSizeBytes spec = 64 ->
         2 <= base <= 16 ->
         Width spec <= 1022 -> Precision spec <= 1022 ->
         let bits := TypeSizeBytes spec * 8 in
         exists digits,
           Spells upperCase base digits (IntegerMagnitude spec treatAsUnsigned base bits data)
           /\ HandlerHelper_IntegerTacent [] spec data treatAsUnsigned bits upperCase base false
              = Some (IntegerFront spec treatAsUnsigned upperCase base bits data
                      ++ DecoratedWide (Flags spec) digits)
           /\ (forall r, IntegerHandler treatAsUnsigned upperCase base r spec (ValI data)
                         = Some (Deliver r (Field spec
                                   (IntegerFront spec treatAsUnsigned upperCase base bits data
                                    ++ DecoratedWide (Flags spec) digits))))
           /\ StripSeparators (DecoratedWide (Flags spec) digits) = digits)
  /\ (forall dp : Z,
         RunProcess dp Receiver_buffer (cstr "%_:4X" ++ [0])
                    [ArgI 16 0x0123456789ABCDEF0123456789ABCDEF]
         = Done (Emit Receiver_buffer (cstr "1234567_89ABCDEF_01234567_89ABCDEF" ++ [0]))
         /\ RunProcess dp Receiver_buffer (cstr "%_X" ++ [0]) [ArgI 4 0x12345678]
            = Done (Emit Receiver_buffer (cstr "1234_5678" ++ [0]))
         /\ RunProcess dp Receiver_buffer (cstr "%_'d" ++ [0]) [ArgI 4 1234567]
            = Done (Emit Receiver_buffer (cstr "123_4567" ++ [0]))
         /\ RunProcess dp Receiver_buffer (cstr "%':4d" ++ [0]) [ArgI 16 1234567]
            = Done (Emit Receiver_buffer (cstr "1,234,567" ++ [0]))).
Proof.
  split; [|split; [|split; [|split; [|split; [|split]]]]].
  - intros flags curr convBuf. unfold IntegerNative_Emit.
    destruct (has flags Flag_DecorativeFormatting); [apply Decorate_spec; lia|].
    destruct (has flags Flag_DecorativeFormattingAlt); [apply Decorate_spec; lia|].
    reflexivity.
  - intros flags curr convBuf. unfold IntegerTacent_Emit.
    destruct (has flags Flag_DecorativeFormatting); [apply Decorate_spec; lia|].
    destruct (has flags Flag_DecorativeFormattingAlt); [apply Decorate_spec; lia|].
    reflexivity.
  - intros every sep d x ds. split; [reflexivity|apply Spec_GroupFromRight_last].
  - intros dp. reflexivity.
  - intros treatAsUnsigned upperCase base spec data Hsz Hbase _ _.
    apply IntegerHandler_native_grouped; assumption.
  - intros treatAsUnsigned upperCase base spec data Hsz Hbase _ _.
    apply IntegerHandler_tacent_grouped; assumption.
  - intros dp. split; [vm_compute; reflexivity|].
    split; [reflexivity|]. split; [reflexivity|]. vm_compute; reflexivity.
Qed.
